(** * dune-istl communicator.hh: the buffered and the datatype communicator

    A shallow embedding of [CommPolicy], [CopyGatherScatter],
    [BufferedCommunicator] and [DatatypeCommunicator] of
    dune/istl/communicator.hh, and the properties the specification
    states about them.

    Conventions of the embedding.
    - [int] is 32 bits and [std::size_t] 64 bits (LP64); values are [Z] and
      every conversion and every unsigned operation has its wrap-around
      written out ([to_int], [to_size_t]).  Signed overflow is undefined in
      C++; in the sums of the size calculator it is rendered as two's
      complement wrap-around, and the theorems that depend on a count state
      the range they need; the increment of an [int] loop counter past
      [INT_MAX] is [None].
    - The [std::size_t] byte size of a slab is converted to the [int count]
      of [MPI_Irecv] and [MPI_Issend] at the call ([MPI_count]).
    - [std::map<int,T>] is an association list kept strictly ascending in
      the key; iterating the map is iterating the list.
    - A run that stops in a failed [assert], leaves the allocated buffers,
      goes through a null pointer or deletes an array twice (undefined
      behaviour), or hands MPI a negative count, is [None]; a run that
      ends, normally or by throwing [CommunicationError], is [Some].
    - The calls into MPI are recorded in a trace; what MPI answers (ranks,
      completion order, statuses, payloads, the reduction) is an explicit
      environment. *)

From Stdlib Require Import ZArith Lia Sorted.
From stdpp Require Import base tactics option numbers functions list.

Local Open Scope Z_scope.

(** ** Machine integers *)

Module Machine.

Definition int_min : Z := - 2 ^ 31.
Definition int_max : Z := 2 ^ 31 - 1.
Definition size_t_modulus : Z := 2 ^ 64.

(** Conversion to [int] (two's complement). *)
Definition to_int (z : Z) : Z := (z + 2 ^ 31) mod 2 ^ 32 - 2 ^ 31.

(** Conversion to [std::size_t]. *)
Definition to_size_t (z : Z) : Z := z mod size_t_modulus.

Definition int_add (a b : Z) : Z := to_int (a + b).
Definition size_t_add (a b : Z) : Z := to_size_t (a + b).
Definition size_t_mul (a b : Z) : Z := to_size_t (a * b).

Definition in_int (z : Z) : Prop := int_min <= z <= int_max.
Definition in_size_t (z : Z) : Prop := 0 <= z < size_t_modulus.

End Machine.

Import Machine.

(** ** [std::map<int,T>] *)

Module StdMap.

Abbreviation t T := (list (Z * T)).

Definition empty {T} : t T := [].

(** [std::map::insert]: an existing key keeps its value. *)
Fixpoint insert {T} (k : Z) (v : T) (m : t T) : t T :=
  match m with
  | [] => [(k, v)]
  | (k', v') :: m' =>
      if k <? k' then (k, v) :: m
      else if k =? k' then m
      else (k', v') :: insert k v m'
  end.

Fixpoint find {T} (k : Z) (m : t T) : option T :=
  match m with
  | [] => None
  | (k', v') :: m' => if k =? k' then Some v' else find k m'
  end.

Definition size {T} (m : t T) : Z := Z.of_nat (length m).

Definition keys {T} (m : t T) : list Z := map fst m.

(** The invariant of the red-black tree, seen through its iteration. *)
Definition wf {T} (m : t T) : Prop := StronglySorted Z.lt (keys m).

End StdMap.

(** ** Interface (interface.hh, consumed) *)

(** Modelled from the spec: [InterfaceInformation] of interface.hh, the
    per-peer ordered list of local positions, with [size()] and
    [operator[]]. *)
Abbreviation InterfaceInformation := (list Z).

(** Modelled from the spec: [Interface] of interface.hh; [interfaces()] maps
    a peer rank to the pair (send list, receive list), [communicator()] is
    the MPI communicator handle. *)
Record Interface : Type := {
  interfaces : StdMap.t (InterfaceInformation * InterfaceInformation);
  communicator : Z
}.

(** ** CommPolicy *)

Inductive IndexedTypeFlag : Type := SizeOne | VariableSize.

Class CommPolicy (Data : Type) : Type := {
  IndexedType : Type;
  Flag : IndexedTypeFlag;
  getSize : Data → Z → Z;
  (** [sizeof(IndexedType)], at least one byte. *)
  sizeof_IndexedType : positive
}.

(** The user's GatherScatter: without subindex for [SizeOne] containers,
    with subindex for [VariableSize] ones. *)
Inductive GatherScatter (Data : Type) `{CommPolicy Data} : Type :=
| GS_SizeOne (gather : Data → Z → IndexedType)
             (scatter : Data → IndexedType → Z → Data)
| GS_VariableSize (gather : Data → Z → Z → IndexedType)
                  (scatter : Data → IndexedType → Z → Z → Data).

Arguments GS_SizeOne {Data _} gather scatter.
Arguments GS_VariableSize {Data _} gather scatter.

Definition flag_of {Data} `{CommPolicy Data} (gs : GatherScatter Data)
  : IndexedTypeFlag :=
  match gs with
  | GS_SizeOne _ _ => SizeOne
  | GS_VariableSize _ _ => VariableSize
  end.

(** ** BufferedCommunicator: the plan *)

Record MessageInformation : Type := {
  start_ : Z;   (* in values from the beginning of the buffer *)
  size_ : Z     (* in bytes *)
}.

Abbreviation InformationMap :=
  (StdMap.t (MessageInformation * MessageInformation)).

(** ** MPI, as far as the communicators use it *)

Definition MPI_SUCCESS : Z := 0.

(** An opaque handle; its value is never inspected. *)
Definition MPI_COMM_WORLD : Z := 0.

Inductive MPI_Datatype : Type :=
| MPI_BYTE
| MPI_INT
| MPI_Type_hindexed (id : Z).

(** A run that cannot go on ([None]) or its result. *)
Fixpoint foldlM {A B} (f : A → B → option A) (a : A) (l : list B)
  : option A :=
  match l with
  | [] => Some a
  | b :: l => a' ← f a b; foldlM f a' l
  end.

(** [buffer[index] = v]; outside the allocation the behaviour is undefined. *)
Definition buffer_write {T} (buffer : list T) (index : Z) (v : T)
  : option (list T) :=
  if bool_decide (0 <= index < Z.of_nat (length buffer))
  then Some (<[Z.to_nat index := v]> buffer)
  else None.

(** [buffer[index]] *)
Definition buffer_read {T} (buffer : list T) (index : Z) : option T :=
  if bool_decide (0 <= index) then buffer !! Z.to_nat index else None.

(** Containers live in a store and are passed by reference. *)
Definition ref : Type := nat.

(** The store maps a reference to the container it holds. *)
Abbreviation store Data := (ref → Data).

Section Buffered.

Context {Data : Type} `{policy : CommPolicy Data}.

(** What freshly allocated buffer memory holds. *)
Variable indeterminate : IndexedType.

(** The two compile-time switches. *)
Variable NDEBUG : bool.
Variable DUNE_ISTL_WITH_CHECKING : bool.

Definition sizeofT : Z := Z.pos sizeof_IndexedType.

Record BufferedCommunicator : Type := {
  messageInformation_ : InformationMap;
  (** [buffers_[0]], [buffers_[1]], read as arrays of [IndexedType]. *)
  buffers_ : list IndexedType * list IndexedType;
  (** [bufferSize_[0]], [bufferSize_[1]], in bytes. *)
  bufferSize_ : Z * Z;
  interface_ : option Interface
}.

(** [enum { commTag_ }] *)
Definition commTag_ : Z := 0.

(** [BufferedCommunicator()] *)
Definition BufferedCommunicator_new : BufferedCommunicator :=
  {| messageInformation_ := StdMap.empty;
     buffers_ := ([], []);
     bufferSize_ := (0, 0);
     interface_ := None |}.

(** [free()] *)
Definition free (c : BufferedCommunicator) : BufferedCommunicator :=
  match interface_ c with
  | Some _ =>
      {| messageInformation_ := StdMap.empty;
         buffers_ := ([], []);
         bufferSize_ := bufferSize_ c;
         interface_ := None |}
  | None => c
  end.

(** [MessageSizeCalculator<Data,SizeOne>::operator()(info)] *)
Definition MessageSizeCalculator_SizeOne_info
    (info : InterfaceInformation) : Z :=
  to_int (Z.of_nat (length info)).

(** [MessageSizeCalculator<Data,SizeOne>::operator()(data, info)] *)
Definition MessageSizeCalculator_SizeOne
    (data : Data) (info : InterfaceInformation) : Z :=
  MessageSizeCalculator_SizeOne_info info.

(** [MessageSizeCalculator<Data,VariableSize>::operator()(data, info)] *)
Definition MessageSizeCalculator_VariableSize
    (data : Data) (info : InterfaceInformation) : Z :=
  fold_left (λ entries local, int_add entries (getSize data local)) info 0.

(** [MessageSizeCalculator<Data,Flag>()(data, info)], by the flag. *)
Definition MessageSizeCalculator
    (data : Data) (info : InterfaceInformation) : Z :=
  match Flag with
  | SizeOne => MessageSizeCalculator_SizeOne data info
  | VariableSize => MessageSizeCalculator_VariableSize data info
  end.

(** [new char[bytes]], as an array of [IndexedType]. *)
Definition new_buffer (bytes : Z) : list IndexedType :=
  replicate (Z.to_nat (bytes / sizeofT)) indeterminate.

(** One turn of the loop of [build] over [interface.interfaces()]. *)
Definition build_step
    (noSend noRecv : InterfaceInformation → Z)
    (acc : (Z * Z) * InformationMap)
    (interfacePair : Z * (InterfaceInformation * InterfaceInformation))
  : (Z * Z) * InformationMap :=
  let '((bufferSize0, bufferSize1), messageInformation) := acc in
  let noSend := noSend interfacePair.2.1 in
  let noRecv := noRecv interfacePair.2.2 in
  ((size_t_add bufferSize0 noSend, size_t_add bufferSize1 noRecv),
   StdMap.insert interfacePair.1
     ({| start_ := bufferSize0; size_ := size_t_mul noSend sizeofT |},
      {| start_ := bufferSize1; size_ := size_t_mul noRecv sizeofT |})
     messageInformation).

Definition build_with
    (noSend noRecv : InterfaceInformation → Z)
    (c : BufferedCommunicator) (interface : Interface)
  : BufferedCommunicator :=
  let '((bufferSize0, bufferSize1), messageInformation) :=
    fold_left (build_step noSend noRecv) (interfaces interface)
              ((0, 0), messageInformation_ c) in
  let bufferSize0 := size_t_mul bufferSize0 sizeofT in
  let bufferSize1 := size_t_mul bufferSize1 sizeofT in
  {| messageInformation_ := messageInformation;
     buffers_ := (new_buffer bufferSize0, new_buffer bufferSize1);
     bufferSize_ := (bufferSize0, bufferSize1);
     interface_ := Some interface |}.

(** [build<Data>(interface)], enabled for [SizeOne] containers only;
    [rank_of] is [MPI_Comm_rank]. *)
Definition build_SizeOne (rank_of : Z → Z)
    (c : BufferedCommunicator) (interface : Interface)
  : BufferedCommunicator :=
  let lrank := rank_of (communicator interface) in
  build_with MessageSizeCalculator_SizeOne_info
             MessageSizeCalculator_SizeOne_info c interface.

(** [build<Data>(source, dest, interface)] *)
Definition build
    (c : BufferedCommunicator) (source dest : Data) (interface : Interface)
  : BufferedCommunicator :=
  build_with (MessageSizeCalculator source) (MessageSizeCalculator dest)
             c interface.

(** *** What one exchange does and what MPI answers *)

Inductive event : Type :=
| EvGather (index local : Z) (sub : option Z)
    (* sendBuffer[index] = gather(data, local[, sub]) *)
| EvIrecv (start bytes : Z) (type : MPI_Datatype) (source tag comm : Z)
          (request : nat)
| EvIssend (start bytes : Z) (type : MPI_Datatype) (dest tag comm : Z)
           (request : nat) (message : list IndexedType)
| EvWaitany (count : nat) (finished : option nat) (error : Z)
| EvScatter (proc index local : Z) (sub : option Z)
    (* scatter(data, recvBuffer[index], local[, sub]) *)
| EvWait (request : nat) (code : Z)
| EvCerr (rank : Z) (sending : bool) (proc : option Z)
| EvAllreduce_MIN (success comm globalSuccess : Z)
| EvThrow_CommunicationError.

Record mpi_env : Type := {
  (** [MPI_Comm_rank], by communicator *)
  comm_rank : Z → Z;
  (** the k-th [MPI_Waitany]: [finished] ([None] is [MPI_UNDEFINED]) and
      [status.MPI_ERROR] *)
  waitany : nat → option nat * Z;
  (** the values the message of a peer carries *)
  payload : Z → list IndexedType;
  (** what [MPI_Wait] returns for the i-th send request *)
  wait : nat → Z;
  (** the reduced value, given this process's contribution *)
  allreduce_min : Z → Z
}.

Definition assert (b : bool) : option unit :=
  if NDEBUG || b then Some () else None.

Definition checking_assert (b : bool) : option unit :=
  if DUNE_ISTL_WITH_CHECKING then assert b else Some ().

Definition gather_state : Type := list IndexedType * Z * list event.

Definition gather_SizeOne_at
    (gather : Data → Z → IndexedType) (data : Data) (bufferSize : Z)
    (s : gather_state) (local : Z) : option gather_state :=
  let '(buffer, index, tr) := s in
  _ ← checking_assert
        (bool_decide
           (size_t_mul (size_t_add index 1) sizeofT <= bufferSize));
  buffer ← buffer_write buffer index (gather data local);
  Some (buffer, size_t_add index 1, tr ++ [EvGather index local None]).

(** [MessageGatherer<Data,GatherScatter,FORWARD,SizeOne>::operator()] *)
Definition MessageGatherer_SizeOne
    (FORWARD : bool) (gather : Data → Z → IndexedType)
    (rank_of : Z → Z) (interface : Interface) (data : Data)
    (buffer : list IndexedType) (bufferSize : Z)
  : option (list IndexedType * list event) :=
  let rank := rank_of MPI_COMM_WORLD in
  s ← foldlM
        (λ s interfacePair,
           foldlM (gather_SizeOne_at gather data bufferSize) s
                  (if FORWARD then interfacePair.2.1
                   else interfacePair.2.2))
        (buffer, 0, []) (interfaces interface);
  Some (s.1.1, s.2).

Definition gather_VariableSize_at
    (gather : Data → Z → Z → IndexedType) (data : Data) (bufferSize : Z)
    (local : Z) (s : gather_state) (j : Z) : option gather_state :=
  let '(buffer, index, tr) := s in
  _ ← checking_assert
        (bool_decide
           (size_t_mul (size_t_add index 1) sizeofT <= bufferSize));
  buffer ← buffer_write buffer index (gather data local j);
  Some (buffer, size_t_add index 1, tr ++ [EvGather index local (Some j)]).

(** [MessageGatherer<Data,GatherScatter,FORWARD,VariableSize>::operator()];
    [interfacePair->second->first[i]] is read as
    [interfacePair->second.first[i]]. *)
Definition MessageGatherer_VariableSize
    (FORWARD : bool) (gather : Data → Z → Z → IndexedType)
    (rank_of : Z → Z) (interface : Interface) (data : Data)
    (buffer : list IndexedType) (bufferSize : Z)
  : option (list IndexedType * list event) :=
  let rank := rank_of MPI_COMM_WORLD in
  s ← foldlM
        (λ s interfacePair,
           let size :=
             to_int (Z.of_nat (length (if FORWARD then interfacePair.2.1
                                       else interfacePair.2.2))) in
           let proc := interfacePair.1 in
           foldlM
             (λ s local,
                foldlM (gather_VariableSize_at gather data bufferSize local)
                       s (seqZ 0 (getSize data local)))
             s
             (take (Z.to_nat size)
                   (if FORWARD then interfacePair.2.1
                    else interfacePair.2.2)))
        (buffer, 0, []) (interfaces interface);
  Some (s.1.1, s.2).

Definition MessageGatherer
    (FORWARD : bool) (gs : GatherScatter Data) (rank_of : Z → Z)
    (interface : Interface) (data : Data)
    (buffer : list IndexedType) (bufferSize : Z)
  : option (list IndexedType * list event) :=
  match gs with
  | GS_SizeOne gather _ =>
      MessageGatherer_SizeOne FORWARD gather rank_of interface data
                              buffer bufferSize
  | GS_VariableSize gather _ =>
      MessageGatherer_VariableSize FORWARD gather rank_of interface data
                                   buffer bufferSize
  end.

(** [MessageScatterer<Data,GatherScatter,FORWARD,SizeOne>::operator()];
    the pointer [buffer] of the source is [buffer + base] here. *)
Definition MessageScatterer_SizeOne
    (FORWARD : bool) (scatter : Data → IndexedType → Z → Data)
    (interface : Interface) (data : Data)
    (buffer : list IndexedType) (base : Z) (proc : Z)
  : option (Data * list event) :=
  infoPair ← StdMap.find proc (interfaces interface);
  let info := if FORWARD then infoPair.2 else infoPair.1 in
  s ← foldlM
        (λ (s : Data * Z * list event) local,
           let '(data, i, tr) := s in
           v ← buffer_read buffer (base + i);
           Some (scatter data v local, i + 1,
                 tr ++ [EvScatter proc (base + i) local None]))
        (data, 0, []) info;
  Some (s.1.1, s.2).

Definition scatter_state : Type :=
  Data * list IndexedType * Z * list event.

(** [++] on an [int]: past [INT_MAX] the increment overflows, which is
    undefined. *)
Definition int_incr (i : Z) : option Z :=
  if bool_decide (i < int_max) then Some (i + 1) else None.

(** The loop over [j] of the variable-size scatterer; its bound is read
    from the container at every turn, and every turn takes the value at
    [buffer[index]] and increments the [int index].  The pointer [buffer]
    of the source is [buffer + base] here, [rest] are the values from
    [buffer[index]] on.  [j] stays below the bound, so that [j++] cannot
    overflow. *)
Fixpoint scatter_block
    (scatter : Data → IndexedType → Z → Z → Data) (proc local base : Z)
    (data : Data) (j : Z) (rest : list IndexedType) (index : Z)
    (tr : list event) {struct rest} : option scatter_state :=
  if bool_decide (j < getSize data local) then
    match rest with
    | [] => None
    | v :: rest =>
        match int_incr index with
        | Some index' =>
            scatter_block scatter proc local base (scatter data v local j)
                          (j + 1) rest index'
                          (tr ++ [EvScatter proc (base + index) local
                                            (Some j)])
        | None => None
        end
    end
  else Some (data, rest, index, tr).

(** [MessageScatterer<Data,GatherScatter,FORWARD,VariableSize>::operator()].
    The loop over the list counts with [int i] up to [info.size()]: a list
    longer than [INT_MAX] makes [i++] overflow. *)
Definition MessageScatterer_VariableSize
    (FORWARD : bool) (scatter : Data → IndexedType → Z → Z → Data)
    (interface : Interface) (data : Data)
    (buffer : list IndexedType) (base : Z) (proc : Z)
  : option (Data * list event) :=
  infoPair ← StdMap.find proc (interfaces interface);
  let info := if FORWARD then infoPair.2 else infoPair.1 in
  if bool_decide (Z.of_nat (length info) <= int_max) then
    s ← foldlM
          (λ (s : scatter_state) local,
             let '(data, rest, index, tr) := s in
             scatter_block scatter proc local base data 0 rest index tr)
          (data, drop (Z.to_nat base) buffer, 0, []) info;
    Some (s.1.1.1, s.2)
  else None.

Definition MessageScatterer
    (FORWARD : bool) (gs : GatherScatter Data)
    (interface : Interface) (data : Data)
    (buffer : list IndexedType) (base : Z) (proc : Z)
  : option (Data * list event) :=
  match gs with
  | GS_SizeOne _ scatter =>
      MessageScatterer_SizeOne FORWARD scatter interface data
                               buffer base proc
  | GS_VariableSize _ scatter =>
      MessageScatterer_VariableSize FORWARD scatter interface data
                                    buffer base proc
  end.

(** *** sendRecv *)

(** The [int count] of [MPI_Irecv] and [MPI_Issend], to which the
    [size_t size_] of the plan is converted at the call; a negative count
    is erroneous. *)
Definition MPI_count (size : Z) : option Z :=
  let count := to_int size in
  if bool_decide (0 <= count) then Some count else None.

(** The values [MPI_Issend] reads: [bytes] bytes from [buffer + start]. *)
Definition slab (buffer : list IndexedType) (start bytes : Z)
  : option (list IndexedType) :=
  if bool_decide (0 <= start ∧ 0 <= bytes ∧
                  start + bytes / sizeofT <= Z.of_nat (length buffer))
  then Some (take (Z.to_nat (bytes / sizeofT))
                  (drop (Z.to_nat start) buffer))
  else None.

(** What a completed [MPI_Irecv] of [bytes] bytes at [buffer + start] has
    written when the message carries [message]. *)
Definition deliver (buffer : list IndexedType) (start bytes : Z)
    (message : list IndexedType) : option (list IndexedType) :=
  let written := take (Z.to_nat (bytes / sizeofT)) message in
  if bool_decide (0 <= start ∧
                  start + Z.of_nat (length written)
                  <= Z.of_nat (length buffer))
  then Some (list_inserts (Z.to_nat start) written buffer)
  else None.

(** One turn of the loop that posts the receives. *)
Definition post_receive
    (FORWARD : bool) (comm recvBufferSize : Z)
    (s : list Z * list event)
    (info : Z * (MessageInformation * MessageInformation))
  : option (list Z * list event) :=
  let '(processMap, tr) := s in
  let i := length processMap in
  let m := if FORWARD then info.2.2 else info.2.1 in
  _ ← assert
        (bool_decide
           (size_t_add (size_t_mul (start_ m) sizeofT) (size_ m)
            <= recvBufferSize));
  count ← MPI_count (size_ m);
  Some (processMap ++ [info.1],
        tr ++ [EvIrecv (start_ m) count MPI_BYTE info.1 commTag_ comm i]).

(** One turn of the loop that posts the sends. *)
Definition post_send
    (FORWARD : bool) (comm : Z) (sendBuffer : list IndexedType)
    (sendBufferSize : Z) (s : nat * list event)
    (info : Z * (MessageInformation * MessageInformation))
  : option (nat * list event) :=
  let '(i, tr) := s in
  let m := if FORWARD then info.2.1 else info.2.2 in
  _ ← assert
        (bool_decide
           (size_t_add (size_t_mul (start_ m) sizeofT) (size_ m)
            <= sendBufferSize));
  count ← MPI_count (size_ m);
  message ← slab sendBuffer (start_ m) count;
  Some (S i,
        tr ++ [EvIssend (start_ m) count MPI_BYTE info.1 commTag_
                        comm i message]).

Record recv_state : Type := {
  rs_store : store Data;
  rs_recvBuffer : list IndexedType;
  rs_success : Z;
  rs_finished : option nat;
  rs_trace : list event
}.

(** One turn of the loop that waits for any receive and scatters it; the
    receive that completed was posted for [int(size_)] bytes. *)
Definition receive_one
    (FORWARD : bool) (gs : GatherScatter Data)
    (messageInformation : InformationMap) (interface : Interface)
    (env : mpi_env) (dest : ref) (processMap : list Z)
    (recvBufferSize rank : Z) (s : recv_state) (k : nat)
  : option recv_state :=
  let '(finished, error) := waitany env k in
  let tr := rs_trace s ++ [EvWaitany (length processMap) finished error] in
  i ← finished;
  proc ← processMap !! i;
  if bool_decide (error = MPI_SUCCESS) then
    infoIter ← StdMap.find proc messageInformation;
    let info := if FORWARD then infoIter.2 else infoIter.1 in
    _ ← assert
          (bool_decide
             (size_t_add (start_ info) (size_ info) <= recvBufferSize));
    count ← MPI_count (size_ info);
    recvBuffer ← deliver (rs_recvBuffer s) (start_ info) count
                         (payload env proc);
    r ← MessageScatterer FORWARD gs interface (rs_store s dest)
                         recvBuffer (start_ info) proc;
    Some {| rs_store := <[dest := r.1]> (rs_store s);
            rs_recvBuffer := recvBuffer;
            rs_success := rs_success s;
            rs_finished := finished;
            rs_trace := tr ++ r.2 |}
  else
    Some {| rs_store := rs_store s;
            rs_recvBuffer := rs_recvBuffer s;
            rs_success := 0;
            rs_finished := finished;
            rs_trace := tr ++ [EvCerr rank false (Some proc)] |}.

(** One turn of the loop that waits for the sends. *)
Definition wait_one
    (env : mpi_env) (rank : Z) (processMap : list Z)
    (finished : option nat) (s : Z * list event) (i : nat)
  : Z * list event :=
  let '(success, tr) := s in
  let code := wait env i in
  if bool_decide (code = MPI_SUCCESS)
  then (success, tr ++ [EvWait i code])
  else (0, tr ++ [EvWait i code;
                  EvCerr rank true (finished ≫= (processMap !!.))]).

Record result : Type := {
  res_comm : BufferedCommunicator;
  res_store : store Data;
  res_trace : list event;
  res_success : Z;
  res_globalSuccess : Z;
  (** [CommunicationError] was thrown *)
  res_thrown : bool
}.

(** [sendRecv<GatherScatter,FORWARD>(source, dest)] *)
Definition sendRecv
    (FORWARD : bool) (gs : GatherScatter Data) (c : BufferedCommunicator)
    (env : mpi_env) (st : store Data) (source dest : ref) : option result :=
  let rank := comm_rank env MPI_COMM_WORLD in
  let lrank := comm_rank env MPI_COMM_WORLD in
  let '(sendBuffer, sendBufferSize, recvBuffer, recvBufferSize) :=
    if FORWARD
    then ((buffers_ c).1, (bufferSize_ c).1,
          (buffers_ c).2, (bufferSize_ c).2)
    else ((buffers_ c).2, (bufferSize_ c).2,
          (buffers_ c).1, (bufferSize_ c).1) in
  interface ← interface_ c;
  g ← MessageGatherer FORWARD gs (comm_rank env) interface (st source)
                      sendBuffer sendBufferSize;
  let sendBuffer := g.1 in
  r ← foldlM (post_receive FORWARD (communicator interface) recvBufferSize)
             ([], []) (messageInformation_ c);
  let processMap := r.1 in
  p ← foldlM (post_send FORWARD (communicator interface) sendBuffer
                        sendBufferSize)
             (0%nat, []) (messageInformation_ c);
  w ← foldlM (receive_one FORWARD gs (messageInformation_ c) interface env
                          dest processMap recvBufferSize rank)
             {| rs_store := st; rs_recvBuffer := recvBuffer;
                rs_success := 1; rs_finished := None; rs_trace := [] |}
             (seq 0 (length (messageInformation_ c)));
  let '(success, tr_wait) :=
    fold_left (wait_one env rank processMap (rs_finished w))
              (seq 0 (length (messageInformation_ c)))
              (rs_success w, []) in
  let globalSuccess := allreduce_min env success in
  let thrown := bool_decide (globalSuccess = 0) in
  Some {| res_comm :=
            {| messageInformation_ := messageInformation_ c;
               buffers_ := if FORWARD then (sendBuffer, rs_recvBuffer w)
                           else (rs_recvBuffer w, sendBuffer);
               bufferSize_ := bufferSize_ c;
               interface_ := interface_ c |};
          res_store := rs_store w;
          res_trace :=
            g.2 ++ r.2 ++ p.2 ++ rs_trace w ++ tr_wait
            ++ [EvAllreduce_MIN success (communicator interface)
                                globalSuccess]
            ++ (if thrown then [EvThrow_CommunicationError] else []);
          res_success := success;
          res_globalSuccess := globalSuccess;
          res_thrown := thrown |}.

(** [forward<GatherScatter>(data)] *)
Definition forward_same (gs : GatherScatter Data)
    (c : BufferedCommunicator) (env : mpi_env) (st : store Data) (data : ref)
  : option result :=
  sendRecv true gs c env st data data.

(** [backward<GatherScatter>(data)] *)
Definition backward_same (gs : GatherScatter Data)
    (c : BufferedCommunicator) (env : mpi_env) (st : store Data) (data : ref)
  : option result :=
  sendRecv false gs c env st data data.

(** [forward<GatherScatter>(source, dest)] *)
Definition forward (gs : GatherScatter Data)
    (c : BufferedCommunicator) (env : mpi_env) (st : store Data)
    (source dest : ref) : option result :=
  sendRecv true gs c env st source dest.

(** [backward<GatherScatter>(source, dest)] *)
Definition backward (gs : GatherScatter Data)
    (c : BufferedCommunicator) (env : mpi_env) (st : store Data)
    (source dest : ref) : option result :=
  sendRecv false gs c env st dest source.

End Buffered.

(** ** DatatypeCommunicator *)

(** The error code of [MPI_Waitall] when a request failed (the value is the
    implementation's; it differs from [MPI_SUCCESS]). *)
Definition MPI_ERR_IN_STATUS : Z := 17.

Inductive request_kind : Type := Recv_init | Ssend_init.

(** A persistent request, as [MPI_Recv_init] and [MPI_Ssend_init] set it
    up; the address is that of element 0 of a container. *)
Record MPI_Request : Type := {
  req_kind : request_kind;
  req_address : ref;
  req_count : Z;
  req_type : MPI_Datatype;
  req_peer : Z;
  req_tag : Z;
  req_comm : Z
}.

Module Datatype.

(** [enum { commTag_ = 234 }] *)
Definition commTag_ : Z := 234.

Abbreviation MessageTypeMap := (StdMap.t (MPI_Datatype * MPI_Datatype)).

(** A pointer to an array made by [new[]]: null, the array it points to,
    or the value it keeps once [delete[]] has released the array. *)
Inductive pointer (T : Type) : Type :=
| Null
| Array (elements : T)
| Deleted.

Arguments Null {T}.
Arguments Array {T} elements.
Arguments Deleted {T}.

(** [delete[] p].  Nothing happens at the null pointer; an array is
    released, and the pointer variable keeps its value, which no longer
    points to an array; to delete through such a value a second time is
    undefined. *)
Definition delete {T : Type} (p : pointer T) : option (pointer T) :=
  match p with
  | Null => Some Null
  | Array _ => Some Deleted
  | Deleted => None
  end.

(** The [n] elements at the front of the array [p] that a call of MPI
    reads and writes; no element is touched when [n] is 0. *)
Definition elements_of {T : Type} (n : nat) (p : pointer (list T))
  : option (list T) :=
  match p with
  | Array a => if bool_decide (n <= length a)%nat then Some a else None
  | Null | Deleted => if bool_decide (n = 0)%nat then Some [] else None
  end.

Record DatatypeCommunicator : Type := {
  (** [remoteIndices_->communicator()]; [None] is the null pointer *)
  remoteIndices_ : option Z;
  messageTypes : MessageTypeMap;
  (** [requests_[0]], [requests_[1]] *)
  requests_ : pointer (list MPI_Request) * pointer (list MPI_Request);
  created_ : bool
}.

(** [DatatypeCommunicator()] *)
Definition DatatypeCommunicator_new : DatatypeCommunicator :=
  {| remoteIndices_ := None;
     messageTypes := StdMap.empty;
     requests_ := (Null, Null);
     created_ := false |}.

(** [free()].  Both arrays of requests are deleted, every committed type
    is freed and the map is cleared; neither [created_] nor the two
    pointers are reset. *)
Definition free (c : DatatypeCommunicator) : option DatatypeCommunicator :=
  if created_ c then
    requests_0 ← delete (requests_ c).1;
    requests_1 ← delete (requests_ c).2;
    Some {| remoteIndices_ := remoteIndices_ c;
            messageTypes := StdMap.empty;
            requests_ := (requests_0, requests_1);
            created_ := created_ c |}
  else Some c.

(** [createRequests<V,createForward>(sendData, receiveData)]: the receive
    requests first, then the send requests. *)
Definition createRequests (createForward : bool) (rank_of : Z → Z)
    (sendData receiveData : ref) (c : DatatypeCommunicator)
  : option DatatypeCommunicator :=
  let rank := rank_of MPI_COMM_WORLD in
  comm ← remoteIndices_ c;
  let receives :=
    (λ process : Z * (MPI_Datatype * MPI_Datatype),
       {| req_kind := Recv_init;
          req_address := receiveData;
          req_count := 1;
          req_type := if createForward then process.2.2 else process.2.1;
          req_peer := process.1;
          req_tag := commTag_;
          req_comm := comm |}) <$> messageTypes c in
  let sends :=
    (λ process : Z * (MPI_Datatype * MPI_Datatype),
       {| req_kind := Ssend_init;
          req_address := sendData;
          req_count := 1;
          req_type := if createForward then process.2.1 else process.2.2;
          req_peer := process.1;
          req_tag := commTag_;
          req_comm := comm |}) <$> messageTypes c in
  Some {| remoteIndices_ := remoteIndices_ c;
          messageTypes := messageTypes c;
          requests_ := if createForward
                       then ((requests_ c).1, Array (receives ++ sends))
                       else (Array (receives ++ sends), (requests_ c).2);
          created_ := created_ c |}.

(** [build(remoteIndices, sourceFlags, sendData, destFlags, receiveData)].
    The two calls of [createDataTypes] go through [InterfaceBuilder], which
    is not part of the sources; the map of committed types they leave is
    the argument [types]. *)
Definition build (rank_of : Z → Z) (c : DatatypeCommunicator)
    (remoteIndices_communicator : Z) (types : MessageTypeMap)
    (sendData receiveData : ref) : option DatatypeCommunicator :=
  let c := {| remoteIndices_ := Some remoteIndices_communicator;
              messageTypes := messageTypes c;
              requests_ := requests_ c;
              created_ := created_ c |} in
  c ← free c;
  let c := {| remoteIndices_ := remoteIndices_ c;
              messageTypes := types;
              requests_ := requests_ c;
              created_ := created_ c |} in
  c ← createRequests true rank_of sendData receiveData c;
  c ← createRequests false rank_of receiveData sendData c;
  Some {| remoteIndices_ := remoteIndices_ c;
          messageTypes := messageTypes c;
          requests_ := requests_ c;
          created_ := true |}.

Inductive event : Type :=
| EvStartall (requests : list MPI_Request)
| EvWaitall (requests : list MPI_Request) (code : Z)
| EvCerr (rank : Z) (sending : bool) (failed : list (Z * Z))
| EvAllreduce_MIN (success comm globalSuccess : Z)
| EvThrow_CommunicationError.

Record mpi_env : Type := {
  comm_rank : Z → Z;
  (** what [MPI_Waitall] on the send requests returns, and the
      ([MPI_ERROR], [MPI_SOURCE]) of the statuses it fills *)
  waitall_send : Z * list (Z * Z);
  (** the same for the receive requests *)
  waitall_receive : Z * list (Z * Z);
  allreduce_min : Z → Z
}.

Record result : Type := {
  res_trace : list event;
  res_success : Z;
  res_globalSuccess : Z;
  res_thrown : bool
}.

(** The statuses that carry an error, for the message on [std::cerr]. *)
Definition failed (statuses : list (Z * Z)) : list (Z * Z) :=
  filter (λ st, st.1 ≠ MPI_SUCCESS) statuses.

(** [sendRecv(requests)] *)
Definition sendRecv (c : DatatypeCommunicator) (env : mpi_env)
    (requests : pointer (list MPI_Request)) : option result :=
  let noMessages := length (messageTypes c) in
  requests ← elements_of (2 * noMessages) requests;
  comm ← remoteIndices_ c;
  let receives := take noMessages requests in
  let sends := take noMessages (drop noMessages requests) in
  let send := (waitall_send env).1 in
  let receive := (waitall_receive env).1 in
  let tr := [EvStartall receives; EvStartall sends;
             EvWaitall sends send; EvWaitall receives receive] in
  let '(success, tr) :=
    if bool_decide (send = MPI_ERR_IN_STATUS)
    then (0, tr ++ [EvCerr (comm_rank env comm) true
                           (failed (waitall_send env).2)])
    else (1, tr) in
  let '(success, tr) :=
    if bool_decide (receive = MPI_ERR_IN_STATUS)
    then (0, tr ++ [EvCerr (comm_rank env comm) false
                           (failed (waitall_receive env).2)])
    else (success, tr) in
  let globalSuccess := allreduce_min env success in
  let thrown := bool_decide (globalSuccess = 0) in
  Some {| res_trace :=
            tr ++ [EvAllreduce_MIN success comm globalSuccess]
            ++ (if thrown then [EvThrow_CommunicationError] else []);
          res_success := success;
          res_globalSuccess := globalSuccess;
          res_thrown := thrown |}.

(** [forward()] *)
Definition forward (c : DatatypeCommunicator) (env : mpi_env)
  : option result :=
  sendRecv c env (requests_ c).2.

(** [backward()] *)
Definition backward (c : DatatypeCommunicator) (env : mpi_env)
  : option result :=
  sendRecv c env (requests_ c).1.

End Datatype.

(** The communicators [free()] leaves as they are or releases once: one
    that was never built, and one whose two arrays of requests exist. *)
Definition can_free (c : Datatype.DatatypeCommunicator) : Prop :=
  Datatype.created_ c = false
  ∨ ∃ requests_0 requests_1,
      Datatype.requests_ c
      = (Datatype.Array requests_0, Datatype.Array requests_1).

(** ** The policies of communicator.hh *)

(** [CommPolicy<V>], the default: one value at each index.  The container
    is a vector; [size] is [sizeof(V::value_type)]. *)
Definition CommPolicy_default (T : Type) (size : positive)
  : CommPolicy (list T) :=
  {| IndexedType := T;
     Flag := SizeOne;
     getSize := λ _ _, 1;
     sizeof_IndexedType := size |}.

(** [CommPolicy<VariableBlockVector<FieldVector<K,n>,A> >]: the block at an
    index is a list of [B = FieldVector<K,n>], [getSize] is its length. *)
Definition CommPolicy_VariableBlockVector (B : Type) (size : positive)
  : CommPolicy (list (list B)) :=
  {| IndexedType := B;
     Flag := VariableSize;
     getSize := λ v index, to_int (Z.of_nat (length (v !!! Z.to_nat index)));
     sizeof_IndexedType := size |}.

(** [CopyGatherScatter<T>]: [gather] returns [vec[i]], [scatter] assigns
    [vec[i] = v].  Outside the vector [operator[]] is undefined; there the
    model reads the default value and writes nothing, and the theorems about
    this policy keep the positions inside the vector. *)
Definition CopyGatherScatter (T : Type) `{Inhabited T} (size : positive)
  : @GatherScatter (list T) (CommPolicy_default T size) :=
  @GS_SizeOne (list T) (CommPolicy_default T size)
    (λ vec i, vec !!! Z.to_nat i)
    (λ vec v i, <[Z.to_nat i := v]> vec).

(** ** The plan in the words of the specification *)

Definition Zsum (l : list Z) : Z := foldr Z.add 0 l.

(** One call of the user's policy: a position and, for [VariableSize], a
    subindex. *)
Abbreviation slot := (Z * option Z)%type.

Section PlanSpec.

Context {Data : Type} `{policy : CommPolicy Data}.
Variable indeterminate : IndexedType.

(** The number of primitive elements of a slab: the list length for
    [SizeOne], the sum of the counts over the listed positions for
    [VariableSize]. *)
Definition elements (data : Data) (info : InterfaceInformation) : Z :=
  match Flag with
  | SizeOne => Z.of_nat (length info)
  | VariableSize => Zsum (map (getSize data) info)
  end.

(** The counts of a representative container fit the machine types. *)
Definition counts_in_range
    (data : Data) (lists : list InterfaceInformation) : Prop :=
  (Flag = VariableSize →
   Forall (Forall (λ local, 0 <= getSize data local)) lists) ∧
  Zsum (map (elements data) lists) <= int_max ∧
  Zsum (map (elements data) lists) * sizeofT < size_t_modulus.

Definition send_lists (interface : Interface) : list InterfaceInformation :=
  map (λ e, e.2.1) (interfaces interface).

Definition recv_lists (interface : Interface) : list InterfaceInformation :=
  map (λ e, e.2.2) (interfaces interface).

(** Per peer in iteration order: offsets are the running sums of the
    element counts of the preceding peers, byte sizes are the element
    count times the element size, and the buffers hold the totals. *)
Definition is_plan (source dest : Data) (interface : Interface)
    (c : BufferedCommunicator) : Prop :=
  let noSend := map (elements source) (send_lists interface) in
  let noRecv := map (elements dest) (recv_lists interface) in
  StdMap.keys (messageInformation_ c) = StdMap.keys (interfaces interface) ∧
  (∀ (k : nat) e, interfaces interface !! k = Some e →
     messageInformation_ c !! k =
       Some (e.1,
             ({| start_ := Zsum (take k noSend);
                 size_ := elements source e.2.1 * sizeofT |},
              {| start_ := Zsum (take k noRecv);
                 size_ := elements dest e.2.2 * sizeofT |}))) ∧
  bufferSize_ c = (Zsum noSend * sizeofT, Zsum noRecv * sizeofT) ∧
  length (buffers_ c).1 = Z.to_nat (Zsum noSend) ∧
  length (buffers_ c).2 = Z.to_nat (Zsum noRecv) ∧
  interface_ c = Some interface.

(** The policy calls for a list of positions, in the order the spec gives
    them: one per position for [SizeOne]; for [VariableSize] one per
    (position, subindex) with the subindices ascending within a position. *)
Definition slots (data : Data) (info : InterfaceInformation) : list slot :=
  match Flag with
  | SizeOne => (λ local, (local, None)) <$> info
  | VariableSize =>
      info ≫= λ local, (λ j, (local, Some j)) <$> seqZ 0 (getSize data local)
  end.

Definition all_slots (data : Data) (lists : list InterfaceInformation)
  : list slot :=
  lists ≫= slots data.

(** The lists a direction gathers from and scatters over. *)
Definition gather_lists (FORWARD : bool) (interface : Interface)
  : list InterfaceInformation :=
  if FORWARD then send_lists interface else recv_lists interface.

Definition scatter_lists (FORWARD : bool) (interface : Interface)
  : list InterfaceInformation :=
  if FORWARD then recv_lists interface else send_lists interface.

Definition gathered (gs : GatherScatter Data) (data : Data) (s : slot)
  : IndexedType :=
  match gs with
  | GS_SizeOne gather _ => gather data s.1
  | GS_VariableSize gather _ => gather data s.1 (default 0 s.2)
  end.

Definition scatter_slot (gs : GatherScatter Data) (data : Data)
    (s : slot) (v : IndexedType) : Data :=
  match gs with
  | GS_SizeOne _ scatter => scatter data v s.1
  | GS_VariableSize _ scatter => scatter data v s.1 (default 0 s.2)
  end.

(** The values [vs] scattered over the slots [sl], in order. *)
Definition scattered (gs : GatherScatter Data) (data : Data)
    (sl : list slot) (vs : list IndexedType) : Data :=
  fold_left (λ d sv, scatter_slot gs d sv.1 sv.2) (zip sl vs) data.

(** Buffer slots [first], [first + 1], ... are written from the slots. *)
Definition gather_events (first : Z) (sl : list slot) : list event :=
  imap (λ k s, EvGather (first + Z.of_nat k) s.1 s.2) sl.

(** Buffer slots [first], [first + 1], ... are read for the slots. *)
Definition scatter_events (proc first : Z) (sl : list slot) : list event :=
  imap (λ k s, EvScatter proc (first + Z.of_nat k) s.1 s.2) sl.

(** Scattering leaves the number of elements at every index as it is. *)
Definition scatter_keeps_layout (gs : GatherScatter Data) : Prop :=
  match gs with
  | GS_SizeOne _ _ => True
  | GS_VariableSize _ scatter =>
      ∀ d v i j k, getSize (scatter d v i j) k = getSize d k
  end.

(** The lists are short enough for the [int] loop counters. *)
Definition lists_in_range (lists : list InterfaceInformation) : Prop :=
  Forall (λ info : InterfaceInformation, Z.of_nat (length info) <= int_max)
         lists.

(** Two containers have the same number of elements at the listed
    positions (it matters for [VariableSize] only). *)
Definition same_layout (data rep : Data) (lists : list InterfaceInformation)
  : Prop :=
  Flag = VariableSize →
  Forall (Forall (λ local, getSize data local = getSize rep local)) lists.

End PlanSpec.

(** ** One exchange in the words of the specification *)

Section ExchangeSpec.

Context {Data : Type} `{policy : CommPolicy Data}.

(** [c] holds the plan [build] makes for [interface] from the
    representatives [source] and [dest]. *)
Definition built (c : BufferedCommunicator) (interface : Interface)
    (source dest : Data) : Prop :=
  StdMap.wf (interfaces interface) ∧
  counts_in_range source (send_lists interface) ∧
  counts_in_range dest (recv_lists interface) ∧
  lists_in_range (send_lists interface) ∧
  lists_in_range (recv_lists interface) ∧
  is_plan source dest interface c.

(** [MPI_Waitany] over [n] requests returns the index of one of them. *)
Definition valid_completions (env : mpi_env) (n : nat) : Prop :=
  ∀ k, (k < n)%nat → ∃ i, (waitany env k).1 = Some i ∧ (i < n)%nat.

(** What an exchange from the container at [from] into the container at
    [to] needs: the plan, a policy of the shape of the flag that keeps the
    layout, and containers laid out like the representatives. *)
Definition exchange_ok (FORWARD : bool) (gs : GatherScatter Data)
    (c : BufferedCommunicator) (interface : Interface) (source dest : Data)
    (env : mpi_env) (st : store Data) (from to : ref) : Prop :=
  built c interface source dest ∧
  flag_of gs = Flag ∧
  scatter_keeps_layout gs ∧
  same_layout (st from) (if FORWARD then source else dest)
              (gather_lists FORWARD interface) ∧
  same_layout (st to) (if FORWARD then dest else source)
              (scatter_lists FORWARD interface) ∧
  valid_completions env (length (interfaces interface)).

(** The byte size of every slab of the plan is within [INT_MAX], the
    range of the [int count] of [MPI_Irecv] and [MPI_Issend]. *)
Definition counts_fit_int (c : BufferedCommunicator) : Prop :=
  Forall (λ info : Z * (MessageInformation * MessageInformation),
            size_ info.2.1 <= int_max ∧ size_ info.2.2 <= int_max)
         (messageInformation_ c).

(** Step 2: one non-blocking byte-typed receive per peer. *)
Definition irecv_events (FORWARD : bool) (comm : Z) (mi : InformationMap)
  : list event :=
  imap (λ i info,
          let m := if FORWARD then info.2.2 else info.2.1 in
          EvIrecv (start_ m) (size_ m) MPI_BYTE info.1 commTag_ comm i)
       mi.

(** Step 3: one non-blocking synchronous byte-typed send per peer, of the
    peer's slab of the send buffer. *)
Definition issend_events (FORWARD : bool) (comm : Z)
    (sendBuffer : list IndexedType) (mi : InformationMap) : list event :=
  imap (λ i info,
          let m := if FORWARD then info.2.1 else info.2.2 in
          EvIssend (start_ m) (size_ m) MPI_BYTE info.1 commTag_ comm i
                   (take (Z.to_nat (size_ m / sizeofT))
                         (drop (Z.to_nat (start_ m)) sendBuffer)))
       mi.

(** Step 4, for the k-th completion: the peer's slab is scattered over the
    peer's receive list, or the error is reported. *)
Definition receive_block (FORWARD : bool) (interface : Interface)
    (mi : InformationMap) (data : Data) (env : mpi_env) (rank : Z)
    (k : nat) : list event :=
  EvWaitany (length mi) (waitany env k).1 (waitany env k).2 ::
  match (waitany env k).1 ≫= (interfaces interface !!.),
        (waitany env k).1 ≫= (mi !!.) with
  | Some e, Some info =>
      if bool_decide ((waitany env k).2 = MPI_SUCCESS)
      then scatter_events e.1
             (start_ (if FORWARD then info.2.2 else info.2.1))
             (slots data (if FORWARD then e.2.2 else e.2.1))
      else [EvCerr rank false (Some e.1)]
  | _, _ => []
  end.

(** Step 5: all sends are awaited. *)
Definition wait_events (env : mpi_env) (rank : Z) (blame : option Z)
    (n : nat) : list event :=
  seq 0 n ≫= λ i,
    EvWait i (wait env i) ::
    if bool_decide (wait env i = MPI_SUCCESS) then []
    else [EvCerr rank true blame].

(** The errors the exchange tests for: the status of an [MPI_Waitany]
    carries an error, or an [MPI_Wait] on a send returns one. *)
Definition error_noticed (env : mpi_env) (n : nat) : Prop :=
  (∃ k, (k < n)%nat ∧ (waitany env k).2 ≠ MPI_SUCCESS) ∨
  (∃ i, (i < n)%nat ∧ wait env i ≠ MPI_SUCCESS).

(** The diagnostic output on [std::cerr] with the rank blanked. *)
Definition erase_rank (e : event) : event :=
  match e with
  | EvCerr _ sending proc => EvCerr 0 sending proc
  | _ => e
  end.

(** Two results agree on everything but the rank printed in diagnostics:
    the buffers, the containers, the flags, and the trace, which holds the
    posted messages. *)
Definition same_but_rank (r1 r2 : result) : Prop :=
  res_comm r1 = res_comm r2 ∧
  res_store r1 = res_store r2 ∧
  res_success r1 = res_success r2 ∧
  res_globalSuccess r1 = res_globalSuccess r2 ∧
  res_thrown r1 = res_thrown r2 ∧
  erase_rank <$> res_trace r1 = erase_rank <$> res_trace r2.

End ExchangeSpec.

(** ** The peer group *)


Section Group.

Context {Data : Type} `{policy : CommPolicy Data}.
Variable NDEBUG DUNE_ISTL_WITH_CHECKING : bool.

(** One process of the group in a buffered exchange: its communicator, the
    interface and the representatives the plan was built from, what MPI
    answers it, and its containers. *)
Record process : Type := {
  pr_c : BufferedCommunicator;
  pr_interface : Interface;
  pr_source : Data;
  pr_dest : Data;
  pr_env : mpi_env;
  pr_st : store Data;
  pr_from : ref;
  pr_to : ref
}.





(** One process of the group in a datatype exchange. *)
Record dprocess : Type := {
  dp_rank_of : Z → Z;
  dp_c0 : Datatype.DatatypeCommunicator;
  dp_comm : Z;
  dp_types : Datatype.MessageTypeMap;
  dp_sendData : ref;
  dp_receiveData : ref;
  dp_env : Datatype.mpi_env
}.







End Group.

(** ** The round trip with the Copy policy *)

Section Transport.

Context {Data : Type} `{policy : CommPolicy Data}.

(** The values of the message a run posted for the peer [q]. *)
Fixpoint sent_to (q : Z) (tr : list event) : option (list IndexedType) :=
  match tr with
  | [] => None
  | EvIssend _ _ _ dest _ _ _ message :: tr =>
      if dest =? q then Some message else sent_to q tr
  | _ :: tr => sent_to q tr
  end.

(** Every request completes once: the [n] calls of [MPI_Waitany] return the
    [n] indices, in some order. *)
Definition complete_once (env : mpi_env) (n : nat) : Prop :=
  (λ k, (waitany env k).1) <$> seq 0 n ≡ₚ Some <$> seq 0 n.

End Transport.

Section RoundTrip.

Context {V : Type} `{Inhabited V}.
Variable size : positive.
Variable NDEBUG DUNE_ISTL_WITH_CHECKING : bool.

(** The references of the source and of the destination container. *)
Variable src dst : ref.

Local Abbreviation Copy := (CopyGatherScatter V size).
Local Abbreviation communicator_of :=
  (@BufferedCommunicator (list V) (CommPolicy_default V size)).
Local Abbreviation env_of := (@mpi_env (list V) (CommPolicy_default V size)).
Local Abbreviation result_of := (@result (list V) (CommPolicy_default V size)).

(** One process of the group in a round trip: its plan, its interface, its
    containers, and what MPI answers it in the forward and in the backward
    exchange.  The rank of a process is its index in the group. *)
Record trip : Type := {
  t_c : communicator_of;
  t_interface : Interface;
  t_st : store (list V);
  t_forward_env : env_of;
  t_backward_env : env_of
}.

(** [forward<Copy>(source, dest)] *)
Definition forward_run (t : trip) : option result_of :=
  @forward (list V) (CommPolicy_default V size)
           NDEBUG DUNE_ISTL_WITH_CHECKING Copy
           (t_c t) (t_forward_env t) (t_st t) src dst.

(** [forward<Copy>(source, dest)] and then [backward<Copy>(source, dest)] *)
Definition round_trip (t : trip) : option result_of :=
  r ← forward_run t;
  @backward (list V) (CommPolicy_default V size)
            NDEBUG DUNE_ISTL_WITH_CHECKING Copy
            (res_comm r) (t_backward_env t) (res_store r) src dst.

(** The plans are the ones [build] makes from the interfaces, the byte
    sizes of their slabs are within [INT_MAX], and the listed positions lie
    inside the containers. *)
Definition trip_ok (t : trip) : Prop :=
  @built (list V) (CommPolicy_default V size)
         (t_c t) (t_interface t) (t_st t src) (t_st t dst) ∧
  @counts_fit_int (list V) (CommPolicy_default V size) (t_c t) ∧
  Forall (Forall (λ x, 0 <= x < Z.of_nat (length (t_st t src))))
         (send_lists (t_interface t)) ∧
  Forall (Forall (λ x, 0 <= x < Z.of_nat (length (t_st t dst))))
         (recv_lists (t_interface t)).

(** The interfaces are symmetric: a process that lists a peer is listed by
    the peer, and the send list of either has the length of the receive
    list of the other. *)
Definition symmetric (group : list trip) : Prop :=
  ∀ (p : nat) P q lists,
    group !! p = Some P →
    StdMap.find q (interfaces (t_interface P)) = Some lists →
    0 <= q ∧
    ∃ Q lists',
      group !! Z.to_nat q = Some Q ∧
      StdMap.find (Z.of_nat p) (interfaces (t_interface Q)) = Some lists' ∧
      length lists.1 = length lists'.2 ∧ length lists.2 = length lists'.1.

(** No error is found by the tests of the exchange, and every request
    completes once. *)
Definition clean (env : env_of) (n : nat) : Prop :=
  ¬ error_noticed env n ∧ complete_once env n.

(** The transport delivers to a process what its peer posted for it, in
    both exchanges. *)
Definition transport (group : list trip) : Prop :=
  ∀ (p q : nat) P Q,
    group !! p = Some P → group !! q = Some Q →
    payload (t_forward_env Q) (Z.of_nat p)
    = default [] (r ← forward_run P; sent_to (Z.of_nat q) (res_trace r))
    ∧ payload (t_backward_env Q) (Z.of_nat p)
      = default [] (r ← round_trip P; sent_to (Z.of_nat q) (res_trace r)).

(** The setting of the round trip. *)
Definition round_trip_setting (group : list trip) : Prop :=
  src ≠ dst ∧
  Forall trip_ok group ∧
  symmetric group ∧
  transport group ∧
  Forall (λ t, clean (t_forward_env t) (length (interfaces (t_interface t)))
               ∧ clean (t_backward_env t)
                       (length (interfaces (t_interface t)))) group.

(** What the specification promises of the round trip: it ends; the source
    has its old value at every exchanged position; a position that is in no
    send and in no receive list has its old value in both containers. *)
Definition round_trip_restores (group : list trip) : Prop :=
  ∀ t, t ∈ group →
    ∃ r, round_trip t = Some r ∧
      (∀ x, x ∈ concat (send_lists (t_interface t)) →
            res_store r src !! Z.to_nat x = t_st t src !! Z.to_nat x) ∧
      (∀ x, 0 <= x →
            x ∉ concat (send_lists (t_interface t)) →
            x ∉ concat (recv_lists (t_interface t)) →
            res_store r src !! Z.to_nat x = t_st t src !! Z.to_nat x ∧
            res_store r dst !! Z.to_nat x = t_st t dst !! Z.to_nat x).

(** No position is named twice by the receive lists of a process: no value
    received in the forward exchange is overwritten by another one. *)
Definition receive_once (t : trip) : Prop :=
  NoDup (concat (recv_lists (t_interface t))).

End RoundTrip.

Arguments t_c {V size} t.
Arguments t_interface {V size} t.
Arguments t_st {V size} t.
Arguments t_forward_env {V size} t.
Arguments t_backward_env {V size} t.

(** ** Processes that share one index *)

Module Shared.

(** [n] processes hold one value each, at position 0, for the same global
    index; source and destination predicate are the same, so every process
    sends its value to all its peers and receives theirs at position 0. *)

Definition size : positive := 8%positive.

Local Abbreviation policy := (CommPolicy_default Z size).
Local Abbreviation Copy := (CopyGatherScatter Z size).

Definition src : ref := 0%nat.
Definition dst : ref := 1%nat.

Definition peers (n p : nat) : list Z :=
  filter (λ q, q ≠ Z.of_nat p) (seqZ 0 (Z.of_nat n)).

Definition interface_of (n p : nat) : Interface :=
  {| interfaces := (λ q, (q, ([0], [0]))) <$> peers n p;
     communicator := 0 |}.

Definition plan_of (n p : nat) : @BufferedCommunicator (list Z) policy :=
  @build_SizeOne (list Z) policy 0 (λ _, Z.of_nat p)
                 (@BufferedCommunicator_new (list Z) policy)
                 (interface_of n p).

(** The source of process [p] holds [10 (p + 1)], the destination 0. *)
Definition store_of (p : nat) : store (list Z) :=
  λ r, if decide (r = src) then [10 * (Z.of_nat p + 1)] else [0].

(** Receives complete in the order they were posted, without errors. *)
Definition env_with (p : nat) (payload : Z → list Z)
  : @mpi_env (list Z) policy :=
  @Build_mpi_env (list Z) policy
    (λ _, Z.of_nat p) (λ k, (Some k, MPI_SUCCESS)) payload
    (λ _, MPI_SUCCESS) (λ flag, flag).

(** What process [p] posts for [q] in the forward exchange. *)
Definition forward_message (n p : nat) (q : Z) : list Z :=
  default []
    (r ← @forward (list Z) policy false true Copy (plan_of n p)
                  (env_with p (λ _, [])) (store_of p) src dst;
     @sent_to (list Z) policy q (res_trace r)).

Definition forward_env (n p : nat) : @mpi_env (list Z) policy :=
  env_with p (λ q, forward_message n (Z.to_nat q) (Z.of_nat p)).

Definition after_forward (n p : nat) : option (@result (list Z) policy) :=
  @forward (list Z) policy false true Copy (plan_of n p) (forward_env n p)
           (store_of p) src dst.

(** What process [p] posts for [q] in the backward exchange. *)
Definition backward_message (n p : nat) (q : Z) : list Z :=
  default []
    (r ← after_forward n p;
     r' ← @backward (list Z) policy false true Copy (res_comm r)
                    (env_with p (λ _, [])) (res_store r) src dst;
     @sent_to (list Z) policy q (res_trace r')).

Definition backward_env (n p : nat) : @mpi_env (list Z) policy :=
  env_with p (λ q, backward_message n (Z.to_nat q) (Z.of_nat p)).

Definition trip_of (n p : nat) : trip size :=
  {| t_c := plan_of n p;
     t_interface := interface_of n p;
     t_st := store_of p;
     t_forward_env := forward_env n p;
     t_backward_env := backward_env n p |}.

Definition group (n : nat) : list (trip size) := trip_of n <$> seq 0 n.

End Shared.

(** ** One process with two peers *)

Module Sample.

(** A process with the peers 1 and 3: it sends the positions 0 and 2 to
    peer 1 and receives at position 1 from it; it sends position 1 to
    peer 3 and receives at the positions 0 and 2 from it. *)

Definition size : positive := 8%positive.

Local Abbreviation policy := (CommPolicy_default Z size).
Local Abbreviation Copy := (CopyGatherScatter Z size).

Definition interface : Interface :=
  {| interfaces := [(1, ([0; 2], [1])); (3, ([1], [0; 2]))];
     communicator := 0 |}.

Definition source : list Z := [10; 20; 30].
Definition dest : list Z := [0; 0; 0].

Definition plan : @BufferedCommunicator (list Z) policy :=
  @build (list Z) policy 0 (@BufferedCommunicator_new (list Z) policy)
         source dest interface.

Definition st : store (list Z) :=
  λ r, if decide (r = 0%nat) then source else dest.

(** The receive from peer 3 completes first; the second completion
    reports [error]; the reduction returns [reduced]. *)
Definition env (rank error : Z) (reduced : Z → Z)
  : @mpi_env (list Z) policy :=
  @Build_mpi_env (list Z) policy
    (λ _, rank)
    (λ k, (Some (1 - k)%nat, if decide (k = 1%nat) then error
                             else MPI_SUCCESS))
    (λ p, if p =? 1 then [7] else [8; 9])
    (λ _, MPI_SUCCESS)
    reduced.

Definition member (rank error : Z) : @process (list Z) policy :=
  {| pr_c := plan; pr_interface := interface;
     pr_source := source; pr_dest := dest;
     pr_env := env rank error (λ _, 0);
     pr_st := st; pr_from := 0%nat; pr_to := 1%nat |}.

(** Two processes; the second one sees a failed receive. *)
Definition group : list (@process (list Z) policy) :=
  [member 0 MPI_SUCCESS; member 1 1].

Definition dmember (code : Z) : dprocess :=
  {| dp_rank_of := λ _, 0;
     dp_c0 := Datatype.DatatypeCommunicator_new;
     dp_comm := 0;
     dp_types := [(1, (MPI_Type_hindexed 1, MPI_Type_hindexed 2))];
     dp_sendData := 0%nat;
     dp_receiveData := 1%nat;
     dp_env := {| Datatype.comm_rank := λ _, 0;
                  Datatype.waitall_send := (MPI_SUCCESS, [(0, 1)]);
                  Datatype.waitall_receive := (code, [(code, 1)]);
                  Datatype.allreduce_min := λ _, 0 |} |}.




(** A vector of blocks of sizes 2, 1 and 3 with the same interface, and a
    policy that copies the entries of the blocks. *)
Local Abbreviation block_policy := (CommPolicy_VariableBlockVector Z size).



End Sample.

(** ** The graph creators of graphcreator.hh *)

Module GraphCreator.

(** The loop of [PropertiesGraphCreator<M,overlapping>::create] and of
    [PropertiesGraphCreator<M,nonoverlapping>::create] over
    [pinfo.indexSet()]:
    [excluded[index->local()] = of.contains(index->local().attribute())].
    An entry of the index set is its local index with its attribute;
    [contains] is [OverlapFlags::contains].  The graphs the creators build
    from [excluded] are classes of graph.hh, which is not part of the
    sources. *)
Definition mark_excluded {Attribute : Type} (contains : Attribute → bool)
    (indexSet : list (Z * Attribute)) (excluded : list bool)
  : option (list bool) :=
  foldlM (λ excluded index,
            buffer_write excluded index.1 (contains index.2))
         excluded indexSet.

End GraphCreator.

(** ** The information the datatype communicator records per peer *)

Module DatatypeInformation.

(** [information_[proc] = info] on the [std::map]: the value of an
    existing key is replaced. *)
Fixpoint assign {T} (k : Z) (v : T) (m : StdMap.t T) : StdMap.t T :=
  match m with
  | [] => [(k, v)]
  | (k', v') :: m' =>
      if k <? k' then (k, v) :: m
      else if k =? k' then (k, v) :: m'
      else (k', v') :: assign k v m'
  end.

(** [IndexedTypeInformation]; the arrays are null ([None]) until [build]
    allocates them. *)
Record IndexedTypeInformation : Type := {
  length_ : option (list Z);
  displ : option (list Z);
  elements : Z;
  size_of : Z
}.

(** The value-initialised entry [information_[proc]] creates. *)
Definition IndexedTypeInformation_new : IndexedTypeInformation :=
  {| length_ := None; displ := None; elements := 0; size_of := 0 |}.

Section Information.

Context {Data : Type} `{policy : CommPolicy Data}.

(** [CommPolicy<V>::getAddress], the address as a number. *)
Variable getAddress : Data → Z → Z.

(** What freshly allocated [int] and [MPI_Aint] arrays hold. *)
Variable indeterminate : Z.

Variable NDEBUG : bool.

(** [IndexedTypeInformation::build(i)]; [new int[i]] of a negative [i]
    throws. *)
Definition IndexedTypeInformation_build (i : Z)
    (info : IndexedTypeInformation) : option IndexedTypeInformation :=
  if bool_decide (0 <= i) then
    Some {| length_ := Some (replicate (Z.to_nat i) indeterminate);
            displ := Some (replicate (Z.to_nat i) indeterminate);
            elements := elements info;
            size_of := i |}
  else None.

(** [MPIDatatypeInformation::reserve(proc, size)] *)
Definition reserve (proc size : Z)
    (information_ : StdMap.t IndexedTypeInformation)
  : option (StdMap.t IndexedTypeInformation) :=
  let info := default IndexedTypeInformation_new
                      (StdMap.find proc information_) in
  info ← IndexedTypeInformation_build size info;
  Some (assign proc info information_).

(** [MPIDatatypeInformation::add(proc, local)] *)
Definition add (data_ : Data) (proc local : Z)
    (information_ : StdMap.t IndexedTypeInformation)
  : option (StdMap.t IndexedTypeInformation) :=
  let info := default IndexedTypeInformation_new
                      (StdMap.find proc information_) in
  _ ← assert NDEBUG (bool_decide (elements info < size_of info));
  displ' ← displ info
           ≫= λ d, buffer_write d (elements info) (getAddress data_ local);
  length' ← length_ info
            ≫= λ l, buffer_write l (elements info) (getSize data_ local);
  Some (assign proc
               {| length_ := Some length';
                  displ := Some displ';
                  elements := int_add (elements info) 1;
                  size_of := size_of info |}
               information_).

(** The loop of [createDataTypes] that shifts the displacements:
    [for(i = 0; i < info.elements; i++) info.displ[i] -= base]. *)
Definition shift_displacements (base : Z) (info : IndexedTypeInformation)
  : option IndexedTypeInformation :=
  d ← displ info;
  if bool_decide (elements info <= Z.of_nat (length d)) then
    Some {| length_ := length_ info;
            displ := Some (((λ x, x - base)
                              <$> take (Z.to_nat (elements info)) d)
                           ++ drop (Z.to_nat (elements info)) d);
            elements := elements info;
            size_of := size_of info |}
  else None.

End Information.

End DatatypeInformation.

(** * Properties *)

Section MachineFacts.

Lemma to_size_t_small z : 0 <= z < size_t_modulus → to_size_t z = z.
Proof. intros Hz. unfold to_size_t. by apply Z.mod_small. Qed.

Lemma to_int_small z : int_min <= z <= int_max → to_int z = z.
Proof.
  unfold to_int, int_min, int_max. intros Hz.
  rewrite Z.mod_small; lia.
Qed.

Lemma to_size_t_range z : 0 <= to_size_t z < size_t_modulus.
Proof. unfold to_size_t, size_t_modulus. apply Z.mod_pos_bound. lia. Qed.

Lemma map_lookup {A B} (f : A → B) (l : list A) (i : nat) :
  map f l !! i = f <$> l !! i.
Proof. apply list_lookup_fmap. Qed.

Lemma Zsum_app l1 l2 : Zsum (l1 ++ l2) = Zsum l1 + Zsum l2.
Proof. induction l1 as [|x l1 IH]; simpl; [done|]. rewrite IH. lia. Qed.

Lemma Zsum_nonneg l : Forall (λ x, 0 <= x) l → 0 <= Zsum l.
Proof. induction 1; simpl; lia. Qed.

Lemma Zsum_map_nonneg {A} (f : A → Z) l :
  Forall (λ x, 0 <= f x) l → 0 <= Zsum (map f l).
Proof. induction 1; simpl; lia. Qed.

Lemma Zsum_elem_le l x : Forall (λ x, 0 <= x) l → x ∈ l → x <= Zsum l.
Proof.
  induction 1 as [|y l Hy Hl IH]; intros Hx; [by apply elem_of_nil in Hx|].
  pose proof (Zsum_nonneg l Hl). simpl.
  apply elem_of_cons in Hx as [->|Hx]; [lia|]. specialize (IH Hx). lia.
Qed.

Lemma Zsum_take_le l (k : nat) :
  Forall (λ x, 0 <= x) l → 0 <= Zsum (take k l) <= Zsum l.
Proof.
  intros Hl. rewrite <- (take_drop k l) at 3. rewrite Zsum_app.
  pose proof (Zsum_nonneg (take k l) (Forall_take _ _ _ Hl)).
  pose proof (Zsum_nonneg (drop k l) (Forall_drop _ _ _ Hl)). lia.
Qed.

Lemma Zsum_take_S l (k : nat) x :
  l !! k = Some x → Zsum (take (S k) l) = Zsum (take k l) + x.
Proof.
  intros Hk. rewrite (take_S_r _ _ _ Hk), Zsum_app. simpl. lia.
Qed.

End MachineFacts.

Section StdMapFacts.

Context {T : Type}.
Implicit Types m : StdMap.t T.

Lemma insert_last k v m :
  Forall (λ k', k' < k) (StdMap.keys m) → StdMap.insert k v m = m ++ [(k, v)].
Proof.
  induction m as [|[k' v'] m IH]; simpl; [done|].
  intros Hm. inversion_clear Hm as [|? ? Hk Hm'].
  simpl in Hk. destruct (Z.ltb_spec k k'); [lia|].
  destruct (Z.eqb_spec k k'); [lia|].
  by rewrite IH.
Qed.

Lemma find_lookup m (i : nat) k v :
  StdMap.wf m → m !! i = Some (k, v) → StdMap.find k m = Some v.
Proof.
  unfold StdMap.wf, StdMap.keys. revert i.
  induction m as [|[k' v'] m IH]; intros i Hwf Hi; [done|].
  simpl in Hwf. apply StronglySorted_inv in Hwf as [Hwf Hlt].
  destruct i as [|i]; simpl in *.
  - injection Hi as -> ->. by rewrite Z.eqb_refl.
  - destruct (Z.eqb_spec k k') as [->|Hne]; [|by eapply IH].
    exfalso. rewrite Forall_forall in Hlt.
    assert (k' ∈ map fst m) as Hin.
    { apply list_elem_of_fmap. exists (k', v).
      split; [done|]. by eapply list_elem_of_lookup_2. }
    specialize (Hlt _ Hin). lia.
Qed.

Lemma find_Some_lookup m k v :
  StdMap.find k m = Some v → ∃ i : nat, m !! i = Some (k, v).
Proof.
  induction m as [|[k' v'] m IH]; simpl; [done|].
  destruct (Z.eqb_spec k k') as [->|Hne].
  - intros [= ->]. by exists 0%nat.
  - intros Hf. destruct (IH Hf) as [i Hi]. by exists (S i).
Qed.

End StdMapFacts.

Section BuildFacts.

Context {Data : Type} `{policy : CommPolicy Data}.
Variable indeterminate : IndexedType.

Local Abbreviation entry :=
  (Z * (InterfaceInformation * InterfaceInformation))%type.

Lemma sizeofT_pos : 0 < sizeofT.
Proof. unfold sizeofT. lia. Qed.

Lemma sorted_middle (l1 : list Z) k l2 :
  StronglySorted Z.lt (l1 ++ k :: l2) → Forall (λ k', k' < k) l1.
Proof.
  induction l1 as [|a l1 IH]; simpl; intros Hs; [constructor|].
  apply StronglySorted_inv in Hs as [Hs Ha].
  constructor; [|by apply IH].
  apply Forall_app in Ha as [_ Ha]. by inversion Ha.
Qed.

(** The map [build] leaves behind, from the running offsets. *)
Fixpoint plan_from (nS nR : InterfaceInformation → Z) (b0 b1 : Z)
    (l : list entry) : InformationMap :=
  match l with
  | [] => []
  | e :: l =>
      (e.1, ({| start_ := b0; size_ := nS e.2.1 * sizeofT |},
             {| start_ := b1; size_ := nR e.2.2 * sizeofT |}))
      :: plan_from nS nR (b0 + nS e.2.1) (b1 + nR e.2.2) l
  end.

Lemma plan_from_keys nS nR b0 b1 l :
  StdMap.keys (plan_from nS nR b0 b1 l) = StdMap.keys l.
Proof.
  revert b0 b1. induction l as [|e l IH]; intros; simpl; [done|].
  f_equal. apply IH.
Qed.

Lemma plan_from_lookup nS nR l : ∀ b0 b1 (k : nat) e,
  l !! k = Some e →
  plan_from nS nR b0 b1 l !! k =
    Some (e.1,
          ({| start_ := b0 + Zsum (take k (map (λ e, nS e.2.1) l));
              size_ := nS e.2.1 * sizeofT |},
           {| start_ := b1 + Zsum (take k (map (λ e, nR e.2.2) l));
              size_ := nR e.2.2 * sizeofT |})).
Proof.
  induction l as [|e' l IH]; intros b0 b1 k e Hk; [done|].
  destruct k as [|k]; simpl in *.
  - injection Hk as ->. by rewrite !Z.add_0_r.
  - rewrite (IH _ _ _ _ Hk). do 4 f_equal; lia.
Qed.

Lemma build_fold nS nR l : ∀ b0 b1 (mi : InformationMap),
  StronglySorted Z.lt (StdMap.keys mi ++ StdMap.keys l) →
  Forall (λ e : entry, 0 <= nS e.2.1 ∧ 0 <= nR e.2.2) l →
  0 <= b0 → 0 <= b1 →
  (b0 + Zsum (map (λ e, nS e.2.1) l)) * sizeofT < size_t_modulus →
  (b1 + Zsum (map (λ e, nR e.2.2) l)) * sizeofT < size_t_modulus →
  fold_left (build_step nS nR) l ((b0, b1), mi) =
    ((b0 + Zsum (map (λ e, nS e.2.1) l),
      b1 + Zsum (map (λ e, nR e.2.2) l)),
     mi ++ plan_from nS nR b0 b1 l).
Proof.
  pose proof sizeofT_pos as Hpos.
  induction l as [|e l IH]; intros b0 b1 mi Hs Hnn Hb0 Hb1 H0 H1; simpl.
  { by rewrite !Z.add_0_r, app_nil_r. }
  inversion_clear Hnn as [|? ? [HnS HnR] Hnn'].
  simpl in H0, H1.
  assert (0 <= Zsum (map (λ e, nS e.2.1) l)) as HS.
  { apply Zsum_map_nonneg. clear -Hnn'.
    induction Hnn' as [|? ? [? ?]]; by constructor. }
  assert (0 <= Zsum (map (λ e, nR e.2.2) l)) as HR.
  { apply Zsum_map_nonneg. clear -Hnn'.
    induction Hnn' as [|? ? [? ?]]; by constructor. }
  unfold size_t_add, size_t_mul.
  rewrite !to_size_t_small by (unfold size_t_modulus in *; nia).
  rewrite insert_last by (by eapply sorted_middle).
  rewrite IH; try lia.
  - rewrite <- app_assoc, !Z.add_assoc. done.
  - unfold StdMap.keys in *. rewrite map_app. simpl.
    rewrite <- app_assoc. exact Hs.
  - exact Hnn'.
Qed.

Lemma build_with_plan nS nR (c : BufferedCommunicator) interface :
  let l := interfaces interface in
  StdMap.wf l →
  messageInformation_ c = StdMap.empty →
  Forall (λ e : entry, 0 <= nS e.2.1 ∧ 0 <= nR e.2.2) l →
  Zsum (map (λ e, nS e.2.1) l) * sizeofT < size_t_modulus →
  Zsum (map (λ e, nR e.2.2) l) * sizeofT < size_t_modulus →
  build_with indeterminate nS nR c interface =
    {| messageInformation_ := plan_from nS nR 0 0 l;
       buffers_ :=
         (replicate (Z.to_nat (Zsum (map (λ e, nS e.2.1) l))) indeterminate,
          replicate (Z.to_nat (Zsum (map (λ e, nR e.2.2) l))) indeterminate);
       bufferSize_ := (Zsum (map (λ e, nS e.2.1) l) * sizeofT,
                       Zsum (map (λ e, nR e.2.2) l) * sizeofT);
       interface_ := Some interface |}.
Proof.
  intros l Hwf Hmi Hnn H0 H1. pose proof sizeofT_pos as Hpos.
  assert (0 <= Zsum (map (λ e : entry, nS e.2.1) l)) as HS.
  { apply Zsum_map_nonneg. clear -Hnn.
    induction Hnn as [|? ? [? ?]]; by constructor. }
  assert (0 <= Zsum (map (λ e : entry, nR e.2.2) l)) as HR.
  { apply Zsum_map_nonneg. clear -Hnn.
    induction Hnn as [|? ? [? ?]]; by constructor. }
  unfold build_with. fold l. rewrite Hmi.
  rewrite build_fold; [|done|done|lia|lia|by rewrite Z.add_0_l..].
  rewrite !Z.add_0_l. simpl.
  unfold size_t_mul, new_buffer.
  rewrite !to_size_t_small
    by (split; [apply Z.mul_nonneg_nonneg; lia | assumption]).
  by rewrite !Z.div_mul by lia.
Qed.

Lemma fold_int_add (f : Z → Z) info : ∀ acc,
  Forall (λ x, 0 <= f x) info →
  0 <= acc → acc + Zsum (map f info) <= int_max →
  fold_left (λ entries local, int_add entries (f local)) info acc
  = acc + Zsum (map f info).
Proof.
  induction info as [|x info IH]; intros acc Hnn Hacc Hmax; simpl.
  { lia. }
  inversion_clear Hnn as [|? ? Hx Hnn'].
  pose proof (Zsum_map_nonneg f info Hnn') as Hs.
  simpl in Hmax. unfold int_add.
  rewrite to_int_small.
  - rewrite IH; [lia|done|lia|lia].
  - unfold int_min, int_max in *. lia.
Qed.

Lemma elements_nonneg data info :
  (Flag = VariableSize → Forall (λ local, 0 <= getSize data local) info) →
  0 <= elements data info.
Proof.
  unfold elements. destruct Flag; intros Hnn; [lia|].
  by apply Zsum_map_nonneg, Hnn.
Qed.

Lemma MessageSizeCalculator_elements data info :
  (Flag = VariableSize → Forall (λ local, 0 <= getSize data local) info) →
  elements data info <= int_max →
  MessageSizeCalculator data info = elements data info.
Proof.
  unfold MessageSizeCalculator, elements,
    MessageSizeCalculator_SizeOne, MessageSizeCalculator_SizeOne_info,
    MessageSizeCalculator_VariableSize.
  destruct Flag; intros Hnn Hmax.
  - apply to_int_small. unfold int_min. lia.
  - rewrite fold_int_add; [lia|by apply Hnn|lia|lia].
Qed.

End BuildFacts.

Section BuildTheorems.

Context {Data : Type} `{policy : CommPolicy Data}.
Variable indeterminate : IndexedType.

Local Abbreviation entry :=
  (Z * (InterfaceInformation * InterfaceInformation))%type.

Lemma build_with_ext nS nR nS' nR' (c : BufferedCommunicator) interface :
  Forall (λ e : entry, nS e.2.1 = nS' e.2.1 ∧ nR e.2.2 = nR' e.2.2)
         (interfaces interface) →
  build_with indeterminate nS nR c interface
  = build_with indeterminate nS' nR' c interface.
Proof.
  intros Hext. unfold build_with.
  assert (∀ acc, fold_left (build_step nS nR) (interfaces interface) acc
                 = fold_left (build_step nS' nR') (interfaces interface) acc)
    as ->; [|done].
  induction Hext as [|e l [HS HR] _ IH]; intros acc; simpl; [done|].
  rewrite <- IH. f_equal. unfold build_step.
  destruct acc as [[? ?] ?]. by rewrite HS, HR.
Qed.

Lemma counts_in_range_each data lists :
  counts_in_range data lists →
  Forall (λ info, MessageSizeCalculator data info = elements data info
                  ∧ 0 <= elements data info) lists.
Proof.
  intros (Hnn & Hmax & _).
  assert (Forall (λ info, Flag = VariableSize →
                          Forall (λ local, 0 <= getSize data local) info)
                 lists) as Hnn'.
  { destruct Flag eqn:HF.
    - apply Forall_forall. by intros.
    - specialize (Hnn eq_refl). clear -Hnn.
      induction Hnn; constructor; auto. }
  clear Hnn. revert Hmax.
  induction Hnn' as [|info lists Hinfo Hrest IH]; intros Hmax;
    [constructor|].
  simpl in Hmax.
  pose proof (elements_nonneg data info Hinfo) as H0.
  assert (0 <= Zsum (map (elements data) lists)) as H1.
  { apply Zsum_map_nonneg. clear -Hrest.
    induction Hrest; constructor; auto using elements_nonneg. }
  constructor; [|apply IH; lia].
  split; [|done]. apply MessageSizeCalculator_elements; [done|lia].
Qed.

Lemma plan_is_plan source dest interface (c : BufferedCommunicator) :
  let l := interfaces interface in
  c = {| messageInformation_ :=
           plan_from (elements source) (elements dest) 0 0 l;
         buffers_ :=
           (replicate
              (Z.to_nat (Zsum (map (λ e, elements source e.2.1) l)))
              indeterminate,
            replicate
              (Z.to_nat (Zsum (map (λ e, elements dest e.2.2) l)))
              indeterminate);
         bufferSize_ :=
           (Zsum (map (λ e, elements source e.2.1) l) * sizeofT,
            Zsum (map (λ e, elements dest e.2.2) l) * sizeofT);
         interface_ := Some interface |} →
  is_plan source dest interface c.
Proof.
  intros l ->. unfold is_plan, send_lists, recv_lists. simpl.
  rewrite !map_map. fold l.
  split_and!; try done.
  - apply plan_from_keys.
  - intros k e Hk. rewrite (plan_from_lookup _ _ _ _ _ _ _ Hk).
    by rewrite !Z.add_0_l.
  - by rewrite length_replicate.
  - by rewrite length_replicate.
Qed.

Lemma build_is_plan (c : BufferedCommunicator) source dest interface :
  StdMap.wf (interfaces interface) →
  messageInformation_ c = StdMap.empty →
  counts_in_range source (send_lists interface) →
  counts_in_range dest (recv_lists interface) →
  build indeterminate c source dest interface =
    let l := interfaces interface in
    {| messageInformation_ :=
         plan_from (elements source) (elements dest) 0 0 l;
       buffers_ :=
         (replicate
            (Z.to_nat (Zsum (map (λ e, elements source e.2.1) l)))
            indeterminate,
          replicate
            (Z.to_nat (Zsum (map (λ e, elements dest e.2.2) l)))
            indeterminate);
       bufferSize_ :=
         (Zsum (map (λ e, elements source e.2.1) l) * sizeofT,
          Zsum (map (λ e, elements dest e.2.2) l) * sizeofT);
       interface_ := Some interface |}.
Proof.
  intros Hwf Hmi HS HR.
  pose proof (counts_in_range_each _ _ HS) as HS'.
  pose proof (counts_in_range_each _ _ HR) as HR'.
  destruct HS as (_ & _ & HSm). destruct HR as (_ & _ & HRm).
  unfold send_lists, recv_lists in *.
  rewrite Forall_fmap in HS'. rewrite Forall_fmap in HR'.
  rewrite map_map in HSm. rewrite map_map in HRm.
  unfold build.
  rewrite (build_with_ext _ _ (elements source) (elements dest)).
  - apply build_with_plan; try done.
    clear -HS' HR'. induction (interfaces interface) as [|e l IH];
      [constructor|].
    inversion_clear HS' as [|? ? [_ ?] ?].
    inversion_clear HR' as [|? ? [_ ?] ?].
    constructor; [done|by apply IH].
  - clear -HS' HR'. induction (interfaces interface) as [|e l IH];
      [constructor|].
    inversion_clear HS' as [|? ? [? _] ?].
    inversion_clear HR' as [|? ? [? _] ?].
    constructor; [done|by apply IH].
Qed.

Lemma SizeOne_calculator data info :
  Flag = SizeOne →
  MessageSizeCalculator data info = MessageSizeCalculator_SizeOne_info info.
Proof. unfold MessageSizeCalculator. by intros ->. Qed.

Lemma build_SizeOne_build rank_of (c : BufferedCommunicator) source dest
    interface :
  Flag = SizeOne →
  build indeterminate c source dest interface
  = build_SizeOne indeterminate rank_of c interface.
Proof.
  intros HF. unfold build, build_SizeOne. apply build_with_ext.
  apply Forall_forall. intros e _. by rewrite !SizeOne_calculator.
Qed.

(** C9: for a [SizeOne] container the two overloads of the message-size
    calculator agree, both return [info.size()] (as the [int] they
    return) whatever the container is, and the representative containers
    given to [build] do not affect the plan: it is the one
    [build(interface)] computes. *)
Theorem MessageSizeCalculator_SizeOne_ignores_data
    (data data' : Data) (info : InterfaceInformation) (rank_of : Z → Z)
    (c : BufferedCommunicator) (source dest : Data)
    (interface : Interface) :
  Flag = SizeOne →
  MessageSizeCalculator_SizeOne data info
    = MessageSizeCalculator_SizeOne_info info
  ∧ MessageSizeCalculator_SizeOne_info info
    = to_int (Z.of_nat (length info))
  ∧ MessageSizeCalculator data info = MessageSizeCalculator data' info
  ∧ build indeterminate c source dest interface
    = build_SizeOne indeterminate rank_of c interface.
Proof.
  intros HF. split_and!; try done.
  - by rewrite !SizeOne_calculator.
  - by apply build_SizeOne_build.
Qed.


End BuildTheorems.

(** ** Gathering *)

Section FoldFacts.

Context {A B C : Type}.

Lemma foldlM_app (f : A → B → option A) l1 l2 a :
  foldlM f a (l1 ++ l2) = foldlM f a l1 ≫= λ a', foldlM f a' l2.
Proof.
  revert a. induction l1 as [|b l1 IH]; intros a; simpl; [done|].
  destruct (f a b) as [a'|]; simpl; [apply IH|done].
Qed.

Lemma foldlM_fmap (f : A → B → option A) (g : C → B) l a :
  foldlM f a (g <$> l) = foldlM (λ a x, f a (g x)) a l.
Proof.
  revert a. induction l as [|c l IH]; intros a; simpl; [done|].
  destruct (f a (g c)) as [a'|]; simpl; [apply IH|done].
Qed.

Lemma foldlM_bind (f : A → B → option A) (g : C → list B) l a :
  foldlM f a (l ≫= g) = foldlM (λ a x, foldlM f a (g x)) a l.
Proof.
  revert a. induction l as [|c l IH]; intros a; [done|].
  change ((c :: l) ≫= g) with (g c ++ (l ≫= g)).
  rewrite foldlM_app. simpl.
  destruct (foldlM f a (g c)) as [a'|]; simpl; [apply IH|done].
Qed.

Lemma foldlM_ext (f g : A → B → option A) l a :
  (∀ a b, b ∈ l → f a b = g a b) → foldlM f a l = foldlM g a l.
Proof.
  revert a. induction l as [|b l IH]; intros a Hfg; simpl; [done|].
  rewrite Hfg by constructor.
  destruct (g a b) as [a'|]; simpl; [|done].
  apply IH. intros ? ? ?. apply Hfg. by constructor.
Qed.

End FoldFacts.

Section GatherFacts.

Context {Data : Type} `{policy : CommPolicy Data}.
Variable NDEBUG DUNE_ISTL_WITH_CHECKING : bool.

Local Abbreviation check := (checking_assert NDEBUG DUNE_ISTL_WITH_CHECKING).

(** The common body of the two gather loops. *)
Definition write_slot (bufferSize : Z) (v : slot → IndexedType)
    (s : gather_state) (sl : slot) : option gather_state :=
  let '(buffer, index, tr) := s in
  _ ← check (bool_decide
               (size_t_mul (size_t_add index 1) sizeofT <= bufferSize));
  buffer ← buffer_write buffer index (v sl);
  Some (buffer, size_t_add index 1, tr ++ [EvGather index sl.1 sl.2]).

Lemma assert_true : assert NDEBUG true = Some ().
Proof. unfold assert. by rewrite orb_true_r. Qed.

Lemma check_true : check true = Some ().
Proof. unfold checking_assert. destruct DUNE_ISTL_WITH_CHECKING; [apply assert_true|done]. Qed.

Lemma gather_events_snoc first sl s :
  gather_events first (sl ++ [s])
  = gather_events first sl ++ [EvGather (first + Z.of_nat (length sl)) s.1 s.2].
Proof.
  unfold gather_events. rewrite imap_app. simpl.
  by rewrite Nat.add_0_r.
Qed.

Lemma gather_events_cons first s sl :
  gather_events first (s :: sl)
  = EvGather first s.1 s.2 :: gather_events (first + 1) sl.
Proof.
  unfold gather_events. rewrite imap_cons. rewrite Z.add_0_r. f_equal.
  apply imap_ext. intros k x _. simpl. f_equal. lia.
Qed.

Lemma write_slots bufferSize v sl : ∀ buffer index tr,
  0 <= index →
  (index + Z.of_nat (length sl)) * sizeofT <= bufferSize →
  bufferSize < size_t_modulus →
  index + Z.of_nat (length sl) <= Z.of_nat (length buffer) →
  foldlM (write_slot bufferSize v) (buffer, index, tr) sl
  = Some (list_inserts (Z.to_nat index) (v <$> sl) buffer,
          index + Z.of_nat (length sl),
          tr ++ gather_events index sl).
Proof.
  pose proof (@sizeofT_pos Data policy) as Hpos.
  induction sl as [|s sl IH]; intros buffer index tr H0 Hsz Hmod Hlen.
  { simpl. by rewrite Z.add_0_r, app_nil_r. }
  simpl length in *. simpl foldlM. unfold write_slot at 1.
  assert (to_size_t (index + 1) = index + 1) as Hi.
  { apply to_size_t_small. unfold size_t_modulus in *. nia. }
  unfold size_t_add, size_t_mul. rewrite Hi.
  rewrite to_size_t_small by (unfold size_t_modulus in *; nia).
  rewrite bool_decide_eq_true_2 by nia.
  rewrite check_true. simpl.
  unfold buffer_write. rewrite bool_decide_eq_true_2 by lia. simpl.
  rewrite IH; [|lia|lia|lia|rewrite length_insert; lia].
  rewrite gather_events_cons, <- app_assoc. simpl.
  replace (Z.to_nat (index + 1)) with (S (Z.to_nat index)) by lia.
  rewrite <- list_insert_inserts_lt by lia.
  do 3 f_equal. lia.
Qed.

Lemma bind_fmap_list {X Y Z'} (f : X → Y) (g : Y → list Z') (l : list X) :
  (f <$> l) ≫= g = l ≫= (λ x, g (f x)).
Proof.
  induction l as [|x l IH]; [done|].
  change (g (f x) ++ ((f <$> l) ≫= g) = g (f x) ++ (l ≫= λ x, g (f x))).
  by rewrite IH.
Qed.

Lemma all_slots_gather_lists FORWARD interface (data : Data) :
  all_slots data (gather_lists FORWARD interface)
  = interfaces interface ≫=
      λ e, slots data (if FORWARD then e.2.1 else e.2.2).
Proof.
  unfold all_slots, gather_lists, send_lists, recv_lists.
  destruct FORWARD; apply bind_fmap_list.
Qed.

Lemma MessageGatherer_slots FORWARD (gs : GatherScatter Data) rank_of
    interface data buffer bufferSize :
  flag_of gs = Flag →
  lists_in_range (gather_lists FORWARD interface) →
  MessageGatherer NDEBUG DUNE_ISTL_WITH_CHECKING FORWARD gs rank_of
                  interface data buffer bufferSize
  = s ← foldlM (write_slot bufferSize (gathered gs data)) (buffer, 0, [])
               (all_slots data (gather_lists FORWARD interface));
    Some (s.1.1, s.2).
Proof.
  intros Hflag Hrange. rewrite all_slots_gather_lists, foldlM_bind.
  assert (Forall (λ e : Z * (InterfaceInformation * InterfaceInformation),
                    Z.of_nat (length (if FORWARD then e.2.1 else e.2.2))
                    <= int_max) (interfaces interface)) as Hr.
  { unfold lists_in_range, gather_lists, send_lists, recv_lists in Hrange.
    destruct FORWARD; by rewrite Forall_fmap in Hrange. }
  rewrite Forall_forall in Hr.
  destruct gs as [gather scatter|gather scatter]; simpl in Hflag;
    unfold MessageGatherer, MessageGatherer_SizeOne,
      MessageGatherer_VariableSize, slots; rewrite <- Hflag;
    f_equal; apply foldlM_ext; intros a e He.
  - by rewrite foldlM_fmap.
  - specialize (Hr e He). simpl in Hr.
    rewrite to_int_small by (unfold int_min; lia).
    rewrite Nat2Z.id, firstn_all, foldlM_bind.
    apply foldlM_ext. intros a' local _. by rewrite foldlM_fmap.
Qed.

Lemma MessageGatherer_result FORWARD (gs : GatherScatter Data) rank_of
    interface data buffer bufferSize :
  flag_of gs = Flag →
  lists_in_range (gather_lists FORWARD interface) →
  let sl := all_slots data (gather_lists FORWARD interface) in
  Z.of_nat (length sl) * sizeofT <= bufferSize →
  bufferSize < size_t_modulus →
  (length sl <= length buffer)%nat →
  MessageGatherer NDEBUG DUNE_ISTL_WITH_CHECKING FORWARD gs rank_of
                  interface data buffer bufferSize
  = Some (list_inserts 0 (gathered gs data <$> sl) buffer,
          gather_events 0 sl).
Proof.
  intros Hflag Hrange sl Hsz Hmod Hlen.
  rewrite MessageGatherer_slots by done. fold sl.
  rewrite write_slots; [done|lia|by rewrite Z.add_0_l|done|lia].
Qed.

End GatherFacts.

Section SlotFacts.

Context {Data : Type} `{policy : CommPolicy Data}.

Lemma length_slots (data : Data) info :
  (Flag = VariableSize → Forall (λ local, 0 <= getSize data local) info) →
  Z.of_nat (length (slots data info)) = elements data info.
Proof.
  unfold slots, elements. destruct Flag; intros Hnn.
  - by rewrite length_fmap.
  - specialize (Hnn eq_refl).
    induction Hnn as [|local info Hl _ IH]; [done|].
    change ((local :: info) ≫= ?f) with (f local ++ (info ≫= f)).
    cbv beta. rewrite length_app, length_fmap, length_seqZ.
    rewrite Nat2Z.inj_add, IH. simpl. lia.
Qed.

Lemma length_all_slots (data : Data) lists :
  (Flag = VariableSize →
   Forall (Forall (λ local, 0 <= getSize data local)) lists) →
  Z.of_nat (length (all_slots data lists))
  = Zsum (map (elements data) lists).
Proof.
  intros Hnn. unfold all_slots.
  induction lists as [|info lists IH]; [done|].
  change ((info :: lists) ≫= ?f) with (f info ++ (lists ≫= f)).
  rewrite length_app, Nat2Z.inj_add. simpl.
  rewrite length_slots, IH; [done| |].
  - intros HF. specialize (Hnn HF). by inversion Hnn.
  - intros HF. specialize (Hnn HF). by inversion Hnn.
Qed.

Lemma slots_same_layout (data rep : Data) info :
  (Flag = VariableSize →
   Forall (λ local, getSize data local = getSize rep local) info) →
  slots data info = slots rep info.
Proof.
  unfold slots. destruct Flag; [done|]. intros Heq. specialize (Heq eq_refl).
  induction Heq as [|local info Hl _ IH]; [done|].
  change ((local :: info) ≫= ?f) with (f local ++ (info ≫= f)).
  by rewrite IH, Hl.
Qed.

Lemma all_slots_same_layout (data rep : Data) lists :
  same_layout data rep lists → all_slots data lists = all_slots rep lists.
Proof.
  unfold same_layout, all_slots. intros Heq.
  induction lists as [|info lists IH]; [done|].
  change ((info :: lists) ≫= ?f) with (f info ++ (lists ≫= f)).
  rewrite IH, (slots_same_layout data rep info); [done| |].
  - intros HF. specialize (Heq HF). by inversion Heq.
  - intros HF. specialize (Heq HF). by inversion Heq.
Qed.

Lemma all_slots_SizeOne (data : Data) lists :
  Flag = SizeOne →
  all_slots data lists = (λ local, (local, None)) <$> concat lists.
Proof.
  intros HF. unfold all_slots, slots. rewrite HF.
  induction lists as [|info lists IH]; [done|].
  change ((info :: lists) ≫= ?f) with (f info ++ (lists ≫= f)).
  simpl. by rewrite fmap_app, IH.
Qed.

Lemma list_inserts_all {X} (k l : list X) :
  length k = length l → list_inserts 0 k l = k.
Proof.
  intros Hlen. rewrite <- (app_nil_r l).
  rewrite list_inserts_0_r by done. apply app_nil_r.
Qed.

Lemma plan_buffers (FORWARD : bool) (source dest : Data) interface
    (c : BufferedCommunicator) :
  is_plan source dest interface c →
  let rep := if FORWARD then source else dest in
  let lists := gather_lists FORWARD interface in
  (if FORWARD then (bufferSize_ c).1 else (bufferSize_ c).2)
  = Zsum (map (elements rep) lists) * sizeofT
  ∧ length (if FORWARD then (buffers_ c).1 else (buffers_ c).2)
    = Z.to_nat (Zsum (map (elements rep) lists)).
Proof.
  intros (_ & _ & Hsize & Hb0 & Hb1 & _). unfold gather_lists.
  rewrite Hsize. by destruct FORWARD.
Qed.

End SlotFacts.

Section GatherTheorems.

Context {Data : Type} `{policy : CommPolicy Data}.
Variable indeterminate : IndexedType.
Variable NDEBUG DUNE_ISTL_WITH_CHECKING : bool.

(** C10: for a [SizeOne] container, on the plan [build] made from the
    interface, the gatherer writes the slots [0 .. n-1] where [n] is the sum
    of the lengths of the lists it walks (the send lists when [FORWARD]);
    [n] is the capacity of the send buffer in elements, every written index
    satisfies [(index + 1) * sizeof(IndexedType) <= bufferSize], and the run
    ends normally also with the bounds assertion compiled in. *)
Theorem gather_SizeOne_fills_send_buffer
    (FORWARD : bool) (gather : Data → Z → IndexedType) (rank_of : Z → Z)
    (c0 : BufferedCommunicator) (interface : Interface) (data : Data) :
  Flag = SizeOne →
  StdMap.wf (interfaces interface) →
  messageInformation_ c0 = StdMap.empty →
  counts_in_range data (send_lists interface) →
  counts_in_range data (recv_lists interface) →
  let c := build_SizeOne indeterminate rank_of c0 interface in
  let lists := gather_lists FORWARD interface in
  let buffer := if FORWARD then (buffers_ c).1 else (buffers_ c).2 in
  let bufferSize := if FORWARD then (bufferSize_ c).1 else (bufferSize_ c).2 in
  MessageGatherer_SizeOne NDEBUG DUNE_ISTL_WITH_CHECKING FORWARD gather
                          rank_of interface data buffer bufferSize
  = Some (gather data <$> concat lists,
          imap (λ k local, EvGather (Z.of_nat k) local None) (concat lists))
  ∧ Z.of_nat (length (concat lists))
    = Zsum (map (λ info, Z.of_nat (length info)) lists)
  ∧ length buffer = length (concat lists)
  ∧ bufferSize = Z.of_nat (length (concat lists)) * sizeofT
  ∧ ∀ k : nat, (k < length (concat lists))%nat →
               (Z.of_nat k + 1) * sizeofT <= bufferSize.
Proof.
  intros HF Hwf Hmi HS HR c lists buffer bufferSize.
  pose proof (@sizeofT_pos Data policy) as Hpos.
  assert (is_plan data data interface c) as Hplan.
  { subst c.
    rewrite <- (build_SizeOne_build indeterminate rank_of c0 data data
                  interface HF).
    apply (plan_is_plan indeterminate). by apply build_is_plan. }
  assert (counts_in_range data lists) as Hrange.
  { subst lists. by destruct FORWARD. }
  destruct (plan_buffers FORWARD _ _ _ _ Hplan) as [Hsize Hbuf].
  fold lists buffer bufferSize in Hsize, Hbuf.
  replace (if FORWARD then data else data) with data in Hsize, Hbuf
    by (by destruct FORWARD).
  assert (Z.of_nat (length (concat lists))
          = Zsum (map (elements data) lists)) as Hlen.
  { rewrite <- length_all_slots by (by rewrite HF).
    by rewrite all_slots_SizeOne, length_fmap. }
  rewrite <- Hlen in Hsize, Hbuf. rewrite Nat2Z.id in Hbuf.
  assert (bufferSize < size_t_modulus) as Hmod.
  { rewrite Hsize, Hlen. apply Hrange. }
  split_and!; try done.
  - pose proof (MessageGatherer_result NDEBUG DUNE_ISTL_WITH_CHECKING
                  FORWARD (GS_SizeOne gather (λ d _ _, d)) rank_of interface
                  data buffer bufferSize) as Hg.
    simpl in Hg. rewrite Hg; clear Hg.
    + fold lists. rewrite all_slots_SizeOne by done.
      rewrite list_inserts_all by (by rewrite !length_fmap).
      unfold gather_events. rewrite imap_fmap, <- list_fmap_compose.
      do 2 f_equal.
    + by rewrite HF.
    + fold lists. unfold lists_in_range. apply Forall_forall.
      intros info Hin. eapply Z.le_trans; [|apply Hrange].
      clear -Hin HF. unfold elements. rewrite HF.
      induction lists as [|x l IH]; [by apply elem_of_nil in Hin|].
      apply elem_of_cons in Hin as [->|Hin]; simpl.
      * assert (0 <= Zsum (map (λ i : list Z, Z.of_nat (length i)) l)).
        { apply Zsum_map_nonneg, Forall_forall. intros. lia. }
        lia.
      * specialize (IH Hin). lia.
    + fold lists. rewrite all_slots_SizeOne, length_fmap by done. lia.
    + done.
    + fold lists. rewrite all_slots_SizeOne, length_fmap by done. lia.
  - rewrite Hlen. unfold elements. by rewrite HF.
  - intros k Hk. rewrite Hsize. nia.
Qed.

End GatherTheorems.

(** ** Scattering *)

Section ScatterFacts.

Context {Data : Type} `{policy : CommPolicy Data}.

Lemma scatter_events_cons proc first (s : slot) sl :
  scatter_events proc first (s :: sl)
  = EvScatter proc first s.1 s.2 :: scatter_events proc (first + 1) sl.
Proof.
  unfold scatter_events. rewrite imap_cons. rewrite Z.add_0_r. f_equal.
  apply imap_ext. intros k x _. simpl. f_equal. lia.
Qed.

Lemma scatter_events_app proc first sl1 sl2 :
  scatter_events proc first (sl1 ++ sl2)
  = scatter_events proc first sl1
    ++ scatter_events proc (first + Z.of_nat (length sl1)) sl2.
Proof.
  unfold scatter_events. rewrite imap_app. f_equal.
  apply imap_ext. intros k x _. simpl. f_equal. lia.
Qed.

Lemma scattered_app (gs : GatherScatter Data) data sl1 sl2 vs1 vs2 :
  length sl1 = length vs1 →
  scattered gs data (sl1 ++ sl2) (vs1 ++ vs2)
  = scattered gs (scattered gs data sl1 vs1) sl2 vs2.
Proof.
  intros Hlen. unfold scattered.
  rewrite zip_with_app by done. by rewrite fold_left_app.
Qed.

Lemma scattered_getSize (gs : GatherScatter Data) sl : ∀ data vs k,
  scatter_keeps_layout gs →
  flag_of gs = VariableSize →
  getSize (scattered gs data sl vs) k = getSize data k.
Proof.
  destruct gs as [?|gather scatter]; [done|]. simpl. intros data vs k Hk _.
  revert data vs. induction sl as [|s sl IH]; intros data [|v vs]; try done.
  unfold scattered in *. simpl. rewrite IH. apply Hk.
Qed.

Lemma slots_ext (d1 d2 : Data) info :
  (∀ k, getSize d1 k = getSize d2 k) → slots d1 info = slots d2 info.
Proof.
  intros Heq. apply slots_same_layout. intros _.
  apply Forall_forall. intros. apply Heq.
Qed.

(** The [SizeOne] loop. *)
Lemma scatter_SizeOne_fold (gather : Data → Z → IndexedType)
    (scatter : Data → IndexedType → Z → Data) proc buffer base info :
  ∀ data (i : nat) tr,
  0 <= base →
  (Z.to_nat base + i + length info <= length buffer)%nat →
  foldlM
    (λ (s : Data * Z * list event) local,
       let '(data, i, tr) := s in
       v ← buffer_read buffer (base + i);
       Some (scatter data v local, i + 1,
             tr ++ [EvScatter proc (base + i) local None]))
    (data, Z.of_nat i, tr) info
  = Some (scattered (GS_SizeOne gather scatter) data
                    ((λ local, (local, None)) <$> info)
                    (take (length info) (drop (Z.to_nat base + i) buffer)),
          Z.of_nat (i + length info),
          tr ++ scatter_events proc (base + Z.of_nat i)
                               ((λ local, (local, None)) <$> info)).
Proof.
  induction info as [|local info IH]; intros data i tr Hbase Hlen.
  { simpl. by rewrite Nat.add_0_r, app_nil_r. }
  simpl in Hlen. simpl foldlM. unfold buffer_read.
  rewrite bool_decide_eq_true_2 by lia.
  replace (Z.to_nat (base + Z.of_nat i)) with (Z.to_nat base + i)%nat by lia.
  destruct (lookup_lt_is_Some_2 buffer (Z.to_nat base + i)) as [v Hv]; [lia|].
  rewrite Hv. simpl.
  replace (Z.of_nat i + 1) with (Z.of_nat (S i)) by lia.
  rewrite IH by (simpl; lia).
  rewrite scatter_events_cons, <- app_assoc. simpl.
  rewrite (drop_S _ _ _ Hv).
  replace (Z.to_nat base + S i)%nat with (S (Z.to_nat base + i)) by lia.
  replace (base + Z.of_nat (S i)) with (base + Z.of_nat i + 1) by lia.
  replace (i + S (length info))%nat with (S (i + length info))%nat by lia.
  done.
Qed.

Lemma scatter_block_unfold
    (scatter : Data → IndexedType → Z → Z → Data) proc local base data j
    rest index tr :
  scatter_block scatter proc local base data j rest index tr
  = if bool_decide (j < getSize data local) then
      match rest with
      | [] => None
      | v :: rest =>
          match int_incr index with
          | Some index' =>
              scatter_block scatter proc local base (scatter data v local j)
                            (j + 1) rest index'
                            (tr ++ [EvScatter proc (base + index) local
                                              (Some j)])
          | None => None
          end
      end
    else Some (data, rest, index, tr).
Proof. by destruct rest. Qed.

(** The loop over the subindices of one position. *)
Lemma scatter_block_result (gather : Data → Z → Z → IndexedType)
    (scatter : Data → IndexedType → Z → Z → Data) proc local :
  let gs := GS_VariableSize gather scatter in
  scatter_keeps_layout gs →
  ∀ (m : nat) base data j rest index tr,
  m = Z.to_nat (getSize data local - j) →
  (m <= length rest)%nat →
  index + Z.of_nat m <= int_max →
  scatter_block scatter proc local base data j rest index tr
  = Some (scattered gs data ((λ j, (local, Some j)) <$> seqZ j (Z.of_nat m))
                    (take m rest),
          drop m rest, index + Z.of_nat m,
          tr ++ scatter_events proc (base + index)
                  ((λ j, (local, Some j)) <$> seqZ j (Z.of_nat m))).
Proof.
  intros gs Hk.
  induction m as [|m IH]; intros base data j rest index tr Hm Hlen Hint;
    rewrite scatter_block_unfold.
  - rewrite bool_decide_eq_false_2 by lia.
    simpl. by rewrite Z.add_0_r, app_nil_r, drop_0.
  - rewrite bool_decide_eq_true_2 by lia.
    destruct rest as [|v rest]; simpl in Hlen; [lia|].
    unfold int_incr. rewrite bool_decide_eq_true_2 by lia.
    rewrite (IH _ _ (j + 1)); [|simpl in Hk; rewrite Hk; lia|lia|lia].
    rewrite (seqZ_cons j (Z.of_nat (S m))) by lia.
    replace (Z.pred (Z.of_nat (S m))) with (Z.of_nat m) by lia.
    rewrite fmap_cons, scatter_events_cons, <- app_assoc. simpl.
    replace (Z.succ j) with (j + 1) by lia.
    replace (base + (index + 1)) with (base + index + 1) by lia.
    do 3 f_equal. lia.
Qed.

(** The [VariableSize] loop over the positions. *)
Lemma scatter_VariableSize_fold (gather : Data → Z → Z → IndexedType)
    (scatter : Data → IndexedType → Z → Z → Data) proc info :
  let gs := GS_VariableSize gather scatter in
  Flag = VariableSize →
  scatter_keeps_layout gs →
  ∀ base data rest index tr,
  (length (slots data info) <= length rest)%nat →
  index + Z.of_nat (length (slots data info)) <= int_max →
  foldlM
    (λ (s : scatter_state) local,
       let '(data, rest, index, tr) := s in
       scatter_block scatter proc local base data 0 rest index tr)
    (data, rest, index, tr) info
  = Some (scattered gs data (slots data info)
                    (take (length (slots data info)) rest),
          drop (length (slots data info)) rest,
          index + Z.of_nat (length (slots data info)),
          tr ++ scatter_events proc (base + index) (slots data info)).
Proof.
  intros gs HF Hk. unfold slots. rewrite HF.
  induction info as [|local info IH]; intros base data rest index tr Hlen Hint.
  { simpl. by rewrite Z.add_0_r, app_nil_r, drop_0. }
  change ((local :: info) ≫= ?f) with (f local ++ (info ≫= f)) in *.
  cbv beta in *. rewrite length_app, length_fmap, length_seqZ in Hlen, Hint.
  simpl foldlM.
  rewrite (scatter_block_result gather scatter proc local Hk
             (Z.to_nat (getSize data local)));
    [|f_equal; lia|lia|lia].
  assert (seqZ 0 (Z.of_nat (Z.to_nat (getSize data local)))
          = seqZ 0 (getSize data local)) as ->.
  { destruct (Z.le_gt_cases 0 (getSize data local)).
    - by rewrite Z2Nat.id.
    - by rewrite !seqZ_nil by lia. }
  simpl.
  subst gs.
  set (gs := GS_VariableSize gather scatter) in *.
  set (blk := (λ j, (local, Some j)) <$> seqZ 0 (getSize data local)) in *.
  set (n := Z.to_nat (getSize data local)) in *.
  set (data' := scattered gs data blk (take n rest)).
  assert (∀ k, getSize data' k = getSize data k) as Hsame.
  { intros k. by apply scattered_getSize. }
  assert ((info ≫= λ local, (λ j, (local, Some j)) <$> seqZ 0 (getSize data' local))
          = (info ≫= λ local, (λ j, (local, Some j)) <$> seqZ 0 (getSize data local)))
    as Hslots.
  { pose proof (slots_ext data' data info Hsame) as Hs.
    unfold slots in Hs. by rewrite HF in Hs. }
  assert (length blk = n) as Hblk.
  { subst blk n. by rewrite length_fmap, length_seqZ. }
  rewrite IH; rewrite Hslots; [|rewrite length_drop; lia|lia].
  set (sl := info ≫= _) in *.
  rewrite length_app, Hblk.
  rewrite scatter_events_app, Hblk, <- app_assoc.
  rewrite drop_drop.
  rewrite <- (take_drop n (take (n + length sl) rest)).
  rewrite scattered_app.
  - rewrite take_take, Nat.min_l by lia.
    rewrite <- take_drop_commute.
    replace (base + (index + Z.of_nat n)) with (base + index + Z.of_nat n)
      by lia.
    do 3 f_equal. lia.
  - rewrite Hblk, length_take, length_take. lia.
Qed.

End ScatterFacts.

Section ScatterTheorems.

Context {Data : Type} `{policy : CommPolicy Data}.
Variable indeterminate : IndexedType.

Lemma MessageScatterer_result (FORWARD : bool) (gs : GatherScatter Data)
    interface data buffer base proc infoPair :
  flag_of gs = Flag →
  scatter_keeps_layout gs →
  StdMap.find proc (interfaces interface) = Some infoPair →
  let info := if FORWARD then infoPair.2 else infoPair.1 in
  let sl := slots data info in
  0 <= base →
  (Z.to_nat base + length sl <= length buffer)%nat →
  Z.of_nat (length info) <= int_max →
  Z.of_nat (length sl) <= int_max →
  MessageScatterer FORWARD gs interface data buffer base proc
  = Some (scattered gs data sl
                    (take (length sl) (drop (Z.to_nat base) buffer)),
          scatter_events proc base sl).
Proof.
  intros Hflag Hk Hfind info sl Hbase Hlen Hinfo Hint. subst info.
  destruct gs as [gather scatter|gather scatter]; simpl in Hflag;
    unfold MessageScatterer, MessageScatterer_SizeOne,
      MessageScatterer_VariableSize; rewrite Hfind; simpl.
  - subst sl. unfold slots in *. rewrite <- Hflag in *.
    rewrite length_fmap in *.
    change 0 with (Z.of_nat 0) at 1.
    rewrite (scatter_SizeOne_fold gather) by (done || lia). simpl.
    by rewrite Nat.add_0_r, Z.add_0_r.
  - rewrite bool_decide_eq_true_2 by done.
    rewrite (scatter_VariableSize_fold gather);
      [|done|done|rewrite length_drop; subst sl; lia|subst sl; lia].
    simpl. by rewrite Z.add_0_r.
Qed.

Lemma plan_find (source dest : Data) interface (c : BufferedCommunicator)
    (k : nat) e :
  is_plan source dest interface c →
  StdMap.wf (interfaces interface) →
  interfaces interface !! k = Some e →
  StdMap.find e.1 (messageInformation_ c)
  = Some ({| start_ := Zsum (take k (map (elements source)
                                         (send_lists interface)));
             size_ := elements source e.2.1 * sizeofT |},
          {| start_ := Zsum (take k (map (elements dest)
                                         (recv_lists interface)));
             size_ := elements dest e.2.2 * sizeofT |}).
Proof.
  intros (Hkeys & Hlook & _) Hwf Hk.
  eapply find_lookup; [|by apply Hlook].
  unfold StdMap.wf. by rewrite Hkeys.
Qed.


End ScatterTheorems.

(** ** The exchange *)

Section ExchangeFacts.

Context {Data : Type} `{policy : CommPolicy Data}.
Variable NDEBUG DUNE_ISTL_WITH_CHECKING : bool.

(** The slab [m] of [n] elements lies inside [buffer] of [bufferSize]
    bytes. *)
Definition slab_ok (buffer : list IndexedType) (bufferSize : Z)
    (m : MessageInformation) (n : Z) : Prop :=
  0 <= start_ m ∧ 0 <= n ∧ size_ m = n * sizeofT ∧
  start_ m + n <= Z.of_nat (length buffer) ∧
  bufferSize = Z.of_nat (length buffer) * sizeofT ∧
  bufferSize < size_t_modulus.

Lemma counts_nonneg (data : Data) lists :
  counts_in_range data lists →
  Forall (λ x, 0 <= x) (map (elements data) lists).
Proof.
  intros Hr. apply counts_in_range_each in Hr.
  apply Forall_fmap. eapply Forall_impl; [exact Hr|]. by intros ? [_ ?].
Qed.

Lemma running_slab (counts : list Z) (i : nat) n buffer bufferSize sz :
  Forall (λ x, 0 <= x) counts →
  counts !! i = Some n →
  length buffer = Z.to_nat (Zsum counts) →
  bufferSize = Zsum counts * sizeofT →
  bufferSize < size_t_modulus →
  sz = n * sizeofT →
  slab_ok buffer bufferSize {| start_ := Zsum (take i counts); size_ := sz |} n.
Proof.
  intros Hnn Hi Hlen Hsize Hmod ->. unfold slab_ok. simpl.
  pose proof (Zsum_take_le counts i Hnn) as H1.
  pose proof (Zsum_take_le counts (S i) Hnn) as H2.
  rewrite (Zsum_take_S _ _ _ Hi) in H2.
  pose proof (Zsum_nonneg counts Hnn) as H3.
  assert (0 <= n).
  { rewrite Forall_lookup in Hnn. by eapply Hnn. }
  rewrite Hlen, Z2Nat.id by done. split_and!; try done; lia.
Qed.

Lemma plan_entry (c : BufferedCommunicator) interface (source dest : Data)
    (i : nat) e :
  built c interface source dest →
  interfaces interface !! i = Some e →
  ∃ ms mr,
    messageInformation_ c !! i = Some (e.1, (ms, mr)) ∧
    StdMap.find e.1 (messageInformation_ c) = Some (ms, mr) ∧
    StdMap.find e.1 (interfaces interface) = Some e.2 ∧
    slab_ok (buffers_ c).1 (bufferSize_ c).1 ms (elements source e.2.1) ∧
    slab_ok (buffers_ c).2 (bufferSize_ c).2 mr (elements dest e.2.2).
Proof.
  intros (Hwf & HS & HR & _ & _ & Hplan) He.
  pose proof (plan_find source dest interface c i e Hplan Hwf He) as Hfind.
  destruct Hplan as (Hkeys & Hlook & Hsize & Hb0 & Hb1 & _).
  specialize (Hlook i e He).
  do 2 eexists. split_and!; [exact Hlook|exact Hfind| | |].
  - destruct e as [proc lists]. by eapply find_lookup.
  - eapply running_slab; try done.
    + by apply counts_nonneg.
    + unfold send_lists. by rewrite !map_lookup, He.
    + by rewrite Hsize.
    + rewrite Hsize. simpl. apply HS.
  - eapply running_slab; try done.
    + by apply counts_nonneg.
    + unfold recv_lists. by rewrite !map_lookup, He.
    + by rewrite Hsize.
    + rewrite Hsize. simpl. apply HR.
Qed.

Lemma plan_length (c : BufferedCommunicator) interface (source dest : Data) :
  built c interface source dest →
  length (messageInformation_ c) = length (interfaces interface).
Proof.
  intros (_ & _ & _ & _ & _ & Hkeys & _).
  unfold StdMap.keys in Hkeys.
  by rewrite <- (length_map fst), Hkeys, length_map.
Qed.

(** The view of an entry from one direction: the slab that is sent and the
    slab that is received. *)
Lemma plan_entry_dir (FORWARD : bool) (c : BufferedCommunicator) interface
    (source dest : Data) (i : nat) info :
  built c interface source dest →
  messageInformation_ c !! i = Some info →
  ∃ e,
    interfaces interface !! i = Some e ∧ info.1 = e.1 ∧
    StdMap.find e.1 (messageInformation_ c) = Some info.2 ∧
    StdMap.find e.1 (interfaces interface) = Some e.2 ∧
    slab_ok (if FORWARD then (buffers_ c).1 else (buffers_ c).2)
            (if FORWARD then (bufferSize_ c).1 else (bufferSize_ c).2)
            (if FORWARD then info.2.1 else info.2.2)
            (elements (if FORWARD then source else dest)
                      (if FORWARD then e.2.1 else e.2.2)) ∧
    slab_ok (if FORWARD then (buffers_ c).2 else (buffers_ c).1)
            (if FORWARD then (bufferSize_ c).2 else (bufferSize_ c).1)
            (if FORWARD then info.2.2 else info.2.1)
            (elements (if FORWARD then dest else source)
                      (if FORWARD then e.2.2 else e.2.1)).
Proof.
  intros Hb Hi.
  destruct (lookup_lt_is_Some_2 (interfaces interface) i) as [e He].
  { rewrite <- (plan_length c interface source dest Hb).
    by eapply lookup_lt_Some. }
  destruct (plan_entry c interface source dest i e Hb He)
    as (ms & mr & Hl & Hf & Hfi & Hs & Hr).
  rewrite Hl in Hi. injection Hi as <-. simpl.
  exists e. destruct FORWARD; by split_and!.
Qed.

Lemma MPI_count_small size :
  0 <= size <= int_max → MPI_count size = Some size.
Proof.
  intros Hs. unfold MPI_count.
  rewrite to_int_small by (unfold int_min, int_max in *; lia).
  by rewrite bool_decide_eq_true_2 by lia.
Qed.

Lemma post_receives_result (FORWARD : bool) comm recvBufferSize
    (mi : InformationMap) : ∀ processMap tr,
  Forall (λ info : Z * (MessageInformation * MessageInformation),
            let m := if FORWARD then info.2.2 else info.2.1 in
            0 <= start_ m ∧ 0 <= size_ m <= int_max ∧
            start_ m * sizeofT + size_ m <= recvBufferSize ∧
            recvBufferSize < size_t_modulus) mi →
  foldlM (post_receive NDEBUG FORWARD comm recvBufferSize) (processMap, tr) mi
  = Some (processMap ++ StdMap.keys mi,
          tr ++ imap (λ i info,
                        let m := if FORWARD then info.2.2 else info.2.1 in
                        EvIrecv (start_ m) (size_ m) MPI_BYTE info.1 commTag_
                                comm (length processMap + i))
                     mi).
Proof.
  pose proof (@sizeofT_pos Data policy) as Hpos.
  induction mi as [|info mi IH]; intros processMap tr Hall.
  { simpl. by rewrite !app_nil_r. }
  rewrite Forall_cons in Hall. destruct Hall as [(H0 & H1 & H2 & H3) Hall'].
  simpl foldlM. unfold post_receive at 1.
  unfold size_t_add, size_t_mul.
  rewrite (to_size_t_small (start_ _ * sizeofT)) by nia.
  rewrite to_size_t_small by nia.
  rewrite bool_decide_eq_true_2 by done.
  rewrite assert_true. simpl.
  rewrite MPI_count_small by done. simpl.
  rewrite IH by done.
  rewrite length_app, <- !app_assoc. simpl.
  rewrite Nat.add_0_r. do 4 f_equal.
  apply imap_ext. intros i x _. simpl. f_equal. lia.
Qed.

Lemma post_sends_result (FORWARD : bool) comm sendBuffer sendBufferSize
    (mi : InformationMap) : ∀ (i0 : nat) tr,
  Forall (λ info : Z * (MessageInformation * MessageInformation),
            let m := if FORWARD then info.2.1 else info.2.2 in
            size_ m <= int_max ∧ ∃ n, slab_ok sendBuffer sendBufferSize m n)
         mi →
  foldlM (post_send NDEBUG FORWARD comm sendBuffer sendBufferSize) (i0, tr) mi
  = Some ((i0 + length mi)%nat,
          tr ++ imap (λ i info,
                        let m := if FORWARD then info.2.1 else info.2.2 in
                        EvIssend (start_ m) (size_ m) MPI_BYTE info.1 commTag_
                                 comm (i0 + i)
                                 (take (Z.to_nat (size_ m / sizeofT))
                                       (drop (Z.to_nat (start_ m)) sendBuffer)))
                     mi).
Proof.
  pose proof (@sizeofT_pos Data policy) as Hpos.
  induction mi as [|info mi IH]; intros i0 tr Hall.
  { simpl. by rewrite Nat.add_0_r, app_nil_r. }
  rewrite Forall_cons in Hall. destruct Hall as [Hinfo Hall'].
  destruct Hinfo as (Hfit & n & H0 & Hn & Hsz & Hin & Hbs & Hmod).
  simpl foldlM. unfold post_send at 1.
  unfold size_t_add, size_t_mul.
  rewrite (to_size_t_small (start_ _ * sizeofT)) by nia.
  rewrite to_size_t_small by nia.
  rewrite bool_decide_eq_true_2 by nia.
  rewrite assert_true. simpl.
  rewrite MPI_count_small by nia. simpl.
  unfold slab. rewrite Hsz, Z.div_mul by lia.
  rewrite bool_decide_eq_true_2 by nia. simpl.
  rewrite IH by done.
  rewrite <- !app_assoc. simpl. rewrite Nat.add_0_r.
  f_equal. f_equal; [lia|]. do 2 f_equal.
  apply imap_ext. intros i x _. simpl. f_equal. lia.
Qed.

Lemma slots_length_rep (data rep : Data) lists info :
  counts_in_range rep lists →
  same_layout data rep lists →
  info ∈ lists →
  slots data info = slots rep info ∧
  Z.of_nat (length (slots rep info)) = elements rep info.
Proof.
  intros (Hnn & _) Hsame Hin. split.
  - apply slots_same_layout. intros HF. specialize (Hsame HF).
    rewrite Forall_forall in Hsame. by apply Hsame.
  - apply length_slots. intros HF. specialize (Hnn HF).
    rewrite Forall_forall in Hnn. by apply Hnn.
Qed.

Lemma scatter_list_elem (FORWARD : bool) interface (i : nat)
    (e : Z * (InterfaceInformation * InterfaceInformation)) :
  interfaces interface !! i = Some e →
  (if FORWARD then e.2.2 else e.2.1) ∈ scatter_lists FORWARD interface.
Proof.
  intros He. unfold scatter_lists, recv_lists, send_lists.
  destruct FORWARD; apply list_elem_of_fmap; exists e;
    (split; [done|by eapply list_elem_of_lookup_2]).
Qed.

(** One completed receive, on the plan. *)
Lemma receive_one_result (FORWARD : bool) (gs : GatherScatter Data)
    (c : BufferedCommunicator) interface (source dest : Data) env
    (to : ref) rank (s : recv_state) (k i : nat) e info :
  built c interface source dest →
  counts_fit_int c →
  flag_of gs = Flag →
  scatter_keeps_layout gs →
  (waitany env k).1 = Some i →
  interfaces interface !! i = Some e →
  messageInformation_ c !! i = Some info →
  length (rs_recvBuffer s)
  = length (if FORWARD then (buffers_ c).2 else (buffers_ c).1) →
  same_layout (rs_store s to) (if FORWARD then dest else source)
              (scatter_lists FORWARD interface) →
  let m := if FORWARD then info.2.2 else info.2.1 in
  let sl := slots (if FORWARD then dest else source)
                  (if FORWARD then e.2.2 else e.2.1) in
  let recvBuffer :=
    list_inserts (Z.to_nat (start_ m))
                 (take (length sl) (payload env e.1)) (rs_recvBuffer s) in
  receive_one NDEBUG FORWARD gs (messageInformation_ c) interface env to
              (StdMap.keys (messageInformation_ c))
              (if FORWARD then (bufferSize_ c).2 else (bufferSize_ c).1)
              rank s k
  = Some (if bool_decide ((waitany env k).2 = MPI_SUCCESS) then
            {| rs_store :=
                 <[to := scattered gs (rs_store s to) sl
                           (take (length sl)
                                 (drop (Z.to_nat (start_ m)) recvBuffer))]>
                   (rs_store s);
               rs_recvBuffer := recvBuffer;
               rs_success := rs_success s;
               rs_finished := Some i;
               rs_trace :=
                 rs_trace s
                 ++ receive_block FORWARD interface (messageInformation_ c)
                      (if FORWARD then dest else source) env rank k |}
          else
            {| rs_store := rs_store s;
               rs_recvBuffer := rs_recvBuffer s;
               rs_success := 0;
               rs_finished := Some i;
               rs_trace :=
                 rs_trace s
                 ++ receive_block FORWARD interface (messageInformation_ c)
                      (if FORWARD then dest else source) env rank k |}).
Proof.
  intros Hb Hfit Hflag Hkeep Hfin He Hinfo Hlen Hsame m sl recvBuffer.
  pose proof (@sizeofT_pos Data policy) as Hpos.
  assert (size_ m <= int_max) as Hcount.
  { unfold counts_fit_int in Hfit. rewrite Forall_lookup in Hfit.
    specialize (Hfit i info Hinfo). subst m. destruct FORWARD; tauto. }
  destruct (plan_entry_dir FORWARD c interface source dest i info Hb Hinfo)
    as (e' & He' & Hproc & Hfind & Hfindi & _ & Hslab).
  rewrite He in He'. injection He' as <-.
  destruct Hslab as (H0 & Hn & Hsz & Hin & Hbs & Hmod). fold m in H0, Hsz, Hin.
  assert ((if FORWARD then e.2.2 else e.2.1)
          ∈ scatter_lists FORWARD interface) as Helem
    by (by eapply scatter_list_elem).
  assert (counts_in_range (if FORWARD then dest else source)
                          (scatter_lists FORWARD interface)) as Hcr.
  { destruct Hb as (_ & HS & HR & _). by destruct FORWARD. }
  destruct (slots_length_rep _ _ _ _ Hcr Hsame Helem) as [Hsl Hsllen].
  fold sl in Hsl, Hsllen.
  unfold receive_one, receive_block.
  destruct (waitany env k) as [finished error] eqn:Hw. simpl in Hfin.
  subst finished. simpl.
  unfold StdMap.keys. rewrite map_lookup, Hinfo, He, length_map. simpl.
  case_bool_decide as Herr; [|by rewrite Hproc, <- app_assoc].
  rewrite Hproc, Hfind. simpl. fold m.
  unfold size_t_add. rewrite to_size_t_small by nia.
  rewrite bool_decide_eq_true_2 by nia.
  rewrite assert_true. simpl.
  rewrite MPI_count_small by nia. simpl.
  unfold deliver. rewrite Hsz, Z.div_mul by lia.
  rewrite <- Hsllen, Nat2Z.id.
  rewrite bool_decide_eq_true_2
    by (split; [done|]; rewrite length_take, Hlen; lia).
  simpl. fold recvBuffer.
  rewrite (MessageScatterer_result FORWARD gs interface (rs_store s to)
             recvBuffer (start_ m) e.1 e.2); try done.
  - simpl. by rewrite Hsl, <- app_assoc.
  - rewrite Hsl. subst recvBuffer. rewrite length_inserts, Hlen. lia.
  - assert (lists_in_range (scatter_lists FORWARD interface)) as Hlr.
    { destruct Hb as (_ & _ & _ & HLS & HLR & _). by destruct FORWARD. }
    unfold lists_in_range in Hlr. rewrite Forall_forall in Hlr.
    by apply Hlr.
  - rewrite Hsl, Hsllen.
    pose proof (counts_nonneg _ _ Hcr) as Hnn.
    destruct Hcr as (_ & Hmax & _).
    etransitivity; [|exact Hmax].
    apply Zsum_elem_le; [done|].
    apply list_elem_of_fmap. by eexists.
Qed.

Lemma wait_one_unfold env rank processMap finished success tr (i : nat) :
  wait_one env rank processMap finished (success, tr) i
  = (if bool_decide (wait env i = MPI_SUCCESS) then success else 0,
     tr ++ EvWait i (wait env i) ::
       if bool_decide (wait env i = MPI_SUCCESS) then []
       else [EvCerr rank true (finished ≫= (processMap !!.))]).
Proof. unfold wait_one. by case_bool_decide. Qed.

Lemma wait_loop env rank processMap finished (ids : list nat) :
  ∀ success tr,
  fold_left (wait_one env rank processMap finished) ids (success, tr)
  = (if bool_decide (Forall (λ i, wait env i = MPI_SUCCESS) ids)
     then success else 0,
     tr ++ (ids ≫= λ i,
              EvWait i (wait env i) ::
              if bool_decide (wait env i = MPI_SUCCESS) then []
              else [EvCerr rank true (finished ≫= (processMap !!.))])).
Proof.
  induction ids as [|i ids IH]; intros success tr.
  { simpl. by rewrite app_nil_r. }
  change ((i :: ids) ≫= ?f) with (f i ++ (ids ≫= f)). cbv beta.
  change (fold_left ?f (i :: ids) ?a) with (fold_left f ids (f a i)).
  rewrite wait_one_unfold, IH, <- app_assoc. simpl. f_equal.
  destruct (decide (wait env i = MPI_SUCCESS)) as [Hi|Hi].
  - rewrite (bool_decide_eq_true_2 _ Hi).
    rewrite (bool_decide_ext
               (Forall (λ i, wait env i = MPI_SUCCESS) (i :: ids))
               (Forall (λ i, wait env i = MPI_SUCCESS) ids)); [done|].
    rewrite Forall_cons. tauto.
  - rewrite (bool_decide_eq_false_2 _ Hi).
    rewrite (bool_decide_eq_false_2
               (Forall (λ i, wait env i = MPI_SUCCESS) (i :: ids)))
      by (rewrite Forall_cons; tauto).
    by destruct (bool_decide _).
Qed.

End ExchangeFacts.

Section SendRecvFacts.

Context {Data : Type} `{policy : CommPolicy Data}.
Variable NDEBUG DUNE_ISTL_WITH_CHECKING : bool.

Local Opaque receive_block.

Local Abbreviation recv_buffer FORWARD c :=
  (if FORWARD then (buffers_ c).2 else (buffers_ c).1).
Local Abbreviation recv_rep FORWARD source dest :=
  (if FORWARD then dest else source).

Lemma receive_loop (FORWARD : bool) (gs : GatherScatter Data)
    (c : BufferedCommunicator) interface (source dest : Data) env
    (to : ref) rank :
  built c interface source dest →
  counts_fit_int c →
  flag_of gs = Flag →
  scatter_keeps_layout gs →
  ∀ (ks : list nat) (s : recv_state),
  (∀ k, k ∈ ks → ∃ i, (waitany env k).1 = Some i
                      ∧ (i < length (interfaces interface))%nat) →
  length (rs_recvBuffer s) = length (recv_buffer FORWARD c) →
  same_layout (rs_store s to) (recv_rep FORWARD source dest)
              (scatter_lists FORWARD interface) →
  ∃ w,
    foldlM (receive_one NDEBUG FORWARD gs (messageInformation_ c) interface
                        env to (StdMap.keys (messageInformation_ c))
                        (if FORWARD then (bufferSize_ c).2
                         else (bufferSize_ c).1) rank) s ks = Some w
    ∧ length (rs_recvBuffer w) = length (recv_buffer FORWARD c)
    ∧ same_layout (rs_store w to) (recv_rep FORWARD source dest)
                  (scatter_lists FORWARD interface)
    ∧ rs_trace w
      = rs_trace s
        ++ (ks ≫= receive_block FORWARD interface (messageInformation_ c)
                    (recv_rep FORWARD source dest) env rank)
    ∧ rs_success w
      = (if bool_decide (Forall (λ k, (waitany env k).2 = MPI_SUCCESS) ks)
         then rs_success s else 0)
    ∧ ∀ r, r ≠ to → rs_store w r = rs_store s r.
Proof.
  intros Hb Hfit Hflag Hkeep.
  induction ks as [|k ks IH]; intros s Hval Hlen Hsame.
  { exists s. simpl. split_and!; try done. by rewrite app_nil_r. }
  destruct (Hval k) as (i & Hfin & Hi); [by left|].
  destruct (lookup_lt_is_Some_2 (interfaces interface) i Hi) as [e He].
  destruct (lookup_lt_is_Some_2 (messageInformation_ c) i) as [info Hinfo].
  { by rewrite (plan_length c interface source dest Hb). }
  simpl foldlM.
  rewrite (receive_one_result NDEBUG FORWARD gs c interface source dest env
             to rank s k i e info) by done.
  simpl.
  change ((k :: ks) ≫= ?f) with (f k ++ (ks ≫= f)).
  assert (∀ k', k' ∈ ks → ∃ i, (waitany env k').1 = Some i
                              ∧ (i < length (interfaces interface))%nat)
    as Hval'.
  { intros k' Hk'. apply Hval. by right. }
  destruct (decide ((waitany env k).2 = MPI_SUCCESS)) as [Hk|Hk].
  - rewrite (bool_decide_eq_true_2 _ Hk).
    rewrite (bool_decide_ext
               (Forall (λ k, (waitany env k).2 = MPI_SUCCESS) (k :: ks))
               (Forall (λ k, (waitany env k).2 = MPI_SUCCESS) ks))
      by (rewrite Forall_cons; tauto).
    match goal with |- context [foldlM _ ?s' ks] =>
      destruct (IH s' Hval') as (w & Hw & Hwlen & Hwsame & Hwtr & Hwsucc & Hwst)
    end; simpl.
    + by rewrite length_inserts.
    + unfold same_layout. rewrite fn_lookup_insert.
      intros HF. specialize (Hsame HF).
      eapply Forall_impl; [exact Hsame|]. intros l Hl.
      eapply Forall_impl; [exact Hl|]. intros x Hx. simpl in *.
      rewrite <- Hx. apply scattered_getSize; [done|by rewrite Hflag].
    + exists w. simpl in *. split_and!; try done.
      * by rewrite Hwtr, app_assoc.
      * intros r Hr. rewrite (Hwst r Hr). by rewrite fn_lookup_insert_ne.
  - rewrite (bool_decide_eq_false_2 _ Hk).
    rewrite (bool_decide_eq_false_2
               (Forall (λ k, (waitany env k).2 = MPI_SUCCESS) (k :: ks)))
      by (rewrite Forall_cons; tauto).
    match goal with |- context [foldlM _ ?s' ks] =>
      destruct (IH s' Hval') as (w & Hw & Hwlen & Hwsame & Hwtr & Hwsucc & Hwst)
    end; simpl; try done.
    exists w. simpl in *. split_and!; try done.
    + by rewrite Hwtr, app_assoc.
    + rewrite Hwsucc. by destruct (bool_decide _).
Qed.

(** What [sendRecv] returns once the receive loop has ended in [w]. *)
Definition finish (FORWARD : bool) (c : BufferedCommunicator)
    (interface : Interface) (env : mpi_env)
    (sendBuffer : list IndexedType) (gather_trace : list event)
    (w : recv_state) : result :=
  let n := length (messageInformation_ c) in
  let rank := comm_rank env MPI_COMM_WORLD in
  let success :=
    if bool_decide (Forall (λ i, wait env i = MPI_SUCCESS) (seq 0 n))
    then rs_success w else 0 in
  let globalSuccess := allreduce_min env success in
  {| res_comm :=
       {| messageInformation_ := messageInformation_ c;
          buffers_ := if FORWARD then (sendBuffer, rs_recvBuffer w)
                      else (rs_recvBuffer w, sendBuffer);
          bufferSize_ := bufferSize_ c;
          interface_ := interface_ c |};
     res_store := rs_store w;
     res_trace :=
       gather_trace
       ++ irecv_events FORWARD (communicator interface) (messageInformation_ c)
       ++ issend_events FORWARD (communicator interface) sendBuffer
                        (messageInformation_ c)
       ++ rs_trace w
       ++ wait_events env rank
            (rs_finished w ≫= (StdMap.keys (messageInformation_ c) !!.)) n
       ++ [EvAllreduce_MIN success (communicator interface) globalSuccess]
       ++ (if bool_decide (globalSuccess = 0)
           then [EvThrow_CommunicationError] else []);
     res_success := success;
     res_globalSuccess := globalSuccess;
     res_thrown := bool_decide (globalSuccess = 0) |}.

Lemma sendRecv_unfold (FORWARD : bool) (gs : GatherScatter Data)
    (c : BufferedCommunicator) interface (source dest : Data) env
    (st : store Data) (from to : ref) :
  exchange_ok FORWARD gs c interface source dest env st from to →
  counts_fit_int c →
  let sl := all_slots (st from) (gather_lists FORWARD interface) in
  sendRecv NDEBUG DUNE_ISTL_WITH_CHECKING FORWARD gs c env st from to
  = w ← foldlM (receive_one NDEBUG FORWARD gs (messageInformation_ c)
                            interface env to
                            (StdMap.keys (messageInformation_ c))
                            (if FORWARD then (bufferSize_ c).2
                             else (bufferSize_ c).1)
                            (comm_rank env MPI_COMM_WORLD))
               {| rs_store := st; rs_recvBuffer := recv_buffer FORWARD c;
                  rs_success := 1; rs_finished := None; rs_trace := [] |}
               (seq 0 (length (messageInformation_ c)));
    Some (finish FORWARD c interface env (gathered gs (st from) <$> sl)
                 (gather_events 0 sl) w).
Proof.
  intros (Hb & Hflag & Hkeep & Hfrom & Hto & Hval) Hfit sl.
  pose proof (@sizeofT_pos Data policy) as Hpos.
  pose proof Hb as (Hwf & HS & HR & HLS & HLR & Hplan).
  destruct (plan_buffers FORWARD source dest interface c Hplan)
    as [Hsize Hlen].
  assert (counts_in_range (if FORWARD then source else dest)
                          (gather_lists FORWARD interface)) as Hcr.
  { unfold gather_lists. by destruct FORWARD. }
  assert (Z.of_nat (length sl)
          = Zsum (map (elements (if FORWARD then source else dest))
                      (gather_lists FORWARD interface))) as Hsl.
  { subst sl. rewrite (all_slots_same_layout _ _ _ Hfrom).
    apply length_all_slots. apply Hcr. }
  assert (interface_ c = Some interface) as Hi by apply Hplan.
  unfold sendRecv. rewrite Hi. simpl.
  assert (MessageGatherer NDEBUG DUNE_ISTL_WITH_CHECKING FORWARD gs
            (comm_rank env) interface (st from)
            (if FORWARD then (buffers_ c).1 else (buffers_ c).2)
            (if FORWARD then (bufferSize_ c).1 else (bufferSize_ c).2)
          = Some (gathered gs (st from) <$> sl, gather_events 0 sl)) as Hg.
  { rewrite MessageGatherer_result; fold sl.
    - f_equal. f_equal. apply list_inserts_all.
      rewrite length_fmap, Hlen, <- Hsl. lia.
    - done.
    - unfold gather_lists. by destruct FORWARD.
    - rewrite Hsize, Hsl. lia.
    - rewrite Hsize. apply Hcr.
    - rewrite Hlen, <- Hsl. lia. }
  assert (Forall (λ info : Z * (MessageInformation * MessageInformation),
                    (size_ info.2.1 <= int_max ∧ size_ info.2.2 <= int_max)
                    ∧ (∃ n, slab_ok (gathered gs (st from) <$> sl)
                              (if FORWARD then (bufferSize_ c).1
                               else (bufferSize_ c).2)
                              (if FORWARD then info.2.1 else info.2.2) n)
                    ∧ ∃ n, slab_ok (recv_buffer FORWARD c)
                             (if FORWARD then (bufferSize_ c).2
                              else (bufferSize_ c).1)
                             (if FORWARD then info.2.2 else info.2.1) n)
                 (messageInformation_ c)) as Hall.
  { apply Forall_lookup. intros i info Hinfo.
    destruct (plan_entry_dir FORWARD c interface source dest i info Hb Hinfo)
      as (e & _ & _ & _ & _ & Hs1 & Hs2).
    unfold counts_fit_int in Hfit. rewrite Forall_lookup in Hfit.
    split; [exact (Hfit i info Hinfo)|].
    split; eexists; [|exact Hs2].
    destruct Hs1 as (? & ? & ? & ? & ? & ?).
    assert (length (gathered gs (st from) <$> sl)
            = length (if FORWARD then (buffers_ c).1 else (buffers_ c).2))
      as Hl.
    { rewrite length_fmap, Hlen, <- Hsl. lia. }
    unfold slab_ok. rewrite Hl. by split_and!. }
  destruct FORWARD; simpl in *; rewrite Hg; simpl.
  - rewrite (post_receives_result NDEBUG true); simpl.
    2:{ eapply Forall_impl; [exact Hall|].
        intros info ([_ ?] & _ & n & ? & ? & ? & ? & ? & ?). simpl in *.
        split_and!; try done; nia. }
    rewrite (post_sends_result NDEBUG true); simpl.
    2:{ eapply Forall_impl; [exact Hall|]. by intros info ([? _] & ? & _). }
    destruct (foldlM _ _ _) as [w|]; simpl; [|done].
    rewrite wait_loop. simpl.
    unfold finish, irecv_events, issend_events, wait_events.
    by rewrite Hi.
  - rewrite (post_receives_result NDEBUG false); simpl.
    2:{ eapply Forall_impl; [exact Hall|].
        intros info ([? _] & _ & n & ? & ? & ? & ? & ? & ?). simpl in *.
        split_and!; try done; nia. }
    rewrite (post_sends_result NDEBUG false); simpl.
    2:{ eapply Forall_impl; [exact Hall|]. by intros info ([_ ?] & ? & _). }
    destruct (foldlM _ _ _) as [w|]; simpl; [|done].
    rewrite wait_loop. simpl.
    unfold finish, irecv_events, issend_events, wait_events.
    by rewrite Hi.
Qed.

End SendRecvFacts.

Section SendRecvTheorems.

Context {Data : Type} `{policy : CommPolicy Data}.
Variable indeterminate : IndexedType.
Variable NDEBUG DUNE_ISTL_WITH_CHECKING : bool.

Lemma build_built (c : BufferedCommunicator) (source dest : Data) interface :
  StdMap.wf (interfaces interface) →
  messageInformation_ c = StdMap.empty →
  counts_in_range source (send_lists interface) →
  counts_in_range dest (recv_lists interface) →
  lists_in_range (send_lists interface) →
  lists_in_range (recv_lists interface) →
  built (build indeterminate c source dest interface) interface source dest.
Proof.
  intros Hwf Hmi HS HR HLS HLR. unfold built. split_and!; try done.
  apply (plan_is_plan indeterminate). by apply build_is_plan.
Qed.

Lemma sendRecv_trace (FORWARD : bool) (gs : GatherScatter Data)
    (c : BufferedCommunicator) interface (source dest : Data) env
    (st : store Data) (from to : ref) :
  exchange_ok FORWARD gs c interface source dest env st from to →
  counts_fit_int c →
  let sl := all_slots (st from) (gather_lists FORWARD interface) in
  ∃ w,
    sendRecv NDEBUG DUNE_ISTL_WITH_CHECKING FORWARD gs c env st from to
    = Some (finish FORWARD c interface env (gathered gs (st from) <$> sl)
                   (gather_events 0 sl) w)
    ∧ rs_trace w
      = seq 0 (length (messageInformation_ c))
        ≫= receive_block FORWARD interface (messageInformation_ c)
             (if FORWARD then dest else source) env
             (comm_rank env MPI_COMM_WORLD)
    ∧ rs_success w
      = (if bool_decide
              (Forall (λ k, (waitany env k).2 = MPI_SUCCESS)
                      (seq 0 (length (messageInformation_ c))))
         then 1 else 0)
    ∧ ∀ r, r ≠ to → rs_store w r = st r.
Proof.
  intros Hok Hfit sl.
  rewrite (sendRecv_unfold NDEBUG DUNE_ISTL_WITH_CHECKING FORWARD gs c
             interface source dest env st from to Hok Hfit).
  destruct Hok as (Hb & Hflag & Hkeep & Hfrom & Hto & Hval).
  destruct (receive_loop NDEBUG FORWARD gs c interface source dest env to
              (comm_rank env MPI_COMM_WORLD) Hb Hfit Hflag Hkeep
              (seq 0 (length (messageInformation_ c)))
              {| rs_store := st;
                 rs_recvBuffer := if FORWARD then (buffers_ c).2
                                  else (buffers_ c).1;
                 rs_success := 1; rs_finished := None; rs_trace := [] |})
    as (w & Hw & _ & _ & Htr & Hsucc & Hst); try done.
  - intros k Hk. apply elem_of_seq in Hk.
    apply Hval. rewrite <- (plan_length c interface source dest Hb). lia.
  - exists w. rewrite Hw. by split_and!.
Qed.


End SendRecvTheorems.

(** ** The datatype communicator *)

Section DatatypeTheorems.

(** The persistent requests [createRequests] sets up for one direction. *)
Definition receive_requests (createForward : bool) (comm : Z)
    (types : Datatype.MessageTypeMap) (receiveData : ref)
  : list MPI_Request :=
  (λ process : Z * (MPI_Datatype * MPI_Datatype),
     {| req_kind := Recv_init;
        req_address := receiveData;
        req_count := 1;
        req_type := if createForward then process.2.2 else process.2.1;
        req_peer := process.1;
        req_tag := Datatype.commTag_;
        req_comm := comm |}) <$> types.

Definition send_requests (createForward : bool) (comm : Z)
    (types : Datatype.MessageTypeMap) (sendData : ref)
  : list MPI_Request :=
  (λ process : Z * (MPI_Datatype * MPI_Datatype),
     {| req_kind := Ssend_init;
        req_address := sendData;
        req_count := 1;
        req_type := if createForward then process.2.1 else process.2.2;
        req_peer := process.1;
        req_tag := Datatype.commTag_;
        req_comm := comm |}) <$> types.


Lemma can_free_new : can_free Datatype.DatatypeCommunicator_new.
Proof. by left. Qed.

Lemma can_free_free c : can_free c → is_Some (Datatype.free c).
Proof.
  intros [H|(r0 & r1 & H)]; unfold Datatype.free.
  - by rewrite H.
  - destruct (Datatype.created_ c); [|done]. by rewrite H.
Qed.

Lemma datatype_build rank_of c0 comm types sendData receiveData :
  can_free c0 →
  Datatype.build rank_of c0 comm types sendData receiveData
  = Some {| Datatype.remoteIndices_ := Some comm;
            Datatype.messageTypes := types;
            Datatype.requests_ :=
              (Datatype.Array
                 (receive_requests false comm types sendData
                  ++ send_requests false comm types receiveData),
               Datatype.Array
                 (receive_requests true comm types receiveData
                  ++ send_requests true comm types sendData));
            Datatype.created_ := true |}.
Proof.
  intros [H|(r0 & r1 & H)];
    unfold Datatype.build, Datatype.createRequests, Datatype.free;
    cbn [Datatype.created_ Datatype.requests_ Datatype.remoteIndices_
         Datatype.messageTypes].
  - by rewrite H.
  - rewrite H. by destruct (Datatype.created_ c0).
Qed.

Lemma datatype_build_inv rank_of c0 comm types sendData receiveData c :
  Datatype.build rank_of c0 comm types sendData receiveData = Some c →
  c = {| Datatype.remoteIndices_ := Some comm;
         Datatype.messageTypes := types;
         Datatype.requests_ :=
           (Datatype.Array
              (receive_requests false comm types sendData
               ++ send_requests false comm types receiveData),
            Datatype.Array
              (receive_requests true comm types receiveData
               ++ send_requests true comm types sendData));
         Datatype.created_ := true |}.
Proof.
  unfold Datatype.build, Datatype.free.
  cbn [Datatype.created_ Datatype.requests_ Datatype.remoteIndices_
       Datatype.messageTypes].
  intros Hb.
  destruct (Datatype.created_ c0);
    [destruct (Datatype.delete (Datatype.requests_ c0).1); [|done];
     destruct (Datatype.delete (Datatype.requests_ c0).2); [|done]|];
    cbn in Hb; by injection Hb as <-.
Qed.

Lemma can_free_build rank_of c0 comm types sendData receiveData c :
  Datatype.build rank_of c0 comm types sendData receiveData = Some c →
  can_free c.
Proof. intros ->%datatype_build_inv. right. by eexists _, _. Qed.



End DatatypeTheorems.

(** ** The plan after an exchange *)

Section FrameFacts.

Context {Data : Type} `{policy : CommPolicy Data}.
Variable NDEBUG DUNE_ISTL_WITH_CHECKING : bool.

(** An exchange leaves the plan as it is. *)
Lemma sendRecv_keeps_information (FORWARD : bool) (gs : GatherScatter Data)
    (c : BufferedCommunicator) env (st : store Data) (from to : ref) r :
  sendRecv NDEBUG DUNE_ISTL_WITH_CHECKING FORWARD gs c env st from to
  = Some r →
  messageInformation_ (res_comm r) = messageInformation_ c.
Proof.
  unfold sendRecv. intros Hrun.
  destruct FORWARD;
    (destruct (interface_ c) as [interface|]; simpl in Hrun; [|done];
     destruct (MessageGatherer _ _ _ _ _ _ _ _ _) as [g|];
       simpl in Hrun; [|done];
     destruct (foldlM (post_receive _ _ _ _) _ _) as [rc|];
       simpl in Hrun; [|done];
     destruct (foldlM (post_send _ _ _ _ _) _ _) as [p|];
       simpl in Hrun; [|done];
     destruct (foldlM (receive_one _ _ _ _ _ _ _ _ _ _) _ _) as [w|];
       simpl in Hrun; [|done];
     destruct (fold_left _ _ _) as [success tr_wait];
     by injection Hrun as <-).
Qed.

Lemma sendRecv_keeps_fit (FORWARD : bool) (gs : GatherScatter Data)
    (c : BufferedCommunicator) env (st : store Data) (from to : ref) r :
  sendRecv NDEBUG DUNE_ISTL_WITH_CHECKING FORWARD gs c env st from to
  = Some r →
  counts_fit_int c → counts_fit_int (res_comm r).
Proof.
  intros Hrun Hfit. unfold counts_fit_int.
  by rewrite (sendRecv_keeps_information _ _ _ _ _ _ _ _ Hrun).
Qed.

End FrameFacts.

(** ** The rank queries *)

Section RankTheorems.

Context {Data : Type} `{policy : CommPolicy Data}.
Variable indeterminate : IndexedType.
Variable NDEBUG DUNE_ISTL_WITH_CHECKING : bool.

Lemma foldlM_rel {A B} (R : A → A → Prop) (f g : A → B → option A) l :
  (∀ a a' b, R a a' → option_Forall2 R (f a b) (g a' b)) →
  ∀ a a', R a a' → option_Forall2 R (foldlM f a l) (foldlM g a' l).
Proof.
  intros Hstep. induction l as [|b l IH]; intros a a' Ha; simpl.
  { by constructor. }
  destruct (Hstep a a' b Ha) as [a1 a1' H1|]; simpl; [by apply IH|].
  constructor.
Qed.

Definition rs_same (s1 s2 : recv_state) : Prop :=
  rs_store s1 = rs_store s2 ∧ rs_recvBuffer s1 = rs_recvBuffer s2 ∧
  rs_success s1 = rs_success s2 ∧ rs_finished s1 = rs_finished s2 ∧
  erase_rank <$> rs_trace s1 = erase_rank <$> rs_trace s2.

Lemma receive_one_rank (FORWARD : bool) (gs : GatherScatter Data) mi
    interface env (to : ref) processMap recvBufferSize rank1 rank2 s1 s2 k :
  rs_same s1 s2 →
  option_Forall2 rs_same
    (receive_one NDEBUG FORWARD gs mi interface env to processMap
                 recvBufferSize rank1 s1 k)
    (receive_one NDEBUG FORWARD gs mi interface env to processMap
                 recvBufferSize rank2 s2 k).
Proof.
  destruct s1 as [st1 b1 su1 f1 tr1], s2 as [st2 b2 su2 f2 tr2].
  intros (Hst & Hb & Hsu & Hf & Htr). simpl in *. subst st2 b2 su2 f2.
  unfold receive_one. destruct (waitany env k) as [finished error]. simpl.
  destruct finished as [i|]; simpl; [|constructor].
  destruct (processMap !! i) as [proc|]; simpl; [|constructor].
  case_bool_decide.
  - destruct (StdMap.find proc mi) as [infoIter|]; simpl; [|constructor].
    destruct (assert _ _); simpl; [|constructor].
    destruct (MPI_count _); simpl; [|constructor].
    destruct (deliver _ _ _ _); simpl; [|constructor].
    destruct (MessageScatterer _ _ _ _ _ _ _); simpl; constructor.
    unfold rs_same. simpl. split_and!; try done.
    by rewrite !fmap_app, Htr.
  - constructor. unfold rs_same. simpl. split_and!; try done.
    by rewrite !fmap_app, Htr.
Qed.

Lemma MessageGatherer_rank (FORWARD : bool) (gs : GatherScatter Data)
    rank_of1 rank_of2 interface data buffer bufferSize :
  MessageGatherer NDEBUG DUNE_ISTL_WITH_CHECKING FORWARD gs rank_of1
                  interface data buffer bufferSize
  = MessageGatherer NDEBUG DUNE_ISTL_WITH_CHECKING FORWARD gs rank_of2
                    interface data buffer bufferSize.
Proof. by destruct gs. Qed.

Lemma wait_events_rank env rank1 rank2 blame n :
  erase_rank <$> wait_events env rank1 blame n
  = erase_rank <$> wait_events env rank2 blame n.
Proof.
  unfold wait_events. induction (seq 0 n) as [|i l IH]; [done|].
  change ((i :: l) ≫= ?f) with (f i ++ (l ≫= f)). cbv beta.
  rewrite !fmap_app, IH. f_equal. by case_bool_decide.
Qed.

(** C8: the ranks the buffered communicator queries in [build], in the
    gatherer and in [sendRecv] do not influence the exchange: two runs that
    differ only in what the rank queries answer build the same plan, fill
    the same send buffer, and end alike with the same buffers, the same
    containers, the same flags and the same trace (so the same posted
    messages) up to the rank printed on [std::cerr]. *)
Theorem rank_queries_do_not_influence_exchange
    (FORWARD : bool) (gs : GatherScatter Data)
    (c0 c : BufferedCommunicator) (interface : Interface)
    (env1 env2 : mpi_env) (st : store Data) (from to : ref)
    (data : Data) (buffer : list IndexedType) (bufferSize : Z) :
  waitany env1 = waitany env2 →
  payload env1 = payload env2 →
  wait env1 = wait env2 →
  allreduce_min env1 = allreduce_min env2 →
  build_SizeOne indeterminate (comm_rank env1) c0 interface
  = build_SizeOne indeterminate (comm_rank env2) c0 interface
  ∧ MessageGatherer NDEBUG DUNE_ISTL_WITH_CHECKING FORWARD gs
                    (comm_rank env1) interface data buffer bufferSize
    = MessageGatherer NDEBUG DUNE_ISTL_WITH_CHECKING FORWARD gs
                      (comm_rank env2) interface data buffer bufferSize
  ∧ option_Forall2 same_but_rank
      (sendRecv NDEBUG DUNE_ISTL_WITH_CHECKING FORWARD gs c env1 st from to)
      (sendRecv NDEBUG DUNE_ISTL_WITH_CHECKING FORWARD gs c env2 st from to).
Proof.
  destruct env1 as [cr1 wa1 pl1 wt1 ar1], env2 as [cr2 wa2 pl2 wt2 ar2].
  simpl. intros <- <- <- <-.
  split; [done|]. split; [apply MessageGatherer_rank|].
  unfold sendRecv. simpl.
  assert (∀ (sendBuffer : list IndexedType) sendBufferSize recvBuffer
            recvBufferSize,
    option_Forall2 same_but_rank
      (interface_ c ≫= λ interface,
       MessageGatherer NDEBUG DUNE_ISTL_WITH_CHECKING FORWARD gs cr1
         interface (st from) sendBuffer sendBufferSize ≫= λ g,
       foldlM (post_receive NDEBUG FORWARD (communicator interface)
                 recvBufferSize) ([], []) (messageInformation_ c) ≫= λ r,
       foldlM (post_send NDEBUG FORWARD (communicator interface) g.1
                 sendBufferSize) (0%nat, []) (messageInformation_ c) ≫= λ p,
       foldlM (receive_one NDEBUG FORWARD gs (messageInformation_ c)
                 interface
                 {| comm_rank := cr1; waitany := wa1; payload := pl1;
                    wait := wt1; allreduce_min := ar1 |}
                 to r.1 recvBufferSize (cr1 MPI_COMM_WORLD))
              {| rs_store := st; rs_recvBuffer := recvBuffer;
                 rs_success := 1; rs_finished := None; rs_trace := [] |}
              (seq 0 (length (messageInformation_ c))) ≫= λ w,
       let '(success, tr_wait) :=
         fold_left (wait_one
                      {| comm_rank := cr1; waitany := wa1; payload := pl1;
                         wait := wt1; allreduce_min := ar1 |}
                      (cr1 MPI_COMM_WORLD) r.1 (rs_finished w))
                   (seq 0 (length (messageInformation_ c)))
                   (rs_success w, []) in
       Some {| res_comm :=
                 {| messageInformation_ := messageInformation_ c;
                    buffers_ := if FORWARD then (g.1, rs_recvBuffer w)
                                else (rs_recvBuffer w, g.1);
                    bufferSize_ := bufferSize_ c;
                    interface_ := interface_ c |};
               res_store := rs_store w;
               res_trace :=
                 g.2 ++ r.2 ++ p.2 ++ rs_trace w ++ tr_wait
                 ++ [EvAllreduce_MIN success (communicator interface)
                                     (ar1 success)]
                 ++ (if bool_decide (ar1 success = 0)
                     then [EvThrow_CommunicationError] else []);
               res_success := success;
               res_globalSuccess := ar1 success;
               res_thrown := bool_decide (ar1 success = 0) |})
      (interface_ c ≫= λ interface,
       MessageGatherer NDEBUG DUNE_ISTL_WITH_CHECKING FORWARD gs cr2
         interface (st from) sendBuffer sendBufferSize ≫= λ g,
       foldlM (post_receive NDEBUG FORWARD (communicator interface)
                 recvBufferSize) ([], []) (messageInformation_ c) ≫= λ r,
       foldlM (post_send NDEBUG FORWARD (communicator interface) g.1
                 sendBufferSize) (0%nat, []) (messageInformation_ c) ≫= λ p,
       foldlM (receive_one NDEBUG FORWARD gs (messageInformation_ c)
                 interface
                 {| comm_rank := cr2; waitany := wa1; payload := pl1;
                    wait := wt1; allreduce_min := ar1 |}
                 to r.1 recvBufferSize (cr2 MPI_COMM_WORLD))
              {| rs_store := st; rs_recvBuffer := recvBuffer;
                 rs_success := 1; rs_finished := None; rs_trace := [] |}
              (seq 0 (length (messageInformation_ c))) ≫= λ w,
       let '(success, tr_wait) :=
         fold_left (wait_one
                      {| comm_rank := cr2; waitany := wa1; payload := pl1;
                         wait := wt1; allreduce_min := ar1 |}
                      (cr2 MPI_COMM_WORLD) r.1 (rs_finished w))
                   (seq 0 (length (messageInformation_ c)))
                   (rs_success w, []) in
       Some {| res_comm :=
                 {| messageInformation_ := messageInformation_ c;
                    buffers_ := if FORWARD then (g.1, rs_recvBuffer w)
                                else (rs_recvBuffer w, g.1);
                    bufferSize_ := bufferSize_ c;
                    interface_ := interface_ c |};
               res_store := rs_store w;
               res_trace :=
                 g.2 ++ r.2 ++ p.2 ++ rs_trace w ++ tr_wait
                 ++ [EvAllreduce_MIN success (communicator interface)
                                     (ar1 success)]
                 ++ (if bool_decide (ar1 success = 0)
                     then [EvThrow_CommunicationError] else []);
               res_success := success;
               res_globalSuccess := ar1 success;
               res_thrown := bool_decide (ar1 success = 0) |})) as Hgen.
  { intros sendBuffer sendBufferSize recvBuffer recvBufferSize.
    destruct (interface_ c) as [interface'|]; simpl; [|constructor].
    rewrite (MessageGatherer_rank FORWARD gs cr1 cr2).
    destruct (MessageGatherer _ _ _ _ _ _ _ _ _) as [g|]; simpl;
      [|constructor].
    destruct (foldlM (post_receive _ _ _ _) _ _) as [r|]; simpl;
      [|constructor].
    destruct (foldlM (post_send _ _ _ _ _) _ _) as [p|]; simpl;
      [|constructor].
    match goal with
    | |- option_Forall2 _ (foldlM ?f ?s0 ?l ≫= _) (foldlM ?g ?s0 ?l ≫= _) =>
        assert (option_Forall2 rs_same (foldlM f s0 l) (foldlM g s0 l))
          as Hloop
    end.
    { apply foldlM_rel; [|by split_and!].
      intros a a' b Ha.
      apply (receive_one_rank FORWARD gs (messageInformation_ c) interface'
               {| comm_rank := cr1; waitany := wa1; payload := pl1;
                  wait := wt1; allreduce_min := ar1 |} to r.1
               recvBufferSize (cr1 MPI_COMM_WORLD) (cr2 MPI_COMM_WORLD)
               a a' b Ha). }
    destruct Hloop as [w1 w2 (Hst & Hb & Hsu & Hfi & Htr)|]; simpl.
    - rewrite !wait_loop. simpl. rewrite Hsu, Hfi, Hb, Hst.
      constructor. unfold same_but_rank. simpl. split_and!; try done.
      rewrite !fmap_app, Htr. do 5 f_equal.
      exact (wait_events_rank
               {| comm_rank := cr1; waitany := wa1; payload := pl1;
                  wait := wt1; allreduce_min := ar1 |}
               (cr1 MPI_COMM_WORLD) (cr2 MPI_COMM_WORLD)
               (rs_finished w2 ≫= (r.1 !!.))
               (length (messageInformation_ c))).
    - constructor. }
  destruct FORWARD; apply Hgen.
Qed.

End RankTheorems.

(** ** Errors *)

Section ErrorTheorems.

Context {Data : Type} `{policy : CommPolicy Data}.
Variable NDEBUG DUNE_ISTL_WITH_CHECKING : bool.







End ErrorTheorems.

(** ** The round trip *)

Section TransportFacts.

Context {Data : Type} `{policy : CommPolicy Data}.
Variable NDEBUG DUNE_ISTL_WITH_CHECKING : bool.

Definition not_issend (e : event) : Prop :=
  match e with EvIssend _ _ _ _ _ _ _ _ => False | _ => True end.

Lemma sent_to_app q (l1 l2 : list event) :
  sent_to q (l1 ++ l2)
  = match sent_to q l1 with Some m => Some m | None => sent_to q l2 end.
Proof.
  induction l1 as [|e l1 IH]; [done|]. simpl.
  destruct e; try done. by destruct (_ =? _).
Qed.

Lemma sent_to_imap_other {A} q (l : list A) : ∀ (f : nat → A → event),
  (∀ i a, not_issend (f i a)) → sent_to q (imap f l) = None.
Proof.
  induction l as [|a l IH]; intros f Hf; [done|].
  rewrite imap_cons. simpl. specialize (Hf 0%nat a) as Hfa.
  destruct (f 0%nat a); try done; apply IH; intros i b; apply Hf.
Qed.

Lemma sent_to_issend (FORWARD : bool) comm sendBuffer
    (mi : InformationMap) : ∀ (h : nat → nat) (i : nat) info,
  StronglySorted Z.lt (StdMap.keys mi) →
  mi !! i = Some info →
  sent_to info.1
    (imap (λ j (info' : Z * (MessageInformation * MessageInformation)),
             let m := if FORWARD then info'.2.1 else info'.2.2 in
             EvIssend (start_ m) (size_ m) MPI_BYTE info'.1 commTag_ comm
                      (h j)
                      (take (Z.to_nat (size_ m / sizeofT))
                            (drop (Z.to_nat (start_ m)) sendBuffer)))
          mi)
  = Some (let m := if FORWARD then info.2.1 else info.2.2 in
          take (Z.to_nat (size_ m / sizeofT))
               (drop (Z.to_nat (start_ m)) sendBuffer)).
Proof.
  induction mi as [|info0 mi IH]; intros h i info Hs Hi; [done|].
  unfold StdMap.keys in *. simpl in Hs.
  apply StronglySorted_inv in Hs as [Hs Hlt].
  rewrite imap_cons. cbn [sent_to].
  destruct i as [|i]; simpl in Hi.
  - injection Hi as ->. by rewrite Z.eqb_refl.
  - assert (info0.1 < info.1) as Hne.
    { rewrite Forall_forall in Hlt. apply Hlt.
      apply list_elem_of_fmap. exists info. split; [done|].
      by eapply list_elem_of_lookup_2. }
    destruct (Z.eqb_spec info0.1 info.1) as [Heq|_]; [lia|].
    by apply (IH (h ∘ S) i info).
Qed.

Lemma bind_block {A B} (f : A → list B) (ls : list A) (i : nat) a :
  ls !! i = Some a →
  take (length (f a)) (drop (length (take i ls ≫= f)) (ls ≫= f)) = f a.
Proof.
  intros Hi. rewrite <- (take_drop_middle ls i a Hi) at 2.
  rewrite bind_app, bind_cons.
  by rewrite drop_app_length, take_app_length.
Qed.

(** What a process posts for a peer is what it gathered from the list of
    that peer. *)
Lemma posted_message (FORWARD : bool) (gs : GatherScatter Data)
    (c : BufferedCommunicator) interface (source dest : Data) env
    (st : store Data) (from to : ref) (i : nat) e :
  exchange_ok FORWARD gs c interface source dest env st from to →
  counts_fit_int c →
  interfaces interface !! i = Some e →
  ∃ r,
    sendRecv NDEBUG DUNE_ISTL_WITH_CHECKING FORWARD gs c env st from to
    = Some r
    ∧ sent_to e.1 (res_trace r)
      = Some (gathered gs (st from)
                <$> slots (st from) (if FORWARD then e.2.1 else e.2.2)).
Proof.
  intros Hok Hfit He.
  destruct (sendRecv_trace NDEBUG DUNE_ISTL_WITH_CHECKING FORWARD gs c
              interface source dest env st from to Hok Hfit)
    as (w & Hrun & _).
  exists (finish FORWARD c interface env
            (gathered gs (st from)
               <$> all_slots (st from) (gather_lists FORWARD interface))
            (gather_events 0
               (all_slots (st from) (gather_lists FORWARD interface))) w).
  split; [exact Hrun|].
  destruct Hok as (Hb & Hflag & Hkeep & Hfrom & _).
  pose proof (@sizeofT_pos Data policy) as Hpos.
  pose proof Hb as (Hwf & HS & HR & _ & _ & Hplan).
  pose proof Hplan as (Hkeys & Hlook & _).
  specialize (Hlook i e He).
  unfold finish. cbn [res_trace].
  rewrite sent_to_app.
  unfold gather_events at 1. rewrite sent_to_imap_other by done.
  rewrite sent_to_app.
  unfold irecv_events. rewrite sent_to_imap_other by done.
  rewrite sent_to_app.
  unfold issend_events.
  erewrite (sent_to_issend FORWARD _ _ _ (λ j, j) i (e.1, _));
    [|unfold StdMap.wf in Hwf; by rewrite Hkeys|exact Hlook].
  f_equal. cbn [fst snd].
  rewrite (all_slots_same_layout _ _ _ Hfrom).
  assert (slots (st from) (if FORWARD then e.2.1 else e.2.2)
          = slots (if FORWARD then source else dest)
                  (if FORWARD then e.2.1 else e.2.2)) as ->.
  { apply slots_same_layout. intros HF. specialize (Hfrom HF).
    rewrite Forall_forall in Hfrom. apply Hfrom.
    apply (list_elem_of_lookup_2 _ i).
    unfold gather_lists, send_lists, recv_lists.
    destruct FORWARD; by rewrite map_lookup, He. }
  unfold all_slots, gather_lists.
  rewrite <- fmap_drop, <- fmap_take. f_equal.
  destruct FORWARD; cbn [start_ size_].
  - destruct HS as (Hnn & _).
    assert (send_lists interface !! i = Some e.2.1) as Hli
      by (unfold send_lists; by rewrite map_lookup, He).
    rewrite Z.div_mul by lia.
    rewrite firstn_map.
    rewrite <- (length_all_slots source (take i (send_lists interface)))
      by (intros HF; apply Forall_take; auto).
    rewrite <- (length_slots source e.2.1)
      by (intros HF; specialize (Hnn HF); rewrite Forall_forall in Hnn;
          apply Hnn; by eapply list_elem_of_lookup_2).
    rewrite !Nat2Z.id. by apply bind_block.
  - destruct HR as (Hnn & _).
    assert (recv_lists interface !! i = Some e.2.2) as Hli
      by (unfold recv_lists; by rewrite map_lookup, He).
    rewrite Z.div_mul by lia.
    rewrite firstn_map.
    rewrite <- (length_all_slots dest (take i (recv_lists interface)))
      by (intros HF; apply Forall_take; auto).
    rewrite <- (length_slots dest e.2.2)
      by (intros HF; specialize (Hnn HF); rewrite Forall_forall in Hnn;
          apply Hnn; by eapply list_elem_of_lookup_2).
    rewrite !Nat2Z.id. by apply bind_block.
Qed.

End TransportFacts.

Section ReceiveFacts.

Context {Data : Type} `{policy : CommPolicy Data}.
Variable NDEBUG DUNE_ISTL_WITH_CHECKING : bool.

(** The container after the k-th completion of a clean exchange: the
    message of the completed peer scattered over the peer's list. *)
Definition delivered (FORWARD : bool) (gs : GatherScatter Data)
    (interface : Interface) (rep : Data) (env : mpi_env) (d : Data)
    (k : nat) : Data :=
  match (waitany env k).1 ≫= (interfaces interface !!.) with
  | Some e =>
      let sl := slots rep (if FORWARD then e.2.2 else e.2.1) in
      scattered gs d sl (take (length sl) (payload env e.1))
  | None => d
  end.

Lemma slab_of_inserts {X} (i : nat) (k l : list X) :
  (i + length k ≤ length l)%nat →
  take (length k) (drop i (list_inserts i k l)) = k.
Proof.
  intros Hlen. apply list_eq. intros j.
  destruct (decide (j < length k)%nat) as [Hj|Hj].
  - rewrite lookup_take_lt, lookup_drop by done.
    rewrite list_lookup_inserts by lia. f_equal. lia.
  - rewrite lookup_take_ge by lia. symmetry. apply lookup_ge_None. lia.
Qed.

Lemma receive_loop_clean (FORWARD : bool) (gs : GatherScatter Data)
    (c : BufferedCommunicator) interface (source dest : Data) env
    (to : ref) rank :
  built c interface source dest →
  counts_fit_int c →
  flag_of gs = Flag →
  scatter_keeps_layout gs →
  (∀ i e, interfaces interface !! i = Some e →
     (length (slots (if FORWARD then dest else source)
                    (if FORWARD then e.2.2 else e.2.1))
      ≤ length (payload env e.1))%nat) →
  ∀ (ks : list nat) (s : recv_state),
  (∀ k, k ∈ ks → ∃ i, (waitany env k).1 = Some i
                      ∧ (i < length (interfaces interface))%nat) →
  Forall (λ k, (waitany env k).2 = MPI_SUCCESS) ks →
  length (rs_recvBuffer s)
  = length (if FORWARD then (buffers_ c).2 else (buffers_ c).1) →
  same_layout (rs_store s to) (if FORWARD then dest else source)
              (scatter_lists FORWARD interface) →
  ∃ w,
    foldlM (receive_one NDEBUG FORWARD gs (messageInformation_ c) interface
                        env to (StdMap.keys (messageInformation_ c))
                        (if FORWARD then (bufferSize_ c).2
                         else (bufferSize_ c).1) rank) s ks = Some w
    ∧ rs_store w to
      = fold_left (delivered FORWARD gs interface
                             (if FORWARD then dest else source) env)
                  ks (rs_store s to).
Proof.
  intros Hb Hfit Hflag Hkeep Hpay.
  induction ks as [|k ks IH]; intros s Hval Hok Hlen Hsame.
  { by exists s. }
  rewrite Forall_cons in Hok. destruct Hok as [Hk Hok].
  destruct (Hval k) as (i & Hfin & Hi); [by left|].
  destruct (lookup_lt_is_Some_2 (interfaces interface) i Hi) as [e He].
  destruct (lookup_lt_is_Some_2 (messageInformation_ c) i) as [info Hinfo].
  { by rewrite (plan_length c interface source dest Hb). }
  simpl foldlM.
  rewrite (receive_one_result NDEBUG FORWARD gs c interface source dest env
             to rank s k i e info) by done.
  rewrite (bool_decide_eq_true_2 _ Hk). simpl.
  destruct (plan_entry_dir FORWARD c interface source dest i info Hb Hinfo)
    as (e' & He' & _ & _ & _ & _ & Hslab).
  rewrite He in He'. injection He' as <-.
  destruct Hslab as (H0 & Hn & _ & Hin & _).
  assert (Z.of_nat (length (slots (if FORWARD then dest else source)
                                  (if FORWARD then e.2.2 else e.2.1)))
          = elements (if FORWARD then dest else source)
                     (if FORWARD then e.2.2 else e.2.1)) as Hsl.
  { apply length_slots. intros HF.
    assert (counts_in_range (if FORWARD then dest else source)
                            (scatter_lists FORWARD interface)) as (Hnn & _).
    { destruct Hb as (_ & HS & HR & _). by destruct FORWARD. }
    specialize (Hnn HF). rewrite Forall_forall in Hnn. apply Hnn.
    by eapply scatter_list_elem. }
  specialize (Hpay i e He).
  match goal with |- context [foldlM _ ?s' ks] =>
    destruct (IH s') as (w & Hw & Hwst)
  end; simpl.
  - intros k' Hk'. apply Hval. by right.
  - done.
  - by rewrite length_inserts.
  - unfold same_layout. rewrite fn_lookup_insert.
    intros HF. specialize (Hsame HF).
    eapply Forall_impl; [exact Hsame|]. intros l Hl.
    eapply Forall_impl; [exact Hl|]. intros x Hx. simpl in *.
    rewrite <- Hx. apply scattered_getSize; [done|by rewrite Hflag].
  - exists w. split; [exact Hw|]. rewrite Hwst. simpl.
    rewrite fn_lookup_insert. f_equal.
    unfold delivered. rewrite Hfin. simpl. rewrite He. simpl. f_equal.
    set (sl := slots _ _) in *.
    assert (length (take (length sl) (payload env e.1)) = length sl) as Hl
      by (rewrite length_take; lia).
    rewrite <- Hl at 1. apply slab_of_inserts. rewrite Hl, Hlen. lia.
Qed.

(** A clean exchange leaves in the receiving container the messages
    scattered in the order of their completion. *)
Lemma sendRecv_clean (FORWARD : bool) (gs : GatherScatter Data)
    (c : BufferedCommunicator) interface (source dest : Data) env
    (st : store Data) (from to : ref) :
  exchange_ok FORWARD gs c interface source dest env st from to →
  counts_fit_int c →
  (∀ i e, interfaces interface !! i = Some e →
     (length (slots (if FORWARD then dest else source)
                    (if FORWARD then e.2.2 else e.2.1))
      ≤ length (payload env e.1))%nat) →
  Forall (λ k, (waitany env k).2 = MPI_SUCCESS)
         (seq 0 (length (interfaces interface))) →
  ∃ r,
    sendRecv NDEBUG DUNE_ISTL_WITH_CHECKING FORWARD gs c env st from to
    = Some r
    ∧ res_store r to
      = fold_left (delivered FORWARD gs interface
                             (if FORWARD then dest else source) env)
                  (seq 0 (length (interfaces interface))) (st to)
    ∧ (∀ x, x ≠ to → res_store r x = st x)
    ∧ messageInformation_ (res_comm r) = messageInformation_ c
    ∧ bufferSize_ (res_comm r) = bufferSize_ c
    ∧ interface_ (res_comm r) = interface_ c
    ∧ length (buffers_ (res_comm r)).1 = length (buffers_ c).1
    ∧ length (buffers_ (res_comm r)).2 = length (buffers_ c).2.
Proof.
  intros Hok Hfit Hpay Hclean.
  rewrite (sendRecv_unfold NDEBUG DUNE_ISTL_WITH_CHECKING FORWARD gs c
             interface source dest env st from to Hok Hfit).
  destruct Hok as (Hb & Hflag & Hkeep & Hfrom & Hto & Hval).
  pose proof (plan_length c interface source dest Hb) as Hpl.
  rewrite Hpl.
  set (s0 := {| rs_store := st;
                rs_recvBuffer := if FORWARD then (buffers_ c).2
                                 else (buffers_ c).1;
                rs_success := 1; rs_finished := None; rs_trace := [] |}).
  assert (∀ k, k ∈ seq 0 (length (interfaces interface)) →
               ∃ i, (waitany env k).1 = Some i
                    ∧ (i < length (interfaces interface))%nat) as Hval'.
  { intros k Hk. apply elem_of_seq in Hk. apply Hval. lia. }
  destruct (receive_loop NDEBUG FORWARD gs c interface source dest env to
              (comm_rank env MPI_COMM_WORLD) Hb Hfit Hflag Hkeep
              (seq 0 (length (interfaces interface))) s0 Hval')
    as (w & Hw & Hwlen & _ & _ & _ & Hframe); [done|done|].
  destruct (receive_loop_clean FORWARD gs c interface source dest env to
              (comm_rank env MPI_COMM_WORLD) Hb Hfit Hflag Hkeep Hpay
              (seq 0 (length (interfaces interface))) s0 Hval' Hclean)
    as (w' & Hw' & Hstore); [done|done|].
  rewrite Hw in Hw'. injection Hw' as <-.
  rewrite Hw. simpl. eexists. split; [reflexivity|].
  unfold finish. cbn [res_store res_comm messageInformation_ bufferSize_
                      interface_ buffers_].
  split_and!; try done.
  - destruct FORWARD; cbn [fst]; [|done].
    pose proof Hb as (_ & (Hnn & _) & _ & _ & _ & Hplan).
    destruct (plan_buffers true source dest interface c Hplan) as [_ Hlen].
    cbn [gather_lists] in *.
    rewrite length_fmap, (all_slots_same_layout _ _ _ Hfrom).
    simpl in Hlen. rewrite Hlen.
    rewrite <- (length_all_slots source (send_lists interface) Hnn). lia.
  - destruct FORWARD; cbn [snd]; [done|].
    pose proof Hb as (_ & _ & (Hnn & _) & _ & _ & Hplan).
    destruct (plan_buffers false source dest interface c Hplan) as [_ Hlen].
    cbn [gather_lists] in *.
    rewrite length_fmap, (all_slots_same_layout _ _ _ Hfrom).
    simpl in Hlen. rewrite Hlen.
    rewrite <- (length_all_slots dest (recv_lists interface) Hnn). lia.
Qed.

End ReceiveFacts.

(** ** What an exchange leaves in the containers *)

Section ExchangeEffect.

Context {Data : Type} `{policy : CommPolicy Data}.
Variable NDEBUG DUNE_ISTL_WITH_CHECKING : bool.

(** The container after the k-th completion: the message of the completed
    peer is scattered when the receive succeeded, and nothing is written
    when it reported an error. *)
Definition delivered_if (FORWARD : bool) (gs : GatherScatter Data)
    (interface : Interface) (rep : Data) (env : mpi_env) (d : Data)
    (k : nat) : Data :=
  if bool_decide ((waitany env k).2 = MPI_SUCCESS)
  then delivered FORWARD gs interface rep env d k
  else d.

(** Every successful receive brought at least the elements of its slab. *)
Definition messages_complete (FORWARD : bool) (interface : Interface)
    (rep : Data) (env : mpi_env) : Prop :=
  ∀ (k i : nat) e,
    (waitany env k).1 = Some i → (waitany env k).2 = MPI_SUCCESS →
    interfaces interface !! i = Some e →
    (length (slots rep (if FORWARD then e.2.2 else e.2.1))
     ≤ length (payload env e.1))%nat.

Lemma delivered_getSize (FORWARD : bool) (gs : GatherScatter Data)
    interface (rep : Data) env (ks : list nat) :
  flag_of gs = Flag → scatter_keeps_layout gs → Flag = VariableSize →
  ∀ (d : Data) index,
    getSize (fold_left (delivered_if FORWARD gs interface rep env) ks d)
            index
    = getSize d index.
Proof.
  intros Hflag Hkeep HF.
  induction ks as [|k ks IH]; intros d index; [done|].
  cbn [fold_left]. rewrite IH. unfold delivered_if, delivered.
  case_bool_decide; [|done].
  destruct (_ ≫= _) as [e|]; [|done].
  apply scattered_getSize; [done|by rewrite Hflag].
Qed.

Lemma receive_loop_store (FORWARD : bool) (gs : GatherScatter Data)
    (c : BufferedCommunicator) interface (source dest : Data) env
    (to : ref) rank :
  built c interface source dest →
  counts_fit_int c →
  flag_of gs = Flag →
  scatter_keeps_layout gs →
  messages_complete FORWARD interface (if FORWARD then dest else source)
                    env →
  ∀ (ks : list nat) (s : recv_state),
  (∀ k, k ∈ ks → ∃ i, (waitany env k).1 = Some i
                      ∧ (i < length (interfaces interface))%nat) →
  length (rs_recvBuffer s)
  = length (if FORWARD then (buffers_ c).2 else (buffers_ c).1) →
  same_layout (rs_store s to) (if FORWARD then dest else source)
              (scatter_lists FORWARD interface) →
  ∃ w,
    foldlM (receive_one NDEBUG FORWARD gs (messageInformation_ c) interface
                        env to (StdMap.keys (messageInformation_ c))
                        (if FORWARD then (bufferSize_ c).2
                         else (bufferSize_ c).1) rank) s ks = Some w
    ∧ rs_store w to
      = fold_left (delivered_if FORWARD gs interface
                                (if FORWARD then dest else source) env)
                  ks (rs_store s to)
    ∧ rs_finished w
      = from_option (λ k, (waitany env k).1) (rs_finished s) (last ks).
Proof.
  intros Hb Hfit Hflag Hkeep Hpay.
  induction ks as [|k ks IH]; intros s Hval Hlen Hsame.
  { by exists s. }
  destruct (Hval k) as (i & Hfin & Hi); [by left|].
  destruct (lookup_lt_is_Some_2 (interfaces interface) i Hi) as [e He].
  destruct (lookup_lt_is_Some_2 (messageInformation_ c) i) as [info Hinfo].
  { by rewrite (plan_length c interface source dest Hb). }
  simpl foldlM.
  rewrite (receive_one_result NDEBUG FORWARD gs c interface source dest env
             to rank s k i e info) by done.
  assert (∀ k', k' ∈ ks → ∃ i, (waitany env k').1 = Some i
                              ∧ (i < length (interfaces interface))%nat)
    as Hval'.
  { intros k' Hk'. apply Hval. by right. }
  assert (∀ s' : recv_state,
            rs_finished s' = Some i →
            from_option (λ k, (waitany env k).1) (rs_finished s') (last ks)
            = from_option (λ k, (waitany env k).1) (rs_finished s)
                          (last (k :: ks))) as Hlast.
  { intros s' Hs'. rewrite last_cons, Hs'.
    destruct (last ks); simpl; [done|by rewrite Hfin]. }
  cbn [fold_left]. unfold delivered_if at 2.
  destruct (decide ((waitany env k).2 = MPI_SUCCESS)) as [Hk|Hk].
  - rewrite !(bool_decide_eq_true_2 _ Hk). simpl.
    destruct (plan_entry_dir FORWARD c interface source dest i info Hb Hinfo)
      as (e' & He' & _ & _ & _ & _ & Hslab).
    rewrite He in He'. injection He' as <-.
    destruct Hslab as (H0 & Hn & _ & Hin & _).
    assert (Z.of_nat (length (slots (if FORWARD then dest else source)
                                    (if FORWARD then e.2.2 else e.2.1)))
            = elements (if FORWARD then dest else source)
                       (if FORWARD then e.2.2 else e.2.1)) as Hsl.
    { apply length_slots. intros HF.
      assert (counts_in_range (if FORWARD then dest else source)
                              (scatter_lists FORWARD interface))
        as (Hnn & _).
      { destruct Hb as (_ & HS & HR & _). by destruct FORWARD. }
      specialize (Hnn HF). rewrite Forall_forall in Hnn. apply Hnn.
      by eapply scatter_list_elem. }
    specialize (Hpay k i e Hfin Hk He).
    match goal with |- context [foldlM _ ?s' ks] =>
      destruct (IH s') as (w & Hw & Hwst & Hwfin)
    end; simpl.
    + done.
    + by rewrite length_inserts.
    + unfold same_layout. rewrite fn_lookup_insert.
      intros HF. specialize (Hsame HF).
      eapply Forall_impl; [exact Hsame|]. intros l Hl.
      eapply Forall_impl; [exact Hl|]. intros x Hx. simpl in *.
      rewrite <- Hx. apply scattered_getSize; [done|by rewrite Hflag].
    + exists w. split; [exact Hw|]. split.
      * rewrite Hwst. simpl. rewrite fn_lookup_insert. f_equal.
        unfold delivered. rewrite Hfin. simpl. rewrite He. simpl. f_equal.
        set (sl := slots _ _) in *.
        assert (length (take (length sl) (payload env e.1)) = length sl)
          as Hl by (rewrite length_take; lia).
        rewrite <- Hl at 1. apply slab_of_inserts. rewrite Hl, Hlen. lia.
      * rewrite Hwfin. by apply Hlast.
  - rewrite !(bool_decide_eq_false_2 _ Hk). simpl.
    match goal with |- context [foldlM _ ?s' ks] =>
      destruct (IH s') as (w & Hw & Hwst & Hwfin)
    end; simpl; try done.
    exists w. split; [exact Hw|]. split; [exact Hwst|].
    rewrite Hwfin. by apply Hlast.
Qed.

End ExchangeEffect.

Section ExchangeState.

Context {Data : Type} `{policy : CommPolicy Data}.

(** The receive loop on a built plan, whatever the switches: it ends in the
    same state, keeps the size of the receive buffer and the block sizes of
    the container, and remembers the request that completed last. *)
Lemma receive_loop_total (FORWARD : bool) (gs : GatherScatter Data)
    (c : BufferedCommunicator) interface (source dest : Data) env
    (to : ref) rank :
  built c interface source dest →
  counts_fit_int c →
  flag_of gs = Flag →
  scatter_keeps_layout gs →
  ∀ (ks : list nat) (s : recv_state),
  (∀ k, k ∈ ks → ∃ i, (waitany env k).1 = Some i
                      ∧ (i < length (interfaces interface))%nat) →
  length (rs_recvBuffer s)
  = length (if FORWARD then (buffers_ c).2 else (buffers_ c).1) →
  same_layout (rs_store s to) (if FORWARD then dest else source)
              (scatter_lists FORWARD interface) →
  ∃ w,
    (∀ NDEBUG,
       foldlM (receive_one NDEBUG FORWARD gs (messageInformation_ c)
                           interface env to
                           (StdMap.keys (messageInformation_ c))
                           (if FORWARD then (bufferSize_ c).2
                            else (bufferSize_ c).1) rank) s ks = Some w)
    ∧ (Flag = VariableSize →
       ∀ index, getSize (rs_store w to) index
                = getSize (rs_store s to) index)
    ∧ rs_finished w
      = from_option (λ k, (waitany env k).1) (rs_finished s) (last ks).
Proof.
  intros Hb Hfit Hflag Hkeep.
  induction ks as [|k ks IH]; intros s Hval Hlen Hsame.
  { by exists s. }
  destruct (Hval k) as (i & Hfin & Hi); [by left|].
  destruct (lookup_lt_is_Some_2 (interfaces interface) i Hi) as [e He].
  destruct (lookup_lt_is_Some_2 (messageInformation_ c) i) as [info Hinfo].
  { by rewrite (plan_length c interface source dest Hb). }
  assert (∀ k', k' ∈ ks → ∃ i, (waitany env k').1 = Some i
                              ∧ (i < length (interfaces interface))%nat)
    as Hval'.
  { intros k' Hk'. apply Hval. by right. }
  assert (∀ s' : recv_state,
            rs_finished s' = Some i →
            from_option (λ k, (waitany env k).1) (rs_finished s') (last ks)
            = from_option (λ k, (waitany env k).1) (rs_finished s)
                          (last (k :: ks))) as Hlast.
  { intros s' Hs'. rewrite last_cons, Hs'.
    destruct (last ks); simpl; [done|by rewrite Hfin]. }
  pose proof (λ NDEBUG,
                receive_one_result NDEBUG FORWARD gs c interface source dest
                  env to rank s k i e info Hb Hfit Hflag Hkeep Hfin He Hinfo
                  Hlen Hsame) as Hone.
  cbv zeta in Hone.
  destruct (decide ((waitany env k).2 = MPI_SUCCESS)) as [Hk|Hk].
  - rewrite (bool_decide_eq_true_2 _ Hk) in Hone.
    match type of Hone with ∀ N, _ = Some ?s' =>
      destruct (IH s') as (w & Hw & Hwsize & Hwfin)
    end; simpl.
    + done.
    + by rewrite length_inserts.
    + unfold same_layout. rewrite fn_lookup_insert.
      intros HF. specialize (Hsame HF).
      eapply Forall_impl; [exact Hsame|]. intros l Hl.
      eapply Forall_impl; [exact Hl|]. intros x Hx. simpl in *.
      rewrite <- Hx. apply scattered_getSize; [done|by rewrite Hflag].
    + exists w. split_and!.
      * intros N. simpl foldlM. rewrite (Hone N). simpl. apply Hw.
      * intros HF index. rewrite (Hwsize HF). simpl.
        rewrite fn_lookup_insert.
        apply scattered_getSize; [done|by rewrite Hflag].
      * rewrite Hwfin. by apply Hlast.
  - rewrite (bool_decide_eq_false_2 _ Hk) in Hone.
    match type of Hone with ∀ N, _ = Some ?s' =>
      destruct (IH s') as (w & Hw & Hwsize & Hwfin)
    end; simpl; try done.
    exists w. split_and!.
    + intros N. simpl foldlM. rewrite (Hone N). simpl. apply Hw.
    + intros HF index. by rewrite (Hwsize HF).
    + rewrite Hwfin. by apply Hlast.
Qed.

Lemma last_seq (n : nat) : last (seq 0 n) = if n is O then None else Some (n - 1)%nat.
Proof.
  destruct n as [|n]; [done|].
  rewrite seq_S, last_snoc. simpl. f_equal. lia.
Qed.

(** All that is known of an exchange on a built plan. *)
Lemma sendRecv_state (NDEBUG DUNE_ISTL_WITH_CHECKING FORWARD : bool)
    (gs : GatherScatter Data) (c : BufferedCommunicator) interface
    (source dest : Data) env (st : store Data) (from to : ref) :
  exchange_ok FORWARD gs c interface source dest env st from to →
  counts_fit_int c →
  let sl := all_slots (st from) (gather_lists FORWARD interface) in
  let n := length (interfaces interface) in
  ∃ w,
    (∀ N C, sendRecv N C FORWARD gs c env st from to
            = Some (finish FORWARD c interface env
                           (gathered gs (st from) <$> sl)
                           (gather_events 0 sl) w))
    ∧ length (rs_recvBuffer w)
      = length (if FORWARD then (buffers_ c).2 else (buffers_ c).1)
    ∧ length (gathered gs (st from) <$> sl)
      = length (if FORWARD then (buffers_ c).1 else (buffers_ c).2)
    ∧ rs_trace w
      = seq 0 n
        ≫= receive_block FORWARD interface (messageInformation_ c)
             (if FORWARD then dest else source) env
             (comm_rank env MPI_COMM_WORLD)
    ∧ rs_success w
      = (if bool_decide
              (Forall (λ k, (waitany env k).2 = MPI_SUCCESS) (seq 0 n))
         then 1 else 0)
    ∧ (∀ x, x ≠ to → rs_store w x = st x)
    ∧ (Flag = VariableSize →
       ∀ index, getSize (rs_store w to) index = getSize (st to) index)
    ∧ rs_finished w
      = (if n is O then None else (waitany env (n - 1)).1)
    ∧ (messages_complete FORWARD interface
                         (if FORWARD then dest else source) env →
       rs_store w to
       = fold_left (delivered_if FORWARD gs interface
                                 (if FORWARD then dest else source) env)
                   (seq 0 n) (st to)).
Proof.
  intros Hok Hfit sl n.
  pose proof (λ N C, sendRecv_unfold N C FORWARD gs c interface source dest
                       env st from to Hok Hfit) as Hun.
  cbv zeta in Hun. fold sl in Hun.
  destruct Hok as (Hb & Hflag & Hkeep & Hfrom & Hto & Hval).
  pose proof (plan_length c interface source dest Hb) as Hpl.
  rewrite Hpl in Hun. fold n in Hun.
  set (s0 := {| rs_store := st;
                rs_recvBuffer := if FORWARD then (buffers_ c).2
                                 else (buffers_ c).1;
                rs_success := 1; rs_finished := None; rs_trace := [] |})
    in *.
  assert (∀ k, k ∈ seq 0 n →
               ∃ i, (waitany env k).1 = Some i
                    ∧ (i < length (interfaces interface))%nat) as Hval'.
  { intros k Hk. apply elem_of_seq in Hk. apply Hval. lia. }
  destruct (receive_loop false FORWARD gs c interface source dest env to
              (comm_rank env MPI_COMM_WORLD) Hb Hfit Hflag Hkeep
              (seq 0 n) s0 Hval')
    as (w & Hw & Hwlen & _ & Hwtr & Hwsucc & Hframe); [done|done|].
  destruct (receive_loop_total FORWARD gs c interface source dest env to
              (comm_rank env MPI_COMM_WORLD) Hb Hfit Hflag Hkeep
              (seq 0 n) s0 Hval')
    as (w' & Hw' & Hwsize & Hwfin); [done|done|].
  rewrite (Hw' false) in Hw. injection Hw as ->.
  exists w. split_and!.
  - intros N C. by rewrite Hun, (Hw' N).
  - exact Hwlen.
  - assert (counts_in_range (if FORWARD then source else dest)
                            (gather_lists FORWARD interface)) as (Hnn & _).
    { destruct Hb as (_ & HS & HR & _). unfold gather_lists.
      by destruct FORWARD. }
    destruct Hb as (_ & _ & _ & _ & _ & Hplan).
    destruct (plan_buffers FORWARD source dest interface c Hplan)
      as [_ Hlen].
    cbv zeta in Hlen. subst sl.
    rewrite length_fmap, (all_slots_same_layout _ _ _ Hfrom), Hlen.
    rewrite <- (length_all_slots _ _ Hnn). lia.
  - exact Hwtr.
  - exact Hwsucc.
  - exact Hframe.
  - exact Hwsize.
  - rewrite Hwfin, last_seq. by destruct n.
  - intros Hcomplete.
    destruct (receive_loop_store false FORWARD gs c interface source dest
                env to (comm_rank env MPI_COMM_WORLD) Hb Hfit Hflag Hkeep
                Hcomplete (seq 0 n) s0 Hval')
      as (w'' & Hw'' & Hstore & _); [done|done|].
    rewrite (Hw' false) in Hw''. by injection Hw'' as ->.
Qed.

End ExchangeState.

(** ** Aliasing *)

Section AliasTheorems.

Context {Data : Type} `{policy : CommPolicy Data}.
Variable NDEBUG DUNE_ISTL_WITH_CHECKING : bool.

(** The roles of the two arguments of [sendRecv]: every message is
    gathered from the first, every successful receive is scattered into the
    second, and no other container is written. *)
Lemma sendRecv_roles (FORWARD : bool) (gs : GatherScatter Data)
    (c : BufferedCommunicator) interface (source dest : Data) env
    (st : store Data) (from to : ref) :
  exchange_ok FORWARD gs c interface source dest env st from to →
  counts_fit_int c →
  messages_complete FORWARD interface (if FORWARD then dest else source)
                    env →
  ∃ r,
    sendRecv NDEBUG DUNE_ISTL_WITH_CHECKING FORWARD gs c env st from to
    = Some r
    ∧ (∀ (i : nat) e,
         interfaces interface !! i = Some e →
         sent_to e.1 (res_trace r)
         = Some (gathered gs (st from)
                   <$> slots (st from) (if FORWARD then e.2.1 else e.2.2)))
    ∧ res_store r to
      = fold_left (delivered_if FORWARD gs interface
                                (if FORWARD then dest else source) env)
                  (seq 0 (length (interfaces interface))) (st to)
    ∧ ∀ x, x ≠ to → res_store r x = st x.
Proof.
  intros Hok Hfit Hcomplete.
  destruct (sendRecv_state NDEBUG DUNE_ISTL_WITH_CHECKING FORWARD gs c
              interface source dest env st from to Hok Hfit)
    as (w & Hrun & _ & _ & _ & _ & Hframe & _ & _ & Hstore).
  eexists. split; [apply Hrun|]. split.
  - intros i e He.
    destruct (posted_message NDEBUG DUNE_ISTL_WITH_CHECKING FORWARD gs c
                interface source dest env st from to i e Hok Hfit He)
      as (r & Hr & Hsent).
    rewrite Hrun in Hr. injection Hr as <-. exact Hsent.
  - unfold finish. cbn [res_store]. split; [by apply Hstore|exact Hframe].
Qed.

(** C7: [forward<G>(data)] and [backward<G>(data)] are the two-container
    calls with both arguments aliased to [data].  On a plan whose slabs
    are of at most [INT_MAX] bytes, [forward(source, dest)] gathers every
    message from the container [source] over the send list of its peer and
    scatters every successful receive into the container [dest];
    [backward(source, dest)] gathers every message from [dest] over the
    receive list of its peer and scatters every successful receive into
    [source]; neither writes another container.  With both arguments
    aliased, the messages hold the values the container had before the
    exchange, and the receives are scattered into that container. *)
Theorem same_container_calls_are_aliased_calls
    (gs : GatherScatter Data) (c : BufferedCommunicator)
    (interface : Interface) (source dest : Data) (env : mpi_env)
    (st : store Data) (data source_ref dest_ref : ref) :
  counts_fit_int c →
  forward_same NDEBUG DUNE_ISTL_WITH_CHECKING gs c env st data
  = forward NDEBUG DUNE_ISTL_WITH_CHECKING gs c env st data data
  ∧ backward_same NDEBUG DUNE_ISTL_WITH_CHECKING gs c env st data
    = backward NDEBUG DUNE_ISTL_WITH_CHECKING gs c env st data data
  ∧ (exchange_ok true gs c interface source dest env st source_ref dest_ref →
     messages_complete true interface dest env →
     ∃ r,
       forward NDEBUG DUNE_ISTL_WITH_CHECKING gs c env st source_ref dest_ref
       = Some r
       ∧ (∀ (i : nat) e,
            interfaces interface !! i = Some e →
            sent_to e.1 (res_trace r)
            = Some (gathered gs (st source_ref)
                      <$> slots (st source_ref) e.2.1))
       ∧ res_store r dest_ref
         = fold_left (delivered_if true gs interface dest env)
                     (seq 0 (length (interfaces interface))) (st dest_ref)
       ∧ ∀ x, x ≠ dest_ref → res_store r x = st x)
  ∧ (exchange_ok false gs c interface source dest env st dest_ref source_ref →
     messages_complete false interface source env →
     ∃ r,
       backward NDEBUG DUNE_ISTL_WITH_CHECKING gs c env st source_ref dest_ref
       = Some r
       ∧ (∀ (i : nat) e,
            interfaces interface !! i = Some e →
            sent_to e.1 (res_trace r)
            = Some (gathered gs (st dest_ref)
                      <$> slots (st dest_ref) e.2.2))
       ∧ res_store r source_ref
         = fold_left (delivered_if false gs interface source env)
                     (seq 0 (length (interfaces interface))) (st source_ref)
       ∧ ∀ x, x ≠ source_ref → res_store r x = st x).
Proof.
  intros Hfit. split; [done|]. split; [done|]. split.
  - intros Hok Hcomplete.
    exact (sendRecv_roles true gs c interface source dest env st
             source_ref dest_ref Hok Hfit Hcomplete).
  - intros Hok Hcomplete.
    exact (sendRecv_roles false gs c interface source dest env st
             dest_ref source_ref Hok Hfit Hcomplete).
Qed.

End AliasTheorems.

Section CopyFacts.

Context {V : Type} `{Inhabited V}.
Variable size : positive.

Local Abbreviation pol := (CommPolicy_default V size).
Local Abbreviation Copy := (CopyGatherScatter V size).

(** The assignments [vec[x] = v] of one scatter with the Copy policy. *)
Definition assign (d : list V) (xs : list Z) (vs : list V) : list V :=
  fold_left (λ d xv, <[Z.to_nat xv.1 := xv.2]> d) (zip xs vs) d.

Lemma slots_Copy (d : list V) info :
  @slots _ pol d info = (λ local, (local, None)) <$> info.
Proof. done. Qed.

Lemma scattered_Copy (rep : list V) info : ∀ (d : list V) vs,
  @scattered _ pol Copy d (@slots _ pol rep info) vs = assign d info vs.
Proof.
  rewrite slots_Copy. unfold scattered, assign.
  induction info as [|x info IH]; intros d vs; [done|].
  destruct vs as [|v vs]; [done|]. simpl. apply IH.
Qed.

Lemma gathered_Copy (d : list V) info :
  @gathered _ pol Copy d <$> @slots _ pol d info
  = (λ x, d !!! Z.to_nat x) <$> info.
Proof. rewrite slots_Copy, <- list_fmap_compose. done. Qed.

Lemma assign_length xs : ∀ d vs, length (assign d xs vs) = length d.
Proof.
  unfold assign. induction xs as [|x xs IH]; intros d vs; [done|].
  destruct vs as [|v vs]; [done|]. simpl.
  rewrite IH. apply length_insert.
Qed.

Lemma assign_lookup_notin xs (j : nat) : ∀ d vs,
  (∀ x, x ∈ xs → Z.to_nat x ≠ j) →
  assign d xs vs !! j = d !! j.
Proof.
  unfold assign. induction xs as [|x xs IH]; intros d vs Hj; [done|].
  destruct vs as [|v vs]; [done|]. simpl.
  rewrite IH by (intros y Hy; apply Hj; by right).
  apply list_lookup_insert_ne. apply Hj. by left.
Qed.

Lemma assign_lookup_in xs : ∀ d vs (k : nat) x,
  NoDup xs →
  Forall (λ x, 0 <= x < Z.of_nat (length d)) xs →
  length vs = length xs →
  xs !! k = Some x →
  assign d xs vs !! Z.to_nat x = vs !! k.
Proof.
  induction xs as [|x0 xs IH]; intros d vs k x Hnd Hr Hlen Hk; [done|].
  destruct vs as [|v vs]; [done|].
  apply NoDup_cons in Hnd as [Hx0 Hnd].
  rewrite Forall_cons in Hr. destruct Hr as [Hr0 Hr].
  change (assign d (x0 :: xs) (v :: vs))
    with (assign (<[Z.to_nat x0 := v]> d) xs vs).
  destruct k as [|k]; simpl in Hk.
  - injection Hk as ->. simpl.
    rewrite assign_lookup_notin.
    + apply list_lookup_insert_eq. lia.
    + intros y Hy Heq. rewrite Forall_forall in Hr.
      specialize (Hr y Hy). simpl in Hr.
      assert (y = x) by lia. by subst y.
  - simpl. apply IH; try done.
    + by rewrite length_insert.
    + simpl in Hlen. lia.
Qed.

Lemma assign_id xs : ∀ d vs,
  (∀ (k : nat) x v, xs !! k = Some x → vs !! k = Some v →
                    d !! Z.to_nat x = Some v) →
  assign d xs vs = d.
Proof.
  unfold assign. induction xs as [|x xs IH]; intros d vs Heq; [done|].
  destruct vs as [|v vs]; [done|]. simpl.
  rewrite list_insert_id by (by apply (Heq 0%nat)).
  apply IH. intros k y w Hy Hw. by apply (Heq (S k)).
Qed.

Lemma elem_of_concat (ls : list (list Z)) x :
  x ∈ concat ls ↔ ∃ xs, xs ∈ ls ∧ x ∈ xs.
Proof.
  induction ls as [|l ls IH]; simpl.
  - split; [by intros ?%elem_of_nil|by intros (? & ?%elem_of_nil & _)].
  - rewrite elem_of_app, IH. split.
    + intros [Hx|(xs & Hxs & Hx)].
      * exists l. split; [by left|done].
      * exists xs. split; [by right|done].
    + intros (xs & Hxs & Hx). apply elem_of_cons in Hxs as [->|Hxs].
      * by left.
      * right. by exists xs.
Qed.

Lemma NoDup_concat_each (ls : list (list Z)) (i : nat) xs :
  NoDup (concat ls) → ls !! i = Some xs → NoDup xs.
Proof.
  revert i. induction ls as [|l ls IH]; intros i Hnd Hi; [done|].
  simpl in Hnd. apply NoDup_app in Hnd as (Hl & _ & Hls).
  destruct i as [|i]; simpl in Hi; [by injection Hi as <-|].
  by apply (IH i).
Qed.

Lemma NoDup_concat_apart (ls : list (list Z)) (i j : nat) xs xs' x :
  NoDup (concat ls) → i ≠ j →
  ls !! i = Some xs → ls !! j = Some xs' → x ∈ xs → x ∉ xs'.
Proof.
  revert i j. induction ls as [|l ls IH]; intros i j Hnd Hij Hi Hj Hx Hx';
    [done|].
  simpl in Hnd. apply NoDup_app in Hnd as (Hl & Hap & Hls).
  destruct i as [|i], j as [|j]; simpl in Hi, Hj; try done.
  - injection Hi as <-. apply (Hap x Hx).
    apply elem_of_concat. exists xs'. split; [|done].
    by eapply list_elem_of_lookup_2.
  - injection Hj as <-. apply (Hap x Hx').
    apply elem_of_concat. exists xs. split; [|done].
    by eapply list_elem_of_lookup_2.
  - apply (IH i j); try done. congruence.
Qed.

End CopyFacts.

Section CompletionFacts.

Context {V : Type} `{Inhabited V}.
Variable size : positive.

Local Abbreviation pol := (CommPolicy_default V size).
Local Abbreviation Copy := (CopyGatherScatter V size).
Local Abbreviation env_of := (@mpi_env (list V) pol).

Local Abbreviation list_of FORWARD e :=
  (if FORWARD then e.2.2 else e.2.1 : InterfaceInformation).

Lemma delivered_Copy (FORWARD : bool) interface (rep : list V)
    (env : env_of) (d : list V) (k : nat) :
  @delivered _ pol FORWARD Copy interface rep env d k
  = match (waitany env k).1 ≫= (interfaces interface !!.) with
    | Some e =>
        assign d (list_of FORWARD e)
               (take (length (list_of FORWARD e)) (payload env e.1))
    | None => d
    end.
Proof.
  unfold delivered. destruct (_ ≫= _) as [e|]; [|done].
  cbv zeta. by rewrite scattered_Copy, slots_Copy, length_fmap.
Qed.

Lemma scatter_lists_lookup (FORWARD : bool) interface (i : nat) e :
  interfaces interface !! i = Some e →
  scatter_lists FORWARD interface !! i = Some (list_of FORWARD e).
Proof.
  intros He. unfold scatter_lists, recv_lists, send_lists.
  destruct FORWARD; by rewrite map_lookup, He.
Qed.

(** Messages written over lists that name no position twice: every listed
    position holds the value of its message, the others are as before. *)
Lemma completions_lookup (FORWARD : bool) interface (rep : list V)
    (env : env_of) (ks : list nat) : ∀ d0 : list V,
  NoDup ((λ k, (waitany env k).1) <$> ks) →
  NoDup (concat (scatter_lists FORWARD interface)) →
  Forall (Forall (λ x, 0 <= x < Z.of_nat (length d0)))
         (scatter_lists FORWARD interface) →
  (∀ i e, interfaces interface !! i = Some e →
          length (payload env e.1) = length (list_of FORWARD e)) →
  let d1 := fold_left (@delivered _ pol FORWARD Copy interface rep env)
                      ks d0 in
  length d1 = length d0
  ∧ (∀ k i e (j : nat) x,
       k ∈ ks → (waitany env k).1 = Some i →
       interfaces interface !! i = Some e →
       list_of FORWARD e !! j = Some x →
       d1 !! Z.to_nat x = payload env e.1 !! j)
  ∧ (∀ j : nat,
       (∀ k i e x,
          k ∈ ks → (waitany env k).1 = Some i →
          interfaces interface !! i = Some e →
          x ∈ list_of FORWARD e → Z.to_nat x ≠ j) →
       d1 !! j = d0 !! j).
Proof.
  induction ks as [|k0 ks IH]; intros d0 Hnd Hlists Hrange Hpay.
  { simpl. split_and!; [done| |done]. by intros k i e j x ?%elem_of_nil. }
  rewrite fmap_cons in Hnd. apply NoDup_cons in Hnd as [Hk0 Hnd].
  cbn [fold_left]. rewrite delivered_Copy.
  destruct ((waitany env k0).1 ≫= (interfaces interface !!.))
    as [e0|] eqn:He0.
  - destruct ((waitany env k0).1) as [i0|] eqn:Hi0; [|done].
    simpl in He0.
    pose proof (scatter_lists_lookup FORWARD interface i0 e0 He0) as Hl0.
    assert (Forall (λ x, 0 <= x < Z.of_nat (length d0))
                   (list_of FORWARD e0)) as Hr0.
    { rewrite Forall_forall in Hrange. apply Hrange.
      by eapply list_elem_of_lookup_2. }
    rewrite take_ge by (rewrite (Hpay i0 e0 He0); lia).
    set (d0' := assign d0 (list_of FORWARD e0) (payload env e0.1)).
    assert (length d0' = length d0) as Hlen by apply assign_length.
    destruct (IH d0' Hnd Hlists) as (IH1 & IH2 & IH3);
      [by rewrite Hlen|done|].
    assert (∀ k i e x x',
              k ∈ ks → (waitany env k).1 = Some i →
              interfaces interface !! i = Some e →
              x ∈ list_of FORWARD e0 → x' ∈ list_of FORWARD e →
              Z.to_nat x' ≠ Z.to_nat x) as Hapart.
    { intros k i e x x' Hk Hi He Hx Hx' Heq.
      assert (i0 ≠ i) as Hne.
      { intros <-. apply Hk0. rewrite <- Hi.
        apply list_elem_of_fmap. by exists k. }
      pose proof (scatter_lists_lookup FORWARD interface i e He) as Hl.
      assert (x' = x) as ->.
      { rewrite Forall_forall in Hrange. rewrite Forall_forall in Hr0.
        specialize (Hr0 x Hx).
        assert (0 <= x' < Z.of_nat (length d0)) as Hr'.
        { assert (Forall (λ x, 0 <= x < Z.of_nat (length d0))
                         (list_of FORWARD e)) as Hre
            by (apply Hrange; by eapply list_elem_of_lookup_2).
          rewrite Forall_forall in Hre. by apply Hre. }
        simpl in Hr0. lia. }
      by apply (NoDup_concat_apart _ i0 i _ _ x Hlists Hne Hl0 Hl). }
    split_and!.
    + by rewrite IH1.
    + intros k i e j x Hk Hi He Hx.
      apply elem_of_cons in Hk as [->|Hk]; [|by eapply IH2].
      rewrite Hi0 in Hi. injection Hi as <-.
      rewrite He0 in He. injection He as <-.
      rewrite IH3.
      * apply assign_lookup_in; try done.
        -- by eapply NoDup_concat_each.
        -- by apply Hpay with i0.
      * intros k' i' e' x' Hk' Hi' He' Hx'.
        apply (Hapart k' i' e' x x'); try done.
        by eapply list_elem_of_lookup_2.
    + intros j Hj. rewrite IH3.
      * apply assign_lookup_notin. intros x Hx.
        apply (Hj k0 i0 e0 x); [by left|done..].
      * intros k i e x Hk. apply Hj. by right.
  - destruct (IH d0 Hnd Hlists Hrange Hpay) as (IH1 & IH2 & IH3).
    split_and!; [done| |].
    + intros k i e j x Hk Hi He Hx.
      apply elem_of_cons in Hk as [->|Hk]; [|by eapply IH2].
      rewrite Hi in He0. simpl in He0. congruence.
    + intros j Hj. apply IH3. intros k i e x Hk. apply Hj. by right.
Qed.

(** Messages that carry the values the container holds change nothing. *)
Lemma completions_id (FORWARD : bool) interface (rep : list V)
    (env : env_of) (d0 : list V) (ks : list nat) :
  (∀ i e (j : nat) x v,
     interfaces interface !! i = Some e →
     list_of FORWARD e !! j = Some x →
     payload env e.1 !! j = Some v →
     d0 !! Z.to_nat x = Some v) →
  fold_left (@delivered _ pol FORWARD Copy interface rep env) ks d0 = d0.
Proof.
  intros Hsame. induction ks as [|k ks IH]; [done|].
  cbn [fold_left]. rewrite delivered_Copy.
  destruct ((waitany env k).1 ≫= (interfaces interface !!.))
    as [e|] eqn:He; [|done].
  destruct ((waitany env k).1) as [i|]; [|done]. simpl in He.
  rewrite assign_id; [done|].
  intros j x v Hx Hv. apply lookup_take_Some in Hv as [Hv _].
  by apply (Hsame i e j).
Qed.

End CompletionFacts.

Section RoundTripFacts.

Context {V : Type} `{Inhabited V}.
Variable size : positive.
Variable NDEBUG DUNE_ISTL_WITH_CHECKING : bool.
Variable src dst : ref.

Local Abbreviation pol := (CommPolicy_default V size).
Local Abbreviation Copy := (CopyGatherScatter V size).
Local Abbreviation env_of := (@mpi_env (list V) pol).
Local Abbreviation fwd :=
  (forward_run size NDEBUG DUNE_ISTL_WITH_CHECKING src dst).
Local Abbreviation there_and_back :=
  (round_trip size NDEBUG DUNE_ISTL_WITH_CHECKING src dst).
Local Abbreviation setting :=
  (round_trip_setting size NDEBUG DUNE_ISTL_WITH_CHECKING src dst).

Lemma complete_once_valid (env : env_of) n :
  complete_once env n → valid_completions env n.
Proof.
  intros Hperm k Hk.
  assert ((waitany env k).1 ∈ (λ k, (waitany env k).1) <$> seq 0 n) as Hin.
  { apply list_elem_of_fmap. exists k. split; [done|].
    apply elem_of_seq. lia. }
  unfold complete_once in Hperm. rewrite Hperm in Hin.
  apply list_elem_of_fmap in Hin as (i & Hi & Hin).
  apply elem_of_seq in Hin. exists i. split; [done|lia].
Qed.

Lemma complete_once_NoDup (env : env_of) n :
  complete_once env n → NoDup ((λ k, (waitany env k).1) <$> seq 0 n).
Proof.
  intros Hperm. unfold complete_once in Hperm. rewrite Hperm.
  apply NoDup_fmap_2; [|apply NoDup_seq]. by intros ? ? [= ->].
Qed.

Lemma complete_once_all (env : env_of) n (i : nat) :
  complete_once env n → (i < n)%nat →
  ∃ k, k ∈ seq 0 n ∧ (waitany env k).1 = Some i.
Proof.
  intros Hperm Hi.
  assert (Some i ∈ (λ k, (waitany env k).1) <$> seq 0 n) as Hin.
  { unfold complete_once in Hperm. rewrite Hperm.
    apply list_elem_of_fmap. exists i. split; [done|].
    apply elem_of_seq. lia. }
  apply list_elem_of_fmap in Hin as (k & Hk & Hin). by exists k.
Qed.

Lemma clean_success (env : env_of) n :
  clean size env n →
  Forall (λ k, (waitany env k).2 = MPI_SUCCESS) (seq 0 n).
Proof.
  intros [Herr _]. apply Forall_forall. intros k Hk.
  apply elem_of_seq in Hk.
  destruct (decide ((waitany env k).2 = MPI_SUCCESS)) as [|Hne]; [done|].
  exfalso. apply Herr. left. exists k. split; [lia|done].
Qed.

Lemma copy_exchange_ok (FORWARD : bool) c interface (source dest : list V)
    (env : env_of) (st : store (list V)) (from to : ref) :
  @built _ pol c interface source dest →
  complete_once env (length (interfaces interface)) →
  @exchange_ok _ pol FORWARD Copy c interface source dest env st from to.
Proof.
  intros Hb Hperm. split_and!; try done.
  by apply complete_once_valid.
Qed.

(** What a process posts for a peer in the forward exchange: the values of
    its source container at the positions of the peer's send list. *)
Lemma forward_posts (T : @trip V size) (i : nat)
    (e : Z * (InterfaceInformation * InterfaceInformation)) :
  trip_ok size src dst T →
  complete_once (t_forward_env T) (length (interfaces (t_interface T))) →
  interfaces (t_interface T) !! i = Some e →
  ∃ r, fwd T = Some r
       ∧ @sent_to _ pol e.1 (res_trace r)
         = Some ((λ x, t_st T src !!! Z.to_nat x) <$> e.2.1).
Proof.
  intros (Hb & Hfit & _) Hperm He.
  destruct (posted_message NDEBUG DUNE_ISTL_WITH_CHECKING true Copy
              (t_c T) (t_interface T) (t_st T src) (t_st T dst)
              (t_forward_env T) (t_st T) src dst i e
              (copy_exchange_ok true _ _ _ _ _ _ _ _ Hb Hperm) Hfit He)
    as (r & Hr & Hsent).
  exists r. split; [exact Hr|].
  rewrite Hsent. f_equal. apply gathered_Copy.
Qed.

Lemma setting_at (group : list (@trip V size)) (p : nat) T :
  setting group → group !! p = Some T →
  trip_ok size src dst T
  ∧ clean size (t_forward_env T) (length (interfaces (t_interface T)))
  ∧ clean size (t_backward_env T) (length (interfaces (t_interface T))).
Proof.
  intros (_ & Hok & _ & _ & Hclean) HT.
  rewrite Forall_lookup in Hok. rewrite Forall_lookup in Hclean.
  split; [by eapply Hok|]. by apply (Hclean p T).
Qed.

Lemma peer_exists (group : list (@trip V size)) (q : nat) Q (i : nat)
    (e : Z * (InterfaceInformation * InterfaceInformation)) :
  setting group → group !! q = Some Q →
  interfaces (t_interface Q) !! i = Some e →
  0 <= e.1 ∧
  ∃ P (i' : nat) lists',
    group !! Z.to_nat e.1 = Some P ∧
    interfaces (t_interface P) !! i' = Some (Z.of_nat q, lists').
Proof.
  intros Hset HQ He.
  destruct (setting_at group q Q Hset HQ) as (((Hwf & _) & _) & _).
  destruct Hset as (_ & _ & Hsym & _).
  destruct e as [p lists].
  destruct (Hsym q Q p lists HQ (find_lookup _ i p lists Hwf He))
    as (Hp & P & lists' & HP & Hfind & _).
  split; [done|]. exists P.
  destruct (find_Some_lookup _ _ _ Hfind) as [i' Hi']. by exists i', lists'.
Qed.

Lemma peer_lengths (group : list (@trip V size)) (q : nat) Q (i : nat)
    (e : Z * (InterfaceInformation * InterfaceInformation)) P (i' : nat)
    lists' :
  setting group → group !! q = Some Q →
  interfaces (t_interface Q) !! i = Some e →
  group !! Z.to_nat e.1 = Some P →
  interfaces (t_interface P) !! i' = Some (Z.of_nat q, lists') →
  length e.2.1 = length lists'.2 ∧ length e.2.2 = length lists'.1.
Proof.
  intros Hset HQ He HP Hi'.
  destruct (setting_at group q Q Hset HQ) as (((Hwf & _) & _) & _).
  destruct (setting_at group _ P Hset HP) as (((HwfP & _) & _) & _).
  destruct Hset as (_ & _ & Hsym & _).
  destruct e as [p lists].
  destruct (Hsym q Q p lists HQ (find_lookup _ i p lists Hwf He))
    as (Hp & P' & lists'' & HP' & Hfind & Hlen).
  simpl in HP. rewrite HP in HP'. injection HP' as <-.
  rewrite (find_lookup _ i' _ lists' HwfP Hi') in Hfind.
  by injection Hfind as <-.
Qed.

(** What the forward exchange delivers to a process from a peer: the values
    of the peer's source container at the positions the peer lists. *)
Lemma forward_payload (group : list (@trip V size)) (q : nat) Q (i : nat)
    (e : Z * (InterfaceInformation * InterfaceInformation)) P (i' : nat)
    lists' :
  setting group → group !! q = Some Q →
  interfaces (t_interface Q) !! i = Some e →
  0 <= e.1 → group !! Z.to_nat e.1 = Some P →
  interfaces (t_interface P) !! i' = Some (Z.of_nat q, lists') →
  payload (t_forward_env Q) e.1
  = (λ x, t_st P src !!! Z.to_nat x) <$> lists'.1.
Proof.
  intros Hset HQ He Hp HP Hi'.
  destruct (setting_at group _ P Hset HP) as (HokP & [_ Hperm] & _).
  destruct Hset as (_ & _ & _ & Htr & _).
  destruct (Htr (Z.to_nat e.1) q P Q HP HQ) as [Hf _].
  rewrite Z2Nat.id in Hf by done. rewrite Hf.
  destruct (forward_posts P i' _ HokP Hperm Hi') as (r & Hr & Hsent).
  rewrite Hr. simpl in *. by rewrite Hsent.
Qed.

Lemma built_same c c' interface (source dest : list V) :
  @built _ pol c interface source dest →
  messageInformation_ c' = messageInformation_ c →
  bufferSize_ c' = bufferSize_ c →
  interface_ c' = interface_ c →
  length (buffers_ c').1 = length (buffers_ c).1 →
  length (buffers_ c').2 = length (buffers_ c).2 →
  @built _ pol c' interface source dest.
Proof.
  intros (Hwf & HS & HR & HLS & HLR & Hplan) Hmi Hbs Hi Hb1 Hb2.
  unfold built. split_and!; try done.
  unfold is_plan in *. rewrite Hmi, Hbs, Hi, Hb1, Hb2. exact Hplan.
Qed.

Lemma forward_payload_length (group : list (@trip V size)) (q : nat) Q
    (i : nat) (e : Z * (InterfaceInformation * InterfaceInformation)) :
  setting group → group !! q = Some Q →
  interfaces (t_interface Q) !! i = Some e →
  length (payload (t_forward_env Q) e.1) = length e.2.2.
Proof.
  intros Hset HQ He.
  destruct (peer_exists group q Q i e Hset HQ He)
    as (Hp & P & i' & lists' & HP & Hi').
  rewrite (forward_payload group q Q i e P i' lists') by done.
  rewrite length_fmap.
  by destruct (peer_lengths group q Q i e P i' lists' Hset HQ He HP Hi')
    as [_ <-].
Qed.

(** After the forward exchange: the source is as it was, every listed
    position of the destination holds the value of its message, and the
    other positions of the destination are as they were. *)
Lemma forward_state (group : list (@trip V size)) (q : nat) Q :
  setting group → receive_once size Q → group !! q = Some Q →
  ∃ r,
    fwd Q = Some r
    ∧ res_store r src = t_st Q src
    ∧ @built _ pol (res_comm r) (t_interface Q) (t_st Q src) (t_st Q dst)
    ∧ (∀ (i : nat) e (j : nat) x,
         interfaces (t_interface Q) !! i = Some e →
         e.2.2 !! j = Some x →
         res_store r dst !! Z.to_nat x
         = payload (t_forward_env Q) e.1 !! j)
    ∧ (∀ x, 0 <= x → x ∉ concat (recv_lists (t_interface Q)) →
            res_store r dst !! Z.to_nat x = t_st Q dst !! Z.to_nat x).
Proof.
  intros Hset Honce HQ.
  destruct (setting_at group q Q Hset HQ)
    as ((Hb & Hfit & _ & Hrange) & [Hclean Hperm] & _).
  pose proof Hset as (Hne & _).
  destruct (sendRecv_clean NDEBUG DUNE_ISTL_WITH_CHECKING true Copy
              (t_c Q) (t_interface Q) (t_st Q src) (t_st Q dst)
              (t_forward_env Q) (t_st Q) src dst)
    as (r & Hr & Hstore & Hframe & Hmi & Hbs & Hi & Hb1 & Hb2).
  { by apply copy_exchange_ok. }
  { exact Hfit. }
  { intros i e He. rewrite slots_Copy, length_fmap.
    by rewrite (forward_payload_length group q Q i e). }
  { by apply clean_success. }
  destruct (completions_lookup size true (t_interface Q) (t_st Q dst)
              (t_forward_env Q)
              (seq 0 (length (interfaces (t_interface Q)))) (t_st Q dst))
    as (Hlen & Hin & Hout).
  { by apply complete_once_NoDup. }
  { exact Honce. }
  { exact Hrange. }
  { intros i e He. by apply (forward_payload_length group q Q i e). }
  rewrite <- Hstore in Hlen, Hin, Hout.
  exists r. split_and!.
  - exact Hr.
  - by apply Hframe.
  - by apply (built_same (t_c Q)).
  - intros i e j x He Hx.
    destruct (complete_once_all (t_forward_env Q) _ i Hperm)
      as (k & Hk & Hki); [by eapply lookup_lt_Some|].
    by apply (Hin k i e j x).
  - intros x Hx Hnotin. apply Hout. intros k i e x' Hk Hi' He Hx' Heq.
    assert (x' ∈ concat (recv_lists (t_interface Q))) as Helem.
    { apply elem_of_concat. exists e.2.2. split; [|done].
      apply (scatter_list_elem true _ i e He). }
    assert (0 <= x') as Hx'0.
    { rewrite <- Forall_concat in Hrange. rewrite Forall_forall in Hrange.
      by apply Hrange. }
    assert (x' = x) as -> by lia. done.
Qed.

(** What a process posts for a peer in the backward exchange: the values
    the peer sent it in the forward exchange. *)
Lemma backward_posts (group : list (@trip V size)) (q : nat) Q (i : nat)
    (e : Z * (InterfaceInformation * InterfaceInformation)) P (i' : nat)
    lists' :
  setting group → receive_once size Q → group !! q = Some Q →
  interfaces (t_interface Q) !! i = Some e →
  0 <= e.1 → group !! Z.to_nat e.1 = Some P →
  interfaces (t_interface P) !! i' = Some (Z.of_nat q, lists') →
  ∃ r, there_and_back Q = Some r
       ∧ @sent_to _ pol e.1 (res_trace r)
         = Some ((λ x, t_st P src !!! Z.to_nat x) <$> lists'.1).
Proof.
  intros Hset Honce HQ He Hp HP Hi'.
  destruct (setting_at group q Q Hset HQ) as ((_ & Hfit & _) & _ & [_ Hperm]).
  destruct (forward_state group q Q Hset Honce HQ)
    as (r1 & Hr1 & _ & Hb & Hin & _).
  destruct (posted_message NDEBUG DUNE_ISTL_WITH_CHECKING false Copy
              (res_comm r1) (t_interface Q) (t_st Q src) (t_st Q dst)
              (t_backward_env Q) (res_store r1) dst src i e
              (copy_exchange_ok false _ _ _ _ _ _ _ _ Hb Hperm)
              (sendRecv_keeps_fit _ _ _ _ _ _ _ _ _ _ Hr1 Hfit) He)
    as (r & Hr & Hsent).
  exists r. unfold round_trip. rewrite Hr1. split; [exact Hr|].
  rewrite Hsent, gathered_Copy. f_equal.
  destruct (peer_lengths group q Q i e P i' lists' Hset HQ He HP Hi')
    as [_ Hlen].
  pose proof (forward_payload group q Q i e P i' lists' Hset HQ He Hp HP Hi')
    as Hpay.
  apply list_eq. intros j. rewrite !list_lookup_fmap.
  destruct (e.2.2 !! j) as [x|] eqn:Hx.
  - specialize (Hin i e j x He Hx). rewrite Hpay in Hin.
    rewrite list_lookup_fmap in Hin.
    destruct (lists'.1 !! j) as [y|] eqn:Hy.
    + simpl in *. f_equal. by apply list_lookup_total_correct.
    + apply lookup_ge_None in Hy. apply lookup_lt_Some in Hx. lia.
  - apply lookup_ge_None in Hx.
    rewrite (proj2 (lookup_ge_None lists'.1 j)) by lia. done.
Qed.

(** What the backward exchange delivers to a process from a peer: the
    values of its own source container at the positions of the peer's send
    list. *)
Lemma backward_payload (group : list (@trip V size)) (p : nat) T (i : nat)
    (e : Z * (InterfaceInformation * InterfaceInformation)) :
  setting group → Forall (receive_once size) group →
  group !! p = Some T →
  interfaces (t_interface T) !! i = Some e →
  payload (t_backward_env T) e.1
  = (λ x, t_st T src !!! Z.to_nat x) <$> e.2.1.
Proof.
  intros Hset Honce HT He.
  destruct (peer_exists group p T i e Hset HT He)
    as (Hq & Q & i' & lists' & HQ & Hi').
  assert (receive_once size Q) as HonceQ.
  { rewrite Forall_lookup in Honce. by eapply Honce. }
  destruct (backward_posts group (Z.to_nat e.1) Q i' (Z.of_nat p, lists')
              T i e.2 Hset HonceQ HQ Hi') as (r & Hr & Hsent).
  { simpl. lia. }
  { simpl. by rewrite Nat2Z.id. }
  { rewrite Z2Nat.id by done. by destruct e. }
  pose proof Hset as (_ & _ & _ & Htr & _).
  destruct (Htr (Z.to_nat e.1) p Q T HQ HT) as [_ Hbw].
  rewrite Z2Nat.id in Hbw by done. rewrite Hbw, Hr. simpl in *.
  by rewrite Hsent.
Qed.

End RoundTripFacts.

Section RoundTripTheorems.

Context {V : Type} `{Inhabited V}.
Variable size : positive.
Variable NDEBUG DUNE_ISTL_WITH_CHECKING : bool.
Variable src dst : ref.

Local Abbreviation pol := (CommPolicy_default V size).
Local Abbreviation Copy := (CopyGatherScatter V size).

(** C5, amended: among processes with symmetric interfaces whose plans are
    the built ones, with slabs of at most [INT_MAX] bytes (the range of the
    [int count] of MPI), with the listed positions inside the containers, a
    clean transport, and no position named twice in the receive lists of a
    process, [forward] and then [backward] with the Copy policy on two
    containers end, leave the source container with its old value at every
    position of a send list, and leave both containers as they were at
    every position that is in no send and in no receive list. *)
Theorem round_trip_restores_when_received_once
    (group : list (@trip V size)) :
  round_trip_setting size NDEBUG DUNE_ISTL_WITH_CHECKING src dst group →
  Forall (receive_once size) group →
  round_trip_restores size NDEBUG DUNE_ISTL_WITH_CHECKING src dst group.
Proof.
  intros Hset Honce t Ht.
  apply list_elem_of_lookup in Ht as [p HT].
  assert (receive_once size t) as HonceT.
  { rewrite Forall_lookup in Honce. by eapply Honce. }
  destruct (setting_at size NDEBUG DUNE_ISTL_WITH_CHECKING src dst
              group p t Hset HT)
    as ((_ & Hfit & Hrange & _) & _ & [Hclean Hperm]).
  pose proof Hset as (Hne & _).
  destruct (forward_state size NDEBUG DUNE_ISTL_WITH_CHECKING src dst
              group p t Hset HonceT HT)
    as (r1 & Hr1 & Hsrc & Hb & _ & Hout).
  destruct (sendRecv_clean NDEBUG DUNE_ISTL_WITH_CHECKING false Copy
              (res_comm r1) (t_interface t) (t_st t src) (t_st t dst)
              (t_backward_env t) (res_store r1) dst src)
    as (r & Hr & Hstore & Hframe & _).
  { by apply copy_exchange_ok. }
  { exact (sendRecv_keeps_fit _ _ _ _ _ _ _ _ _ _ Hr1 Hfit). }
  { intros i e He. rewrite slots_Copy, length_fmap.
    rewrite (backward_payload size NDEBUG DUNE_ISTL_WITH_CHECKING src dst
               group p t i e) by done.
    by rewrite length_fmap. }
  { by apply (clean_success size). }
  rewrite completions_id in Hstore.
  2:{ intros i e j x v He Hx Hv.
      rewrite (backward_payload size NDEBUG DUNE_ISTL_WITH_CHECKING src dst
                 group p t i e) in Hv by done.
      rewrite list_lookup_fmap, Hx in Hv. injection Hv as <-.
      rewrite Hsrc. apply list_lookup_lookup_total_lt.
      rewrite Forall_forall in Hrange.
      assert (Forall (λ x, 0 <= x < Z.of_nat (length (t_st t src))) e.2.1)
        as Hr'.
      { apply Hrange. apply (scatter_list_elem false _ i e He). }
      rewrite Forall_forall in Hr'.
      assert (0 <= x < Z.of_nat (length (t_st t src))) as Hx'.
      { apply Hr'. by eapply list_elem_of_lookup_2. }
      destruct Hx' as [Hx0 Hx1]. apply Nat2Z.inj_lt.
      rewrite Z2Nat.id by done. exact Hx1. }
  exists r. unfold round_trip. fold (forward_run size NDEBUG
    DUNE_ISTL_WITH_CHECKING src dst t).
  rewrite Hr1. split; [exact Hr|].
  rewrite Hstore, Hsrc. split; [done|].
  intros x Hx _ Hnotin. split; [done|].
  rewrite (Hframe dst) by done. by apply Hout.
Qed.

End RoundTripTheorems.

(** ** Processes that share one index: two and three of them *)

(** The lists of a concrete interface, evaluated. *)
Ltac eval_lists :=
  repeat match goal with
  | |- context [send_lists ?i] =>
      let l := eval vm_compute in (send_lists i) in
      change (send_lists i) with l
  | |- context [recv_lists ?i] =>
      let l := eval vm_compute in (recv_lists i) in
      change (recv_lists i) with l
  | |- context [interfaces ?i] =>
      let l := eval vm_compute in (interfaces i) in
      change (interfaces i) with l
  end.

Ltac solve_Forall :=
  repeat first [apply Forall_nil_2 | apply Forall_cons_2];
  try (cbn; unfold int_max; lia).

Section SharedFacts.

Import Shared.

Local Abbreviation policy := (CommPolicy_default Z size).

Lemma shared_trip_ok (n p : nat) :
  (n = 2 ∨ n = 3)%nat → (p < n)%nat → trip_ok size src dst (trip_of n p).
Proof.
  intros Hn Hp.
  assert ((n = 2 ∧ (p = 0 ∨ p = 1)) ∨ (n = 3 ∧ (p = 0 ∨ p = 1 ∨ p = 2)))%nat
    as [[-> [->| ->]]|[-> [->|[->| ->]]]] by lia.
  all: unfold trip_ok, built, counts_in_range, lists_in_range, is_plan.
  all: split_and!; try done.
  all: eval_lists.
  all: try (unfold StdMap.wf, StdMap.keys; simpl; repeat constructor; done).
  all: try solve_Forall.
  all: intros [|[|k]] e He; simpl in He; try done.
  all: injection He as <-; vm_compute; reflexivity.
Qed.

Lemma shared_clean (n p : nat) (payload : Z → list Z) :
  clean size (env_with p payload)
        (length (interfaces (t_interface (trip_of n p)))).
Proof.
  split; [by intros [(k & _ & Hk)|(i & _ & Hi)]|by unfold complete_once].
Qed.

Lemma shared_symmetric (n : nat) :
  (n = 2 ∨ n = 3)%nat → symmetric size (group n).
Proof.
  intros [-> | ->] p P q lists HP Hfind.
  - destruct p as [|[|p]]; simpl in HP; [| |done].
    all: injection HP as <-; simpl in Hfind.
    all: repeat match type of Hfind with
         | context [?a =? ?b] => destruct (Z.eqb_spec a b) as [->|_]
         end; try done.
    all: injection Hfind as <-; split; [lia|].
    all: eexists _, _; split_and!; [reflexivity|reflexivity|done|done].
  - destruct p as [|[|[|p]]]; simpl in HP; [| | |done].
    all: injection HP as <-; simpl in Hfind.
    all: repeat match type of Hfind with
         | context [?a =? ?b] => destruct (Z.eqb_spec a b) as [->|_]
         end; try done.
    all: injection Hfind as <-; split; [lia|].
    all: eexists _, _; split_and!; [reflexivity|reflexivity|done|done].
Qed.

Lemma shared_transport (n : nat) :
  (n = 2 ∨ n = 3)%nat → transport size false true src dst (group n).
Proof.
  intros [-> | ->] p q P Q HP HQ.
  - destruct p as [|[|p]]; simpl in HP; [| |done].
    all: injection HP as <-.
    all: destruct q as [|[|q]]; simpl in HQ; [| |done].
    all: injection HQ as <-.
    all: split; vm_compute; reflexivity.
  - destruct p as [|[|[|p]]]; simpl in HP; [| | |done].
    all: injection HP as <-.
    all: destruct q as [|[|[|q]]]; simpl in HQ; [| | |done].
    all: injection HQ as <-.
    all: split; vm_compute; reflexivity.
Qed.

Lemma shared_setting (n : nat) :
  (n = 2 ∨ n = 3)%nat →
  round_trip_setting size false true src dst (group n).
Proof.
  intros Hn. split_and!.
  - done.
  - unfold group. rewrite Forall_fmap. apply Forall_forall.
    intros p Hp. apply elem_of_seq in Hp.
    apply shared_trip_ok; [done|lia].
  - by apply shared_symmetric.
  - by apply shared_transport.
  - unfold group. rewrite Forall_fmap. apply Forall_forall.
    intros p Hp. split; apply shared_clean.
Qed.

Lemma shared_receive_once : Forall (receive_once size) (group 2).
Proof.
  unfold group. rewrite Forall_fmap. apply Forall_forall.
  intros p Hp. apply elem_of_seq in Hp.
  assert (p = 0 ∨ p = 1)%nat as [->| ->] by lia.
  all: unfold receive_once; vm_compute; apply NoDup_singleton.
Qed.

Lemma shared_round_trip_source :
  (r ← round_trip size false true src dst (trip_of 3 0);
   res_store r src !! 0%nat) = Some 20.
Proof. vm_compute. reflexivity. Qed.

(** C5 as the specification has it fails among three processes that share
    an index: their interfaces are symmetric, the containers are two, the
    transport is clean, yet after [forward] and [backward] with the Copy
    policy the source of process 0 holds 20 at position 0, where it
    held 10. *)
Lemma round_trip_overwrites_shared_position :
  round_trip_setting size false true src dst (group 3)
  ∧ ¬ round_trip_restores size false true src dst (group 3).
Proof.
  split; [apply shared_setting; by right|].
  intros Hrestores.
  destruct (Hrestores (trip_of 3 0)) as (r & Hr & Hsend & _).
  { unfold group. simpl. by left. }
  specialize (Hsend 0). pose proof shared_round_trip_source as Hsrc.
  rewrite Hr in Hsrc. simpl in Hsrc.
  change (Z.to_nat 0) with 0%nat in Hsend.
  rewrite Hsend in Hsrc; [|vm_compute; by left].
  vm_compute in Hsrc. discriminate.
Qed.

(** Between two processes the round trip restores the source. *)
Lemma round_trip_restores_when_received_once_witness :
  round_trip_setting size false true src dst (group 2)
  ∧ Forall (receive_once size) (group 2)
  ∧ round_trip_restores size false true src dst (group 2).
Proof.
  split; [apply shared_setting; by left|].
  split; [exact shared_receive_once|].
  apply round_trip_restores_when_received_once.
  - apply shared_setting. by left.
  - exact shared_receive_once.
Defined.

End SharedFacts.

(** ** The theorems on the process with two peers *)

Section SampleFacts.

Import Sample.

Local Abbreviation policy := (CommPolicy_default Z size).
Local Abbreviation Copy := (CopyGatherScatter Z size).
Local Abbreviation block_policy := (CommPolicy_VariableBlockVector Z size).
Local Abbreviation fresh := (@BufferedCommunicator_new (list Z) policy).
Local Abbreviation block_fresh :=
  (@BufferedCommunicator_new (list (list Z)) block_policy).

Lemma sample_wf : StdMap.wf (interfaces interface).
Proof. unfold StdMap.wf. vm_compute. repeat constructor. Qed.

Lemma sample_counts (data : list Z) :
  @counts_in_range _ policy data (send_lists interface)
  ∧ @counts_in_range _ policy data (recv_lists interface).
Proof. by split; split_and!. Qed.

Lemma sample_lists :
  lists_in_range (send_lists interface)
  ∧ lists_in_range (recv_lists interface).
Proof. split; unfold lists_in_range; eval_lists; solve_Forall. Qed.

Lemma sample_built : @built _ policy plan interface source dest.
Proof.
  apply build_built;
    [apply sample_wf | reflexivity | apply sample_counts
    | apply sample_counts | apply sample_lists | apply sample_lists].
Qed.


Lemma sample_fit : @counts_fit_int _ policy plan.
Proof.
  unfold counts_fit_int.
  let l := eval vm_compute in (@messageInformation_ _ policy plan) in
  change (@messageInformation_ _ policy plan) with l.
  solve_Forall.
Qed.



Lemma MessageSizeCalculator_SizeOne_ignores_data_witness :
  @Flag _ policy = SizeOne
  ∧ @MessageSizeCalculator _ policy source [0; 2]
    = @MessageSizeCalculator _ policy dest [0; 2]
  ∧ @build _ policy 0 fresh source dest interface
    = @build_SizeOne _ policy 0 (λ _, 0) fresh interface.
Proof.
  split; [reflexivity|].
  apply (@MessageSizeCalculator_SizeOne_ignores_data _ policy
           0 source dest [0; 2] (λ _, 0) fresh source dest interface).
  reflexivity.
Defined.


Lemma gather_SizeOne_fills_send_buffer_witness :
  @Flag _ policy = SizeOne
  ∧ @MessageGatherer_SizeOne _ policy false true true
      (λ vec i, vec !!! Z.to_nat i) (λ _, 0) interface source
      (buffers_ (@build_SizeOne _ policy 0 (λ _, 0) fresh interface)).1
      (bufferSize_ (@build_SizeOne _ policy 0 (λ _, 0) fresh interface)).1
    = Some ([10; 30; 20],
            [EvGather 0 0 None; EvGather 1 2 None; EvGather 2 1 None]).
Proof.
  split; [reflexivity|].
  destruct (@gather_SizeOne_fills_send_buffer _ policy 0 false true true
              (λ vec i, vec !!! Z.to_nat i) (λ _, 0) fresh interface source)
    as [Hg _].
  - reflexivity.
  - exact sample_wf.
  - reflexivity.
  - exact (proj1 (sample_counts source)).
  - exact (proj2 (sample_counts source)).
  - exact Hg.
Defined.



Lemma rank_queries_do_not_influence_exchange_witness :
  waitany (env 0 1 (λ _, 0)) = waitany (env 5 1 (λ _, 0))
  ∧ option_Forall2 same_but_rank
      (@sendRecv _ policy false true true Copy plan (env 0 1 (λ _, 0)) st
                 0%nat 1%nat)
      (@sendRecv _ policy false true true Copy plan (env 5 1 (λ _, 0)) st
                 0%nat 1%nat).
Proof.
  split; [reflexivity|].
  destruct (@rank_queries_do_not_influence_exchange _ policy 0 false true
              true Copy fresh plan interface (env 0 1 (λ _, 0))
              (env 5 1 (λ _, 0)) st 0%nat 1%nat source (buffers_ plan).1
              (bufferSize_ plan).1)
    as (_ & _ & Hsame); [reflexivity..|exact Hsame].
Defined.








End SampleFacts.

(** * Further properties of the buffered communicator *)

Section ExchangeTheorems.

Context {Data : Type} `{policy : CommPolicy Data}.
Variable NDEBUG DUNE_ISTL_WITH_CHECKING : bool.

Lemma built_kept (c c' : BufferedCommunicator) interface
    (source dest : Data) :
  built c interface source dest →
  messageInformation_ c' = messageInformation_ c →
  bufferSize_ c' = bufferSize_ c →
  interface_ c' = interface_ c →
  length (buffers_ c').1 = length (buffers_ c).1 →
  length (buffers_ c').2 = length (buffers_ c).2 →
  built c' interface source dest.
Proof.
  intros (Hwf & HS & HR & HLS & HLR & Hplan) Hmi Hbs Hi Hb1 Hb2.
  unfold built. split_and!; try done.
  unfold is_plan in *. rewrite Hmi, Hbs, Hi, Hb1, Hb2. exact Hplan.
Qed.

(** X1: on a built plan whose slabs are of at most [INT_MAX] bytes no
    assertion of the exchange fails: [sendRecv] ends, and it ends alike
    whether [NDEBUG] and [DUNE_ISTL_WITH_CHECKING] are defined or not. *)
Theorem assertions_hold_on_built_plan
    (NDEBUG' DUNE_ISTL_WITH_CHECKING' FORWARD : bool)
    (gs : GatherScatter Data) (c : BufferedCommunicator)
    (interface : Interface) (source dest : Data) (env : mpi_env)
    (st : store Data) (from to : ref) :
  exchange_ok FORWARD gs c interface source dest env st from to →
  counts_fit_int c →
  is_Some (sendRecv NDEBUG DUNE_ISTL_WITH_CHECKING FORWARD gs c env st
                    from to)
  ∧ sendRecv NDEBUG DUNE_ISTL_WITH_CHECKING FORWARD gs c env st from to
    = sendRecv NDEBUG' DUNE_ISTL_WITH_CHECKING' FORWARD gs c env st from to.
Proof.
  intros Hok Hfit.
  destruct (sendRecv_state NDEBUG DUNE_ISTL_WITH_CHECKING FORWARD gs c
              interface source dest env st from to Hok Hfit)
    as (w & Hrun & _).
  by rewrite !Hrun.
Qed.

(** X2: an exchange on a plan whose slabs are of at most [INT_MAX] bytes
    does not change the plan: afterwards the communicator
    holds the same offsets, sizes and buffer capacities, the containers
    have the layout they had, and every exchange that could be run before
    can be run again, in either direction. *)
Theorem exchange_keeps_plan
    (FORWARD : bool) (gs : GatherScatter Data) (c : BufferedCommunicator)
    (interface : Interface) (source dest : Data) (env : mpi_env)
    (st : store Data) (from to : ref) :
  exchange_ok FORWARD gs c interface source dest env st from to →
  counts_fit_int c →
  ∃ r,
    sendRecv NDEBUG DUNE_ISTL_WITH_CHECKING FORWARD gs c env st from to
    = Some r
    ∧ built (res_comm r) interface source dest
    ∧ counts_fit_int (res_comm r)
    ∧ messageInformation_ (res_comm r) = messageInformation_ c
    ∧ bufferSize_ (res_comm r) = bufferSize_ c
    ∧ ∀ (FORWARD' : bool) env' (from' to' : ref),
        exchange_ok FORWARD' gs c interface source dest env' st from' to' →
        is_Some (sendRecv NDEBUG DUNE_ISTL_WITH_CHECKING FORWARD' gs
                          (res_comm r) env' (res_store r) from' to').
Proof.
  intros Hok Hfit.
  destruct (sendRecv_state NDEBUG DUNE_ISTL_WITH_CHECKING FORWARD gs c
              interface source dest env st from to Hok Hfit)
    as (w & Hrun & Hrlen & Hslen & _ & _ & Hframe & Hsize & _).
  pose proof Hok as (Hb & Hflag & Hkeep & _).
  eexists. split; [apply Hrun|].
  assert (built (res_comm
                   (finish FORWARD c interface env
                      (gathered gs (st from)
                         <$> all_slots (st from)
                               (gather_lists FORWARD interface))
                      (gather_events 0
                         (all_slots (st from)
                            (gather_lists FORWARD interface))) w))
                interface source dest) as Hb'.
  { apply (built_kept c); try done; unfold finish; simpl;
      by destruct FORWARD. }
  split; [exact Hb'|]. split; [exact Hfit|]. split; [done|]. split; [done|].
  intros FORWARD' env' from' to' (_ & _ & _ & Hfrom' & Hto' & Hval').
  assert (∀ x data lists,
            same_layout (st x) data lists →
            same_layout (rs_store w x) data lists) as Hlayout.
  { intros x data lists Hsame.
    destruct (decide (x = to)) as [->|Hx]; [|by rewrite Hframe].
    intros HF. specialize (Hsame HF).
    eapply Forall_impl; [exact Hsame|]. intros l Hl.
    eapply Forall_impl; [exact Hl|]. intros index Hindex. simpl in *.
    by rewrite (Hsize HF). }
  set (r := finish FORWARD c interface env _ _ w) in *.
  destruct (sendRecv_state NDEBUG DUNE_ISTL_WITH_CHECKING FORWARD' gs
              (res_comm r) interface source dest env' (res_store r)
              from' to')
    as (w' & Hrun' & _).
  { split_and!; try done; by apply Hlayout. }
  { exact Hfit. }
  by rewrite Hrun'.
Qed.

Lemma delivered_if_failed (FORWARD : bool) (gs : GatherScatter Data)
    interface (rep : Data) env (ks : list nat) (d : Data) :
  Forall (λ k, (waitany env k).2 ≠ MPI_SUCCESS) ks →
  fold_left (delivered_if FORWARD gs interface rep env) ks d = d.
Proof.
  induction 1 as [|k ks Hk _ IH]; [done|].
  cbn [fold_left]. unfold delivered_if at 2.
  by rewrite (bool_decide_eq_false_2 _ Hk).
Qed.

(** X3: what an exchange on a plan whose slabs are of at most [INT_MAX]
    bytes does to the containers, also when it ends in
    [CommunicationError]: the receiving container is the old one with the
    message of every successfully completed receive scattered over the
    list of its peer, in the order of completion; a receive that reported
    an error scatters nothing (when all do, the container is as it was);
    no other container is written. *)
Theorem exchange_scatters_successful_receives
    (FORWARD : bool) (gs : GatherScatter Data) (c : BufferedCommunicator)
    (interface : Interface) (source dest : Data) (env : mpi_env)
    (st : store Data) (from to : ref) :
  exchange_ok FORWARD gs c interface source dest env st from to →
  counts_fit_int c →
  messages_complete FORWARD interface (if FORWARD then dest else source)
                    env →
  ∃ r,
    sendRecv NDEBUG DUNE_ISTL_WITH_CHECKING FORWARD gs c env st from to
    = Some r
    ∧ res_store r to
      = fold_left (delivered_if FORWARD gs interface
                                (if FORWARD then dest else source) env)
                  (seq 0 (length (interfaces interface))) (st to)
    ∧ (Forall (λ k, (waitany env k).2 ≠ MPI_SUCCESS)
              (seq 0 (length (interfaces interface))) →
       res_store r to = st to)
    ∧ ∀ x, x ≠ to → res_store r x = st x.
Proof.
  intros Hok Hfit Hcomplete.
  destruct (sendRecv_state NDEBUG DUNE_ISTL_WITH_CHECKING FORWARD gs c
              interface source dest env st from to Hok Hfit)
    as (w & Hrun & _ & _ & _ & _ & Hframe & _ & _ & Hstore).
  eexists. split; [apply Hrun|]. unfold finish. cbn [res_store].
  split_and!; [by apply Hstore| |exact Hframe].
  intros Hfail. rewrite (Hstore Hcomplete). by apply delivered_if_failed.
Qed.

End ExchangeTheorems.

Section DiagnosticTheorems.

Context {Data : Type} `{policy : CommPolicy Data}.
Variable NDEBUG DUNE_ISTL_WITH_CHECKING : bool.

(** The report of a failed send on [std::cerr]. *)
Definition is_send_report (e : event) : Prop :=
  match e with EvCerr _ true _ => True | _ => False end.

Lemma no_send_report_imap {A} (f : nat → A → event) (l : list A) e :
  (∀ i a, ¬ is_send_report (f i a)) → e ∈ imap f l → ¬ is_send_report e.
Proof.
  intros Hf He. apply elem_of_lookup_imap_1 in He as (i & a & -> & _).
  apply Hf.
Qed.

Lemma no_send_report_receive (FORWARD : bool) interface
    (mi : InformationMap) (data : Data) env rank (ks : list nat) e :
  e ∈ ks ≫= receive_block FORWARD interface mi data env rank →
  ¬ is_send_report e.
Proof.
  intros He. apply list_elem_of_bind in He as (k & He & _).
  unfold receive_block in He.
  apply elem_of_cons in He as [->|He]; [by intros []|].
  destruct (_ ≫= _) as [e'|]; [|by apply elem_of_nil in He].
  destruct (_ ≫= _) as [info|]; [|by apply elem_of_nil in He].
  case_bool_decide.
  - unfold scatter_events in He.
    eapply no_send_report_imap; [|exact He]. by intros i a [].
  - apply list_elem_of_singleton in He as ->. by intros [].
Qed.

Lemma send_report_wait env rank blame (n : nat) e :
  e ∈ wait_events env rank blame n → is_send_report e →
  e = EvCerr rank true blame
  ∧ ∃ i, (i < n)%nat ∧ wait env i ≠ MPI_SUCCESS.
Proof.
  intros He Hrep. apply list_elem_of_bind in He as (i & He & Hi).
  apply elem_of_seq in Hi.
  apply elem_of_cons in He as [->|He]; [done|].
  case_bool_decide as Hw; [by apply elem_of_nil in He|].
  apply list_elem_of_singleton in He as ->.
  split; [done|]. exists i. split; [lia|done].
Qed.

(** X4: the report of a failed send names the peer whose receive completed
    last, whichever send failed: on a plan whose slabs are of at most
    [INT_MAX] bytes every failed [MPI_Wait] writes the rank
    and [processMap[finished]] with the [finished] the last [MPI_Waitany]
    left, and nothing else reports a failed send. *)
Theorem send_report_names_last_completed_receive
    (FORWARD : bool) (gs : GatherScatter Data) (c : BufferedCommunicator)
    (interface : Interface) (source dest : Data) (env : mpi_env)
    (st : store Data) (from to : ref) :
  exchange_ok FORWARD gs c interface source dest env st from to →
  counts_fit_int c →
  let n := length (interfaces interface) in
  let last_peer :=
    (waitany env (n - 1)).1 ≫= (StdMap.keys (interfaces interface) !!.) in
  ∃ r,
    sendRecv NDEBUG DUNE_ISTL_WITH_CHECKING FORWARD gs c env st from to
    = Some r
    ∧ (∀ i, (i < n)%nat → wait env i ≠ MPI_SUCCESS →
            EvCerr (comm_rank env MPI_COMM_WORLD) true last_peer
            ∈ res_trace r)
    ∧ (∀ e, e ∈ res_trace r → is_send_report e →
            e = EvCerr (comm_rank env MPI_COMM_WORLD) true last_peer
            ∧ ∃ i, (i < n)%nat ∧ wait env i ≠ MPI_SUCCESS).
Proof.
  intros Hok Hfit n last_peer.
  destruct (sendRecv_state NDEBUG DUNE_ISTL_WITH_CHECKING FORWARD gs c
              interface source dest env st from to Hok Hfit)
    as (w & Hrun & _ & _ & Htr & _ & _ & _ & Hfin & _).
  destruct Hok as (Hb & _).
  pose proof (plan_length c interface source dest Hb) as Hpl.
  pose proof Hb as (_ & _ & _ & _ & _ & Hkeys & _).
  eexists. split; [apply Hrun|].
  unfold finish. cbn [res_trace]. rewrite Hpl, Hkeys. fold n.
  assert (∀ i, (i < n)%nat →
               rs_finished w
               ≫= (StdMap.keys (interfaces interface) !!.) = last_peer)
    as Hblame.
  { intros i Hi. rewrite Hfin. fold n. by destruct n; [lia|]. }
  split.
  - intros i Hi Hw. rewrite !elem_of_app. do 4 right. left.
    rewrite (Hblame i Hi). unfold wait_events.
    apply list_elem_of_bind. exists i. split; [|apply elem_of_seq; lia].
    rewrite (bool_decide_eq_false_2 _ Hw). right. by left.
  - intros e He Hrep. rewrite !elem_of_app in He.
    destruct He as [He|[He|[He|[He|[He|[He|He]]]]]].
    + exfalso. unfold gather_events in He.
      eapply no_send_report_imap; [|exact He|exact Hrep]. by intros i a [].
    + exfalso. unfold irecv_events in He.
      eapply no_send_report_imap; [|exact He|exact Hrep]. by intros i a [].
    + exfalso. unfold issend_events in He.
      eapply no_send_report_imap; [|exact He|exact Hrep]. by intros i a [].
    + exfalso. rewrite Htr in He.
      by eapply no_send_report_receive; [exact He|exact Hrep].
    + destruct (send_report_wait _ _ _ _ _ He Hrep) as [-> (i & Hi & Hw)].
      rewrite (Hblame i Hi). split; [done|by exists i].
    + apply list_elem_of_singleton in He as ->. done.
    + case_bool_decide; [|by apply elem_of_nil in He].
      apply list_elem_of_singleton in He as ->. done.
Qed.

(** X5: a process without peers still takes part in the reduction: on the
    plan of an empty interface an exchange posts nothing, leaves every
    container as it is, contributes the flag 1 to the MIN all-reduce, and
    throws [CommunicationError] exactly when the reduction returns 0. *)
Theorem exchange_without_peers
    (FORWARD : bool) (gs : GatherScatter Data) (c : BufferedCommunicator)
    (interface : Interface) (source dest : Data) (env : mpi_env)
    (st : store Data) (from to : ref) :
  exchange_ok FORWARD gs c interface source dest env st from to →
  interfaces interface = [] →
  ∃ r,
    sendRecv NDEBUG DUNE_ISTL_WITH_CHECKING FORWARD gs c env st from to
    = Some r
    ∧ res_trace r
      = EvAllreduce_MIN 1 (communicator interface) (allreduce_min env 1)
        :: (if bool_decide (allreduce_min env 1 = 0)
            then [EvThrow_CommunicationError] else [])
    ∧ res_thrown r = bool_decide (allreduce_min env 1 = 0)
    ∧ ∀ x, res_store r x = st x.
Proof.
  intros Hok Hempty.
  assert (messageInformation_ c = []) as Hnone.
  { destruct Hok as (Hb & _).
    pose proof (plan_length c interface source dest Hb) as Hpl.
    rewrite Hempty in Hpl. by apply nil_length_inv in Hpl. }
  assert (counts_fit_int c) as Hfit.
  { unfold counts_fit_int. rewrite Hnone. constructor. }
  destruct (sendRecv_state NDEBUG DUNE_ISTL_WITH_CHECKING FORWARD gs c
              interface source dest env st from to Hok Hfit)
    as (w & Hrun & _ & _ & Htr & Hsucc & Hframe & _ & _ & Hstore).
  destruct Hok as (Hb & _).
  pose proof (plan_length c interface source dest Hb) as Hpl.
  rewrite Hempty in Hpl, Htr, Hsucc, Hstore. simpl in *.
  apply nil_length_inv in Hpl.
  eexists. split; [apply Hrun|].
  unfold finish, gather_lists, send_lists, recv_lists.
  rewrite Hpl, Hempty, Htr, Hsucc. simpl.
  split_and!; try by destruct FORWARD.
  intros x. destruct (decide (x = to)) as [->|Hx]; [|by apply Hframe].
  apply Hstore. intros k i e _ _ He. by rewrite Hempty in He.
Qed.

End DiagnosticTheorems.

Section BackwardTheorems.

Context {Data : Type} `{policy : CommPolicy Data}.
Variable NDEBUG DUNE_ISTL_WITH_CHECKING : bool.


(** X7: a peer is sent the values of its own list and nothing else: on a
    plan whose slabs are of at most [INT_MAX] bytes the
    message posted for a peer holds the values gathered at the positions of
    that peer's send list (of its receive list in [backward]), in list
    order. *)
Theorem peer_is_sent_its_own_list
    (FORWARD : bool) (gs : GatherScatter Data) (c : BufferedCommunicator)
    (interface : Interface) (source dest : Data) (env : mpi_env)
    (st : store Data) (from to : ref) (i : nat)
    (e : Z * (InterfaceInformation * InterfaceInformation)) :
  exchange_ok FORWARD gs c interface source dest env st from to →
  counts_fit_int c →
  interfaces interface !! i = Some e →
  ∃ r,
    sendRecv NDEBUG DUNE_ISTL_WITH_CHECKING FORWARD gs c env st from to
    = Some r
    ∧ sent_to e.1 (res_trace r)
      = Some (gathered gs (st from)
                <$> slots (st from) (if FORWARD then e.2.1 else e.2.2)).
Proof. apply posted_message. Qed.

End BackwardTheorems.

(** ** Building and freeing the plan *)

Section PlanTheorems.

Context {Data : Type} `{policy : CommPolicy Data}.
Variable indeterminate : IndexedType.
Variable NDEBUG DUNE_ISTL_WITH_CHECKING : bool.

Lemma insert_present {T} (k : Z) (v : T) (m : StdMap.t T) :
  StdMap.wf m → k ∈ StdMap.keys m → StdMap.insert k v m = m.
Proof.
  unfold StdMap.wf, StdMap.keys.
  induction m as [|[k' v'] m IH]; intros Hwf Hk; simpl in *.
  { by apply elem_of_nil in Hk. }
  apply StronglySorted_inv in Hwf as [Hwf Hlt].
  apply elem_of_cons in Hk as [->|Hk].
  - by rewrite Z.ltb_irrefl, Z.eqb_refl.
  - rewrite Forall_forall in Hlt. specialize (Hlt k Hk).
    destruct (Z.ltb_spec k k'); [lia|].
    destruct (Z.eqb_spec k k'); [lia|].
    by rewrite IH.
Qed.

Lemma build_fold_present nS nR (l : list (Z * (InterfaceInformation
                                               * InterfaceInformation))) :
  ∀ (b : Z * Z) (mi : InformationMap),
  StdMap.wf mi →
  (∀ e, e ∈ l → e.1 ∈ StdMap.keys mi) →
  (fold_left (build_step nS nR) l (b, mi)).2 = mi.
Proof.
  induction l as [|e l IH]; intros [b0 b1] mi Hwf Hin; [done|].
  simpl. rewrite insert_present; [|done|apply Hin; by left].
  apply IH; [done|]. intros e' He'. apply Hin. by right.
Qed.

Lemma build_fold_sizes nS nR (l : list (Z * (InterfaceInformation
                                             * InterfaceInformation))) :
  ∀ (b : Z * Z) (mi mi' : InformationMap),
  (fold_left (build_step nS nR) l (b, mi)).1
  = (fold_left (build_step nS nR) l (b, mi')).1.
Proof.
  induction l as [|e l IH]; intros [b0 b1] mi mi'; [done|].
  simpl. apply IH.
Qed.

(** X8: [build] does not replace a plan that was not freed:
    [messageInformation_.insert] leaves the entry of a peer that is already
    there, so when every peer of the interface has an entry the offsets and
    sizes stay the old ones, while the buffers and their sizes are the ones
    of the new interface. *)
Theorem build_without_free_keeps_old_entries
    (c : BufferedCommunicator) (source dest : Data)
    (interface : Interface) :
  StdMap.wf (messageInformation_ c) →
  (∀ e, e ∈ interfaces interface →
        e.1 ∈ StdMap.keys (messageInformation_ c)) →
  let rebuilt := build indeterminate c source dest interface in
  let fresh :=
    build indeterminate BufferedCommunicator_new source dest interface in
  messageInformation_ rebuilt = messageInformation_ c
  ∧ bufferSize_ rebuilt = bufferSize_ fresh
  ∧ buffers_ rebuilt = buffers_ fresh
  ∧ interface_ rebuilt = Some interface.
Proof.
  intros Hwf Hin rebuilt fresh. subst rebuilt fresh.
  unfold build, build_with.
  pose proof (build_fold_present (MessageSizeCalculator source)
                (MessageSizeCalculator dest) (interfaces interface)
                (0, 0) (messageInformation_ c) Hwf Hin) as Hmi.
  pose proof (build_fold_sizes (MessageSizeCalculator source)
                (MessageSizeCalculator dest) (interfaces interface)
                (0, 0) (messageInformation_ c)
                (messageInformation_ BufferedCommunicator_new)) as Hsz.
  destruct (fold_left _ _ (_, messageInformation_ c)) as [[b0 b1] mi].
  destruct (fold_left _ _ (_, messageInformation_ BufferedCommunicator_new))
    as [[b0' b1'] mi'].
  simpl in *. by injection Hsz as -> ->.
Qed.

(** X9: [free] makes the communicator new again: freeing twice is
    freeing once, a communicator without a plan is left as it is, [build]
    after [free] makes the plan it makes on a new communicator, and an
    exchange on a freed communicator is undefined ([interface_] is null). *)
Theorem free_forgets_the_plan
    (FORWARD : bool) (gs : GatherScatter Data) (c : BufferedCommunicator)
    (source dest : Data) (interface : Interface) (env : mpi_env)
    (st : store Data) (from to : ref) :
  interface_ c ≠ None →
  free (free c) = free c
  ∧ build indeterminate (free c) source dest interface
    = build indeterminate BufferedCommunicator_new source dest interface
  ∧ free (build indeterminate (free c) source dest interface)
    = {| messageInformation_ := StdMap.empty;
         buffers_ := ([], []);
         bufferSize_ :=
           bufferSize_ (build indeterminate BufferedCommunicator_new
                              source dest interface);
         interface_ := None |}
  ∧ sendRecv NDEBUG DUNE_ISTL_WITH_CHECKING FORWARD gs (free c) env st
             from to = None.
Proof.
  intros Hc.
  destruct (interface_ c) as [i|] eqn:Hi; [clear Hc|done].
  assert (free c = {| messageInformation_ := StdMap.empty;
                      buffers_ := ([], []);
                      bufferSize_ := bufferSize_ c;
                      interface_ := None |}) as Hfree
    by (unfold free; by rewrite Hi).
  assert (build indeterminate (free c) source dest interface
          = build indeterminate BufferedCommunicator_new source dest
                  interface) as Hbuild
    by (by rewrite Hfree).
  split_and!.
  - by rewrite Hfree.
  - exact Hbuild.
  - rewrite Hbuild. unfold build, build_with.
    by destruct (fold_left _ _ _) as [[b0 b1] mi].
  - rewrite Hfree. unfold sendRecv. simpl. by destruct FORWARD.
Qed.


End PlanTheorems.

(** ** Exchanges with the Copy policy *)

Section CopyTheorems.

Context {V : Type} `{Inhabited V}.
Variable size : positive.
Variable NDEBUG DUNE_ISTL_WITH_CHECKING : bool.

Local Abbreviation pol := (CommPolicy_default V size).
Local Abbreviation Copy := (CopyGatherScatter V size).
Local Abbreviation env_of := (@mpi_env (list V) pol).
Local Abbreviation list_of FORWARD e :=
  (if FORWARD then e.2.2 else e.2.1 : InterfaceInformation).

(** The container [d] is [d0] with the messages of [env] written at the
    positions of the scatter lists. *)
Definition holds_messages (FORWARD : bool) (interface : Interface)
    (env : env_of) (d0 d : list V) : Prop :=
  length d = length d0
  ∧ (∀ (i : nat) e (j : nat) x,
       interfaces interface !! i = Some e →
       list_of FORWARD e !! j = Some x →
       d !! Z.to_nat x = payload env e.1 !! j)
  ∧ (∀ j : nat,
       (∀ x, x ∈ concat (scatter_lists FORWARD interface) →
             Z.to_nat x ≠ j) →
       d !! j = d0 !! j).

(** What the transport has to deliver for the result to be the messages:
    no error, every request completed once, messages of the length of the
    lists, lists that name no position twice and stay inside the
    container. *)
Definition clean_exchange (FORWARD : bool) (interface : Interface)
    (env : env_of) (d0 : list V) : Prop :=
  clean size env (length (interfaces interface))
  ∧ NoDup (concat (scatter_lists FORWARD interface))
  ∧ Forall (Forall (λ x, 0 <= x < Z.of_nat (length d0)))
           (scatter_lists FORWARD interface)
  ∧ ∀ (i : nat) e, interfaces interface !! i = Some e →
                   length (payload env e.1) = length (list_of FORWARD e).

Lemma copy_exchange_state (FORWARD : bool) c interface
    (source dest : list V) (env : env_of) (st : store (list V))
    (from to : ref) :
  @built _ pol c interface source dest →
  @counts_fit_int _ pol c →
  clean_exchange FORWARD interface env (st to) →
  ∃ r,
    @sendRecv _ pol NDEBUG DUNE_ISTL_WITH_CHECKING FORWARD Copy c env st
              from to = Some r
    ∧ holds_messages FORWARD interface env (st to) (res_store r to)
    ∧ @built _ pol (res_comm r) interface source dest
    ∧ ∀ x, x ≠ to → res_store r x = st x.
Proof.
  intros Hb Hfit ([Hclean Hperm] & Hnd & Hrange & Hpay).
  destruct (sendRecv_clean NDEBUG DUNE_ISTL_WITH_CHECKING FORWARD Copy
              c interface source dest env st from to)
    as (r & Hr & Hstore & Hframe & Hmi & Hbs & Hi & Hb1 & Hb2).
  { by apply copy_exchange_ok. }
  { exact Hfit. }
  { intros i e He. rewrite slots_Copy, length_fmap.
    by rewrite (Hpay i e He). }
  { by apply (clean_success size). }
  destruct (completions_lookup size FORWARD interface
              (if FORWARD then dest else source) env
              (seq 0 (length (interfaces interface))) (st to))
    as (Hlen & Hin & Hout);
    [by apply complete_once_NoDup|done|done|done|].
  rewrite <- Hstore in Hlen, Hin, Hout.
  exists r. split; [done|].
  split; [|split; [by apply (built_same size c)|done]].
  split; [done|]. split.
  - intros i e j x He Hx.
    destruct (complete_once_all size env _ i Hperm)
      as (k & Hk & Hki); [by eapply lookup_lt_Some|].
    by apply (Hin k i e j x).
  - intros j Hj. apply Hout. intros k i e x _ _ He Hx. apply Hj.
    apply elem_of_concat. exists (list_of FORWARD e). split; [|done].
    apply (scatter_list_elem FORWARD _ i e He).
Qed.

Lemma holds_messages_eq (FORWARD : bool) interface (env env' : env_of)
    (d0 d d0' d' : list V) :
  holds_messages FORWARD interface env d0 d →
  holds_messages FORWARD interface env' d0' d' →
  payload env = payload env' →
  length d0 = length d0' →
  (∀ j : nat,
     (∀ x, x ∈ concat (scatter_lists FORWARD interface) → Z.to_nat x ≠ j) →
     d0 !! j = d0' !! j) →
  d = d'.
Proof.
  intros (Hlen & Hin & Hout) (Hlen' & Hin' & Hout') Hpay Hl0 Hsame.
  apply list_eq. intros j.
  destruct (decide (j ∈ Z.to_nat
                          <$> concat (scatter_lists FORWARD interface)))
    as [Hj|Hj].
  - apply list_elem_of_fmap in Hj as (x & -> & Hx).
    apply elem_of_concat in Hx as (xs & Hxs & Hx).
    apply list_elem_of_lookup in Hxs as [i Hi].
    apply list_elem_of_lookup in Hx as [k Hk].
    assert (∃ e, interfaces interface !! i = Some e
                 ∧ xs = list_of FORWARD e) as (e & He & ->).
    { unfold scatter_lists, recv_lists, send_lists in Hi.
      destruct FORWARD; rewrite map_lookup in Hi;
        destruct (interfaces interface !! i) as [e|]; try done;
        injection Hi as <-; by exists e. }
    by rewrite (Hin i e k x He Hk), (Hin' i e k x He Hk), Hpay.
  - assert (∀ x, x ∈ concat (scatter_lists FORWARD interface) →
                 Z.to_nat x ≠ j) as Hj'.
    { intros x Hx <-. apply Hj. apply list_elem_of_fmap. by exists x. }
    by rewrite (Hout j Hj'), (Hout' j Hj'), (Hsame j Hj').
Qed.

(** X11: with the Copy policy, slabs of at most [INT_MAX] bytes and
    receive lists that name no position twice, the receiving container after an error-free exchange does not
    depend on the order in which the receives complete. *)
Theorem copy_result_is_independent_of_completion_order
    (FORWARD : bool) c interface (source dest : list V)
    (env1 env2 : env_of) (st : store (list V)) (from to : ref) :
  @built _ pol c interface source dest →
  @counts_fit_int _ pol c →
  clean_exchange FORWARD interface env1 (st to) →
  clean_exchange FORWARD interface env2 (st to) →
  payload env1 = payload env2 →
  ∃ r1 r2,
    @sendRecv _ pol NDEBUG DUNE_ISTL_WITH_CHECKING FORWARD Copy c env1 st
              from to = Some r1
    ∧ @sendRecv _ pol NDEBUG DUNE_ISTL_WITH_CHECKING FORWARD Copy c env2 st
                from to = Some r2
    ∧ ∀ x, res_store r1 x = res_store r2 x.
Proof.
  intros Hb Hfit H1 H2 Hpay.
  destruct (copy_exchange_state FORWARD c interface source dest env1 st
              from to Hb Hfit H1) as (r1 & Hr1 & Hm1 & _ & Hf1).
  destruct (copy_exchange_state FORWARD c interface source dest env2 st
              from to Hb Hfit H2) as (r2 & Hr2 & Hm2 & _ & Hf2).
  exists r1, r2. split_and!; try done.
  intros x.
  destruct (decide (x = to)) as [->|Hx]; [|by rewrite Hf1, Hf2].
  by apply (holds_messages_eq FORWARD interface env1 env2
              (st to) _ (st to) _ Hm1 Hm2).
Qed.

(** X12: repeating an exchange changes nothing more: with the Copy
    policy, slabs of at most [INT_MAX] bytes and receive lists that name no
    position twice, a second error-free
    exchange that brings the same messages, run on the communicator and the
    containers the first one left, ends and leaves every container as the
    first one left it. *)
Theorem copy_exchange_twice_is_once
    (FORWARD : bool) c interface (source dest : list V)
    (env env' : env_of) (st : store (list V)) (from to : ref) :
  @built _ pol c interface source dest →
  @counts_fit_int _ pol c →
  clean_exchange FORWARD interface env (st to) →
  clean_exchange FORWARD interface env' (st to) →
  payload env = payload env' →
  ∃ r r',
    @sendRecv _ pol NDEBUG DUNE_ISTL_WITH_CHECKING FORWARD Copy c env st
              from to = Some r
    ∧ @sendRecv _ pol NDEBUG DUNE_ISTL_WITH_CHECKING FORWARD Copy
                (res_comm r) env' (res_store r) from to = Some r'
    ∧ ∀ x, res_store r' x = res_store r x.
Proof.
  intros Hb Hfit H1 H2 Hpay.
  destruct (copy_exchange_state FORWARD c interface source dest env st
              from to Hb Hfit H1) as (r & Hr & Hm & Hb' & Hf).
  pose proof Hm as (Hlen & _ & Hout).
  destruct (copy_exchange_state FORWARD (res_comm r) interface source dest
              env' (res_store r) from to Hb'
              (sendRecv_keeps_fit _ _ _ _ _ _ _ _ _ _ Hr Hfit))
    as (r' & Hr' & Hm' & _ & Hf').
  { destruct H2 as (? & ? & ? & ?). split_and!; try done.
    by rewrite Hlen. }
  exists r, r'. split_and!; try done.
  intros x.
  destruct (decide (x = to)) as [->|Hx]; [|by rewrite Hf'].
  apply (holds_messages_eq FORWARD interface env' env
           (res_store r to) _ (st to) _ Hm' Hm); [done|done|].
  intros j Hj. by apply Hout.
Qed.

(** X13: the Copy policy reads what it wrote: at a position inside the
    vector, [gather] after [scatter] returns the scattered value, other
    positions are read as before, scattering the gathered value changes
    nothing, and the vector keeps its length. *)
Theorem copy_gather_after_scatter (vec : list V) (v : V) (i j : Z) :
  0 <= i < Z.of_nat (length vec) →
  0 <= j →
  @gathered _ pol Copy (@scatter_slot _ pol Copy vec (i, None) v) (i, None)
  = v
  ∧ (i ≠ j →
     @gathered _ pol Copy (@scatter_slot _ pol Copy vec (i, None) v)
               (j, None)
     = @gathered _ pol Copy vec (j, None))
  ∧ @scatter_slot _ pol Copy vec (i, None)
                  (@gathered _ pol Copy vec (i, None)) = vec
  ∧ length (@scatter_slot _ pol Copy vec (i, None) v) = length vec.
Proof.
  intros Hi Hj. simpl. split_and!.
  - apply list_lookup_total_insert_eq. lia.
  - intros Hne. apply list_lookup_total_insert_ne. lia.
  - apply list_insert_id. apply list_lookup_lookup_total_lt. lia.
  - apply length_insert.
Qed.

End CopyTheorems.

(** * Further properties of the datatype communicator *)

Section DatatypeBuildTheorems.

(** X14: [DatatypeCommunicator::build] frees before it builds: on a built
    communicator it succeeds and gives what it gives on a new one, whatever
    the old types and requests were.  [free] on a built communicator
    releases the types and deletes both arrays of requests, but it resets
    neither [created_] nor the two pointers: a second [free] (the
    destructor's, or the one the next [build] begins with) deletes the
    arrays again, which is undefined.  [forward()] and [backward()] on a
    communicator that was never built are undefined ([remoteIndices_] is
    null). *)
Theorem datatype_build_replaces_the_plan
    (rank_of0 rank_of : Z → Z) (c0 c1 : Datatype.DatatypeCommunicator)
    (comm0 comm : Z) (types0 types : Datatype.MessageTypeMap)
    (sendData0 receiveData0 sendData receiveData : ref)
    (env : Datatype.mpi_env) :
  Datatype.build rank_of0 c0 comm0 types0 sendData0 receiveData0 = Some c1 →
  is_Some (Datatype.build rank_of c1 comm types sendData receiveData)
  ∧ Datatype.build rank_of c1 comm types sendData receiveData
    = Datatype.build rank_of Datatype.DatatypeCommunicator_new comm types
                     sendData receiveData
  ∧ (∃ c2, Datatype.free c1 = Some c2
           ∧ Datatype.messageTypes c2 = StdMap.empty
           ∧ Datatype.requests_ c2 = (Datatype.Deleted, Datatype.Deleted)
           ∧ Datatype.created_ c2 = true
           ∧ Datatype.free c2 = None
           ∧ Datatype.build rank_of c2 comm types sendData receiveData
             = None)
  ∧ Datatype.forward Datatype.DatatypeCommunicator_new env = None
  ∧ Datatype.backward Datatype.DatatypeCommunicator_new env = None.
Proof.
  intros Hbuild.
  pose proof (can_free_build _ _ _ _ _ _ _ Hbuild) as Hfree.
  apply datatype_build_inv in Hbuild as ->.
  rewrite !datatype_build by (done || apply can_free_new).
  split; [by eexists|]. split; [done|]. split; [|done].
  eexists. split; [reflexivity|]. by split_and!.
Qed.

End DatatypeBuildTheorems.

(** * Properties of the graph creators *)

Section GraphCreatorTheorems.

Context {Attribute : Type}.
Variable contains : Attribute → bool.

Import GraphCreator.

(** X15: the loop of [create] over the index set marks the vertices: when
    every local index lies inside [excluded] and no local index occurs
    twice, the loop ends, [excluded] keeps its size, the entry of every
    index of the set is [of.contains] of its attribute, and the other
    entries are as they were. *)
Theorem create_marks_excluded
    (indexSet : list (Z * Attribute)) (excluded : list bool) :
  Forall (λ index, 0 <= index.1 < Z.of_nat (length excluded)) indexSet →
  NoDup (indexSet.*1) →
  ∃ marked,
    mark_excluded contains indexSet excluded = Some marked
    ∧ length marked = length excluded
    ∧ (∀ index, index ∈ indexSet →
                marked !! Z.to_nat index.1 = Some (contains index.2))
    ∧ (∀ j : nat, (∀ index, index ∈ indexSet → Z.to_nat index.1 ≠ j) →
                  marked !! j = excluded !! j).
Proof.
  unfold mark_excluded. revert excluded.
  induction indexSet as [|[l a] indexSet IH]; intros excluded Hr Hnd.
  { exists excluded. split_and!; try done.
    by intros index ?%elem_of_nil. }
  rewrite Forall_cons in Hr. destruct Hr as [Hl Hr]. simpl in Hl.
  rewrite fmap_cons in Hnd. apply NoDup_cons in Hnd as [Hnew Hnd].
  simpl.
  assert (buffer_write excluded l (contains a)
          = Some (<[Z.to_nat l := contains a]> excluded)) as ->
    by (unfold buffer_write; by rewrite bool_decide_eq_true_2).
  simpl.
  destruct (IH (<[Z.to_nat l := contains a]> excluded))
    as (marked & Hrun & Hlen & Hin & Hout).
  { by rewrite length_insert. }
  { done. }
  exists marked. rewrite length_insert in Hlen.
  split_and!; try done.
  - intros index Hindex. apply elem_of_cons in Hindex as [->|Hindex].
    + simpl. rewrite Hout.
      * apply list_lookup_insert_eq. lia.
      * intros [l' a'] Hin' Heq. simpl in Heq.
        rewrite Forall_forall in Hr. specialize (Hr _ Hin'). simpl in Hr.
        apply Hnew. apply list_elem_of_fmap. exists (l', a').
        split; [simpl; lia|done].
    + by apply Hin.
  - intros j Hj. rewrite Hout.
    + apply list_lookup_insert_ne. apply (Hj (l, a)). by left.
    + intros index Hindex. apply Hj. by right.
Qed.

End GraphCreatorTheorems.

(** * Properties of the datatype information *)

Section InformationTheorems.

Import DatatypeInformation.

Context {Data : Type} `{policy : CommPolicy Data}.
Variable getAddress : Data → Z → Z.
Variable indeterminate : Z.
Variable NDEBUG : bool.

Lemma find_assign {T} (k : Z) (v : T) (m : StdMap.t T) :
  StdMap.find k (assign k v m) = Some v.
Proof.
  induction m as [|[k' v'] m IH]; simpl.
  { by rewrite Z.eqb_refl. }
  destruct (Z.ltb_spec k k'); simpl; [by rewrite Z.eqb_refl|].
  destruct (Z.eqb_spec k k') as [->|Hne]; simpl.
  - by rewrite Z.eqb_refl.
  - destruct (Z.eqb_spec k k'); [done|]. exact IH.
Qed.

Lemma find_assign_ne {T} (k q : Z) (v : T) (m : StdMap.t T) :
  q ≠ k → StdMap.find q (assign k v m) = StdMap.find q m.
Proof.
  intros Hq. induction m as [|[k' v'] m IH]; simpl.
  { by destruct (Z.eqb_spec q k). }
  destruct (Z.ltb_spec k k'); simpl.
  { by destruct (Z.eqb_spec q k). }
  destruct (Z.eqb_spec k k') as [->|Hne]; simpl.
  - destruct (Z.eqb_spec q k'); [done|]. done.
  - destruct (Z.eqb_spec q k'); [done|]. exact IH.
Qed.

(** The entry of [proc] after [reserve(proc, n)] and the additions of the
    first locals of a list. *)
Definition filled (data : Data) (n : Z) (added : list Z)
  : IndexedTypeInformation :=
  {| length_ :=
       Some ((getSize data <$> added)
             ++ replicate (Z.to_nat n - length added) indeterminate);
     displ :=
       Some ((getAddress data <$> added)
             ++ replicate (Z.to_nat n - length added) indeterminate);
     elements := Z.of_nat (length added);
     size_of := n |}.

Lemma add_filled (data : Data) (proc n : Z) (added : list Z) (local : Z)
    information_ :
  n <= int_max →
  Z.of_nat (length added) < n →
  StdMap.find proc information_ = Some (filled data n added) →
  add getAddress NDEBUG data proc local information_
  = Some (assign proc (filled data n (added ++ [local])) information_).
Proof.
  intros Hn Hk Hfind. unfold add. rewrite Hfind. simpl.
  rewrite bool_decide_eq_true_2 by done.
  assert (assert NDEBUG true = Some ()) as -> by (by destruct NDEBUG).
  simpl.
  assert (∀ (f : Z → Z),
            buffer_write ((f <$> added)
                          ++ replicate (Z.to_nat n - length added)
                                       indeterminate)
                         (Z.of_nat (length added)) (f local)
            = Some ((f <$> added ++ [local])
                    ++ replicate (Z.to_nat n - length (added ++ [local]))
                                 indeterminate)) as Hwrite.
  { intros f. unfold buffer_write.
    rewrite bool_decide_eq_true_2
      by (rewrite length_app, length_fmap, length_replicate; lia).
    f_equal. rewrite Nat2Z.id.
    rewrite <- (length_fmap f added) at 1.
    rewrite insert_app_r_alt by lia. rewrite Nat.sub_diag.
    rewrite fmap_app, <- app_assoc. f_equal.
    rewrite length_app. simpl.
    destruct (Z.to_nat n - length added)%nat as [|m] eqn:Hm; [lia|].
    simpl. do 2 f_equal. lia. }
  rewrite !Hwrite. simpl. do 2 f_equal. unfold filled. f_equal.
  unfold int_add. rewrite to_int_small by (unfold int_min, int_max in *; lia).
  rewrite length_app. simpl. lia.
Qed.

Lemma add_all_filled (data : Data) (proc n : Z) (rest : list Z) :
  n <= int_max →
  ∀ (added : list Z) information_,
  Z.of_nat (length added + length rest) <= n →
  StdMap.find proc information_ = Some (filled data n added) →
  ∃ final,
    foldlM (λ m local, add getAddress NDEBUG data proc local m)
           information_ rest = Some final
    ∧ StdMap.find proc final = Some (filled data n (added ++ rest))
    ∧ ∀ q, q ≠ proc → StdMap.find q final = StdMap.find q information_.
Proof.
  intros Hn. induction rest as [|local rest IH];
    intros added information_ Hlen Hfind.
  { exists information_. by rewrite app_nil_r. }
  simpl in Hlen. simpl foldlM.
  rewrite (add_filled data proc n added local information_ Hn) by (done || lia).
  simpl.
  destruct (IH (added ++ [local])
               (assign proc (filled data n (added ++ [local])) information_))
    as (final & Hrun & Hfinal & Hframe).
  { rewrite length_app. simpl. lia. }
  { apply find_assign. }
  exists final. rewrite <- app_assoc in Hfinal. split_and!; try done.
  intros q Hq. rewrite (Hframe q Hq). by apply find_assign_ne.
Qed.

(** X17: [reserve] and [add] record the indices of a peer in the order they
    are added: after [reserve(proc, n)] on a functor that has nothing for
    [proc] and the addition of at most [n] local indices, [elements] is
    their number, [length] holds [getSize] of each and [displ] its address,
    in order; the entries of the other peers are untouched; and the loop of
    [createDataTypes] turns the addresses into displacements from the
    address of element 0. *)
Theorem reserve_and_add_record_the_indices
    (data : Data) (proc n : Z) (locals : list Z)
    (information_ : StdMap.t IndexedTypeInformation) :
  0 <= n <= int_max →
  Z.of_nat (length locals) <= n →
  StdMap.find proc information_ = None →
  ∃ reserved final info shifted,
    reserve indeterminate proc n information_ = Some reserved
    ∧ foldlM (λ m local, add getAddress NDEBUG data proc local m)
             reserved locals = Some final
    ∧ StdMap.find proc final = Some info
    ∧ elements info = Z.of_nat (length locals)
    ∧ size_of info = n
    ∧ take (length locals) <$> length_ info
      = Some (getSize data <$> locals)
    ∧ take (length locals) <$> displ info
      = Some (getAddress data <$> locals)
    ∧ (∀ q, q ≠ proc → StdMap.find q final = StdMap.find q information_)
    ∧ shift_displacements (getAddress data 0) info = Some shifted
    ∧ take (length locals) <$> displ shifted
      = Some ((λ local, getAddress data local - getAddress data 0)
                <$> locals)
    ∧ length_ shifted = length_ info
    ∧ elements shifted = elements info.
Proof.
  intros [Hn0 Hn] Hlen Hnone.
  assert (reserve indeterminate proc n information_
          = Some (assign proc (filled data n []) information_)) as Hres.
  { unfold reserve, IndexedTypeInformation_build. rewrite Hnone. simpl.
    rewrite bool_decide_eq_true_2 by done. simpl.
    unfold filled. simpl. by rewrite Nat.sub_0_r. }
  destruct (add_all_filled data proc n locals Hn []
              (assign proc (filled data n []) information_))
    as (final & Hrun & Hfinal & Hframe).
  { simpl. lia. }
  { apply find_assign. }
  simpl in Hfinal.
  eexists _, final, (filled data n locals), _.
  split; [exact Hres|]. split; [exact Hrun|]. split; [exact Hfinal|].
  split; [done|]. split; [done|].
  assert (∀ (f : Z → Z),
            take (length locals)
                 ((f <$> locals)
                  ++ replicate (Z.to_nat n - length locals) indeterminate)
            = f <$> locals) as Htake.
  { intros f. rewrite <- (length_fmap f locals) at 1.
    by rewrite take_app_length. }
  split; [simpl; by rewrite Htake|].
  split; [simpl; by rewrite Htake|].
  split.
  { intros q Hq. rewrite (Hframe q Hq). by apply find_assign_ne. }
  unfold shift_displacements. simpl.
  rewrite bool_decide_eq_true_2
    by (rewrite length_app, length_fmap; lia).
  split; [reflexivity|]. simpl. rewrite Nat2Z.id.
  split_and!; try done.
  rewrite Htake. f_equal.
  rewrite take_app_length' by (by rewrite !length_fmap).
  by rewrite <- list_fmap_compose.
Qed.

(** X18: [add] needs reserved room: without an earlier [reserve] for the
    peer, or when as many indices were added as were reserved, the
    assertion [info.elements < info.size] fails, and with [NDEBUG] the
    write goes outside the arrays; either way the call is undefined. *)
Theorem add_needs_reserved_room
    (data : Data) (proc local n : Z) (added : list Z)
    (information_ : StdMap.t IndexedTypeInformation) :
  StdMap.find proc information_ = None
  ∨ (StdMap.find proc information_ = Some (filled data n added)
     ∧ Z.of_nat (length added) = n) →
  add getAddress NDEBUG data proc local information_ = None.
Proof.
  intros [Hnone|[Hfind Hfull]]; unfold add.
  - rewrite Hnone. simpl. destruct (assert _ _); reflexivity.
  - rewrite Hfind. simpl. destruct (assert _ _); [simpl|done].
    assert (buffer_write
              ((getAddress data <$> added)
               ++ replicate (Z.to_nat n - length added) indeterminate)
              (Z.of_nat (length added)) (getAddress data local) = None)
      as ->; [|reflexivity].
    unfold buffer_write.
    rewrite bool_decide_eq_false_2; [reflexivity|].
    rewrite length_app, length_fmap, length_replicate. lia.
Qed.

End InformationTheorems.

(** * The further properties on the process with two peers *)

Section SampleExchanges.

Import Sample.

Local Abbreviation policy := (CommPolicy_default Z size).
Local Abbreviation Copy := (CopyGatherScatter Z size).
Local Abbreviation fresh := (@BufferedCommunicator_new (list Z) policy).

(** What MPI answers: the order in which the receives complete, the code of
    the second completion and of the second send. *)
Definition answers (first second : nat) (receive_error send_error : Z)
  : @mpi_env (list Z) policy :=
  @Build_mpi_env (list Z) policy
    (λ _, 0)
    (λ k, if decide (k = 0%nat) then (Some first, MPI_SUCCESS)
          else (Some second, receive_error))
    (λ p, if p =? 1 then [7] else [8; 9])
    (λ i, if decide (i = 1%nat) then send_error else MPI_SUCCESS)
    (λ flag, flag).

Lemma sample_exchange (FORWARD : bool) (env : @mpi_env (list Z) policy)
    (from to : ref) :
  valid_completions env 2 →
  @exchange_ok _ policy FORWARD Copy plan interface source dest env st
               from to.
Proof.
  intros Hval. split_and!; try done. apply sample_built.
Qed.

Lemma answers_valid (first second : nat) receive_error send_error :
  (first < 2)%nat → (second < 2)%nat →
  valid_completions (answers first second receive_error send_error) 2.
Proof.
  intros H1 H2 k Hk. simpl.
  destruct (decide (k = 0%nat)); [by exists first|by exists second].
Qed.

Lemma answers_complete (first second : nat) receive_error send_error :
  @messages_complete _ policy true interface dest
                     (answers first second receive_error send_error).
Proof.
  intros k i e _ _ He.
  destruct i as [|[|i]]; simpl in He; try done; by injection He as <-.
Qed.

Lemma answers_clean (first second : nat) (d0 : list Z) :
  (first = 0 ∧ second = 1 ∨ first = 1 ∧ second = 0)%nat →
  length d0 = 3%nat →
  clean_exchange size true interface
                 (answers first second MPI_SUCCESS MPI_SUCCESS) d0.
Proof.
  intros Horder Hlen. split_and!.
  - split.
    + intros [(k & _ & Hk)|(i & _ & Hi)]; simpl in *.
      * by destruct (decide (k = 0%nat)).
      * by destruct (decide (i = 1%nat)).
    + unfold complete_once. simpl.
      destruct Horder as [[-> ->]|[-> ->]]; [done|apply perm_swap].
  - vm_compute. apply (bool_decide_unpack _). reflexivity.
  - rewrite Hlen. eval_lists. solve_Forall.
  - intros i e He.
    destruct i as [|[|i]]; simpl in He; try done; by injection He as <-.
Qed.

Lemma assertions_hold_on_built_plan_witness :
  @exchange_ok _ policy true Copy plan interface source dest
               (answers 1 0 0 0) st 0%nat 1%nat
  ∧ @sendRecv _ policy false true true Copy plan (answers 1 0 0 0) st
              0%nat 1%nat
    = @sendRecv _ policy true false true Copy plan (answers 1 0 0 0) st
                0%nat 1%nat.
Proof.
  assert (valid_completions (answers 1 0 0 0) 2) as Hval
    by (apply answers_valid; lia).
  split; [by apply sample_exchange|].
  apply (@assertions_hold_on_built_plan _ policy false true true false true
           Copy plan interface source dest (answers 1 0 0 0) st 0%nat 1%nat).
  - by apply sample_exchange.
  - exact sample_fit.
Defined.

Lemma same_container_calls_are_aliased_calls_witness :
  @counts_fit_int _ policy plan
  ∧ ∃ r, @forward_same _ policy false true Copy plan (answers 1 0 0 0) st
                       0%nat = Some r
         ∧ sent_to 1 (res_trace r) = Some [10; 30]
         ∧ sent_to 3 (res_trace r) = Some [20]
         ∧ res_store r 0%nat = [8; 7; 9]
         ∧ res_store r 1%nat = [0; 0; 0].
Proof.
  assert (valid_completions (answers 1 0 0 0) 2) as Hval
    by (apply answers_valid; lia).
  split; [exact sample_fit|].
  destruct (@same_container_calls_are_aliased_calls _ policy false true Copy
              plan interface source dest (answers 1 0 0 0) st
              0%nat 0%nat 0%nat sample_fit)
    as (Hsame & _ & Hforward & _).
  destruct Hforward as (r & Hr & Hsent & Hstore & Hframe).
  - by apply sample_exchange.
  - by apply answers_complete.
  - exists r. split; [rewrite Hsame; exact Hr|]. split_and!.
    + exact (Hsent 0%nat (1, ([0; 2], [1])) eq_refl).
    + exact (Hsent 1%nat (3, ([1], [0; 2])) eq_refl).
    + rewrite Hstore. reflexivity.
    + rewrite Hframe by done. reflexivity.
Defined.

Lemma exchange_keeps_plan_witness :
  @exchange_ok _ policy true Copy plan interface source dest
               (answers 1 0 0 0) st 0%nat 1%nat
  ∧ ∃ r, @sendRecv _ policy false true true Copy plan (answers 1 0 0 0) st
                   0%nat 1%nat = Some r
         ∧ bufferSize_ (res_comm r) = (24, 24).
Proof.
  assert (valid_completions (answers 1 0 0 0) 2) as Hval
    by (apply answers_valid; lia).
  split; [by apply sample_exchange|].
  destruct (@exchange_keeps_plan _ policy false true true Copy plan
              interface source dest (answers 1 0 0 0) st 0%nat 1%nat)
    as (r & Hr & _ & _ & _ & Hsize & _);
    [by apply sample_exchange|exact sample_fit|].
  exists r. split; [exact Hr|]. rewrite Hsize. reflexivity.
Defined.

Lemma exchange_scatters_successful_receives_witness :
  @exchange_ok _ policy true Copy plan interface source dest
               (answers 1 0 1 0) st 0%nat 1%nat
  ∧ ∃ r, @sendRecv _ policy false true true Copy plan (answers 1 0 1 0) st
                   0%nat 1%nat = Some r
         ∧ res_store r 1%nat = [8; 0; 9]
         ∧ res_store r 0%nat = [10; 20; 30].
Proof.
  assert (valid_completions (answers 1 0 1 0) 2) as Hval
    by (apply answers_valid; lia).
  split; [by apply sample_exchange|].
  destruct (@exchange_scatters_successful_receives _ policy false true true
              Copy plan interface source dest (answers 1 0 1 0) st
              0%nat 1%nat)
    as (r & Hr & Hstore & _ & Hframe).
  - by apply sample_exchange.
  - exact sample_fit.
  - by apply answers_complete.
  - exists r. split; [exact Hr|]. split.
    + rewrite Hstore. reflexivity.
    + rewrite Hframe by done. reflexivity.
Defined.

Lemma send_report_names_last_completed_receive_witness :
  @exchange_ok _ policy true Copy plan interface source dest
               (answers 1 0 0 1) st 0%nat 1%nat
  ∧ ∃ r, @sendRecv _ policy false true true Copy plan (answers 1 0 0 1) st
                   0%nat 1%nat = Some r
         ∧ EvCerr 0 true (Some 1) ∈ res_trace r.
Proof.
  assert (valid_completions (answers 1 0 0 1) 2) as Hval
    by (apply answers_valid; lia).
  split; [by apply sample_exchange|].
  destruct (@send_report_names_last_completed_receive _ policy false true
              true Copy plan interface source dest (answers 1 0 0 1) st
              0%nat 1%nat)
    as (r & Hr & Hreport & _); [by apply sample_exchange|exact sample_fit|].
  exists r. split; [exact Hr|].
  apply (Hreport 1%nat); [simpl; lia|done].
Defined.

Definition alone : Interface := {| interfaces := []; communicator := 0 |}.

Lemma alone_exchange :
  @exchange_ok _ policy true Copy
               (@build _ policy 0 fresh source dest alone) alone source dest
               (answers 0 0 0 0) st 0%nat 1%nat.
Proof.
  split_and!; try done.
  - apply build_built;
      [constructor | reflexivity | by split_and! | by split_and!
      | constructor | constructor].
  - intros k Hk. simpl in Hk. lia.
Qed.

Lemma exchange_without_peers_witness :
  interfaces alone = []
  ∧ ∃ r, @sendRecv _ policy false true true Copy
                   (@build _ policy 0 fresh source dest alone)
                   (answers 0 0 0 0) st 0%nat 1%nat = Some r
         ∧ res_trace r = [EvAllreduce_MIN 1 0 1].
Proof.
  split; [reflexivity|].
  destruct (@exchange_without_peers _ policy false true true Copy
              (@build _ policy 0 fresh source dest alone) alone source dest
              (answers 0 0 0 0) st 0%nat 1%nat alone_exchange eq_refl)
    as (r & Hr & Htrace & _).
  exists r. split; [exact Hr|exact Htrace].
Defined.


Lemma peer_is_sent_its_own_list_witness :
  interfaces interface !! 1%nat = Some (3, ([1], [0; 2]))
  ∧ ∃ r, @sendRecv _ policy false true true Copy plan (answers 1 0 0 0) st
                   0%nat 1%nat = Some r
         ∧ sent_to 3 (res_trace r) = Some [20].
Proof.
  assert (valid_completions (answers 1 0 0 0) 2) as Hval
    by (apply answers_valid; lia).
  split; [reflexivity|].
  destruct (@peer_is_sent_its_own_list _ policy false true true Copy plan
              interface source dest (answers 1 0 0 0) st 0%nat 1%nat
              1%nat (3, ([1], [0; 2])))
    as (r & Hr & Hsent);
    [by apply sample_exchange|exact sample_fit|reflexivity|].
  exists r. split; [exact Hr|exact Hsent].
Defined.

End SampleExchanges.

Section SamplePlans.

Import Sample.

Local Abbreviation policy := (CommPolicy_default Z size).
Local Abbreviation Copy := (CopyGatherScatter Z size).
Local Abbreviation fresh := (@BufferedCommunicator_new (list Z) policy).

(** The same peers with shorter lists. *)
Definition shorter : Interface :=
  {| interfaces := [(1, ([0], [1])); (3, ([1], [0]))];
     communicator := 0 |}.

Lemma plan_wf : StdMap.wf (messageInformation_ plan).
Proof. unfold StdMap.wf. vm_compute. repeat constructor. Qed.

Lemma shorter_peers e :
  e ∈ interfaces shorter → e.1 ∈ StdMap.keys (messageInformation_ plan).
Proof.
  intros He. simpl in He.
  repeat (apply elem_of_cons in He as [->|He];
          [vm_compute; by repeat constructor|]).
  by apply elem_of_nil in He.
Qed.

Lemma build_without_free_keeps_old_entries_witness :
  StdMap.wf (messageInformation_ plan)
  ∧ messageInformation_ (@build _ policy 0 plan source dest shorter)
    = [(1, ({| start_ := 0; size_ := 16 |}, {| start_ := 0; size_ := 8 |}));
       (3, ({| start_ := 2; size_ := 8 |}, {| start_ := 1; size_ := 16 |}))]
  ∧ bufferSize_ (@build _ policy 0 plan source dest shorter) = (16, 16).
Proof.
  split; [exact plan_wf|].
  destruct (@build_without_free_keeps_old_entries _ policy 0 plan source dest
              shorter plan_wf shorter_peers) as (Hmi & Hsize & _).
  split; [rewrite Hmi|rewrite Hsize]; reflexivity.
Defined.

Lemma free_forgets_the_plan_witness :
  interface_ plan ≠ None
  ∧ @build _ policy 0 (free plan) source dest shorter
    = @build _ policy 0 fresh source dest shorter.
Proof.
  split; [done|].
  apply (@free_forgets_the_plan _ policy 0 false true true Copy plan source
           dest shorter (answers 0 1 0 0) st 0%nat 1%nat).
  done.
Defined.


Lemma copy_result_is_independent_of_completion_order_witness :
  clean_exchange size true interface (answers 0 1 0 0) (st 1%nat)
  ∧ clean_exchange size true interface (answers 1 0 0 0) (st 1%nat)
  ∧ ∃ r1 r2,
      @sendRecv _ policy false true true Copy plan (answers 0 1 0 0) st
                0%nat 1%nat = Some r1
      ∧ @sendRecv _ policy false true true Copy plan (answers 1 0 0 0) st
                  0%nat 1%nat = Some r2
      ∧ res_store r1 1%nat = res_store r2 1%nat.
Proof.
  assert (clean_exchange size true interface (answers 0 1 0 0) (st 1%nat))
    as H1 by (apply answers_clean; [lia|done]).
  assert (clean_exchange size true interface (answers 1 0 0 0) (st 1%nat))
    as H2 by (apply answers_clean; [lia|done]).
  split; [exact H1|]. split; [exact H2|].
  destruct (copy_result_is_independent_of_completion_order size false true
              true plan interface source dest (answers 0 1 0 0)
              (answers 1 0 0 0) st 0%nat 1%nat sample_built sample_fit H1 H2
              eq_refl)
    as (r1 & r2 & Hr1 & Hr2 & Hsame).
  exists r1, r2. split; [exact Hr1|]. split; [exact Hr2|apply Hsame].
Defined.

Lemma copy_exchange_twice_is_once_witness :
  clean_exchange size true interface (answers 0 1 0 0) (st 1%nat)
  ∧ ∃ r r',
      @sendRecv _ policy false true true Copy plan (answers 0 1 0 0) st
                0%nat 1%nat = Some r
      ∧ @sendRecv _ policy false true true Copy (res_comm r)
                  (answers 1 0 0 0) (res_store r) 0%nat 1%nat = Some r'
      ∧ res_store r' 1%nat = res_store r 1%nat.
Proof.
  assert (clean_exchange size true interface (answers 0 1 0 0) (st 1%nat))
    as H1 by (apply answers_clean; [lia|done]).
  assert (clean_exchange size true interface (answers 1 0 0 0) (st 1%nat))
    as H2 by (apply answers_clean; [lia|done]).
  split; [exact H1|].
  destruct (copy_exchange_twice_is_once size false true true plan interface
              source dest (answers 0 1 0 0) (answers 1 0 0 0) st
              0%nat 1%nat sample_built sample_fit H1 H2 eq_refl)
    as (r & r' & Hr & Hr' & Hsame).
  exists r, r'. split; [exact Hr|]. split; [exact Hr'|apply Hsame].
Defined.

Lemma copy_gather_after_scatter_witness :
  0 <= 1 < Z.of_nat (length source)
  ∧ @gathered _ policy Copy
      (@scatter_slot _ policy Copy source (1, None) 7) (1, None) = 7.
Proof.
  split; [simpl; lia|].
  apply (copy_gather_after_scatter size source 7 1 2); simpl; lia.
Defined.

Lemma datatype_build_replaces_the_plan_witness :
  ∃ c1,
    Datatype.build (λ _, 0) Datatype.DatatypeCommunicator_new 0
                   [(1, (MPI_Type_hindexed 1, MPI_Type_hindexed 2))]
                   0%nat 1%nat = Some c1
    ∧ Datatype.build (λ _, 0) c1 5
                     [(3, (MPI_Type_hindexed 3, MPI_Type_hindexed 4))]
                     1%nat 0%nat
      = Datatype.build (λ _, 0) Datatype.DatatypeCommunicator_new 5
                       [(3, (MPI_Type_hindexed 3, MPI_Type_hindexed 4))]
                       1%nat 0%nat
    ∧ ∃ c2, Datatype.free c1 = Some c2 ∧ Datatype.free c2 = None.
Proof.
  eexists. split; [reflexivity|].
  destruct (datatype_build_replaces_the_plan
              (λ _, 0) (λ _, 0) Datatype.DatatypeCommunicator_new _ 0 5
              [(1, (MPI_Type_hindexed 1, MPI_Type_hindexed 2))]
              [(3, (MPI_Type_hindexed 3, MPI_Type_hindexed 4))]
              0%nat 1%nat 1%nat 0%nat (dp_env (dmember MPI_SUCCESS))
              eq_refl)
    as (_ & Hsame & (c2 & Hfree & _ & _ & _ & Htwice & _) & _).
  split; [exact Hsame|]. exists c2. split; [exact Hfree|exact Htwice].
Defined.

Lemma create_marks_excluded_witness :
  NoDup ([(0, 1); (2, 0)].*1)
  ∧ ∃ marked,
      GraphCreator.mark_excluded (λ attribute : Z, bool_decide (attribute = 1))
                                 [(0, 1); (2, 0)] [false; true; true]
      = Some marked
      ∧ marked !! 0%nat = Some true
      ∧ marked !! 1%nat = Some true
      ∧ marked !! 2%nat = Some false.
Proof.
  assert (NoDup ([(0, 1); (2, 0)].*1)) as Hnd.
  { apply (bool_decide_unpack _). reflexivity. }
  split; [exact Hnd|].
  destruct (create_marks_excluded
              (λ attribute : Z, bool_decide (attribute = 1))
              [(0, 1); (2, 0)] [false; true; true])
    as (marked & Hrun & _ & Hin & Hout).
  - solve_Forall.
  - exact Hnd.
  - exists marked. split; [exact Hrun|]. split_and!.
    + apply (Hin (0, 1)). by left.
    + rewrite (Hout 1%nat); [reflexivity|].
      intros index Hindex.
      repeat (apply elem_of_cons in Hindex as [->|Hindex]; [simpl; lia|]).
      by apply elem_of_nil in Hindex.
    + apply (Hin (2, 0)). right. by left.
Defined.

Lemma reserve_and_add_record_the_indices_witness :
  StdMap.find 1 (@nil (Z * DatatypeInformation.IndexedTypeInformation))
  = None
  ∧ ∃ reserved final info shifted,
      DatatypeInformation.reserve 0 1 2 [] = Some reserved
      ∧ foldlM (λ m local,
                  @DatatypeInformation.add _ policy
                     (λ _ index, 1000 + 8 * index) false source 1 local m)
               reserved [0; 2] = Some final
      ∧ StdMap.find 1 final = Some info
      ∧ DatatypeInformation.shift_displacements 1000 info = Some shifted
      ∧ take 2 <$> DatatypeInformation.displ shifted = Some [0; 16].
Proof.
  split; [reflexivity|].
  destruct (@reserve_and_add_record_the_indices _ policy
              (λ _ index, 1000 + 8 * index) 0 false source 1 2 [0; 2] [])
    as (reserved & final & info & shifted & Hres & Hrun & Hfind & _ & _ & _
        & _ & _ & Hshift & Hdispl & _).
  - unfold int_max. lia.
  - simpl. lia.
  - reflexivity.
  - exists reserved, final, info, shifted.
    split; [exact Hres|]. split; [exact Hrun|]. split; [exact Hfind|].
    split; [exact Hshift|exact Hdispl].
Defined.

Lemma add_needs_reserved_room_witness :
  StdMap.find 1 (@nil (Z * DatatypeInformation.IndexedTypeInformation))
  = None
  ∧ @DatatypeInformation.add _ policy (λ _ index, 1000 + 8 * index) true
       source 1 0 [] = None.
Proof.
  split; [reflexivity|].
  apply (@add_needs_reserved_room _ policy (λ _ index, 1000 + 8 * index) 0
           true source 1 0 0 [] []).
  by left.
Defined.

End SamplePlans.
